(** * SW_Timer: ten software timers multiplexed on one hardware compare channel

    A shallow embedding of [SW_Timer_executable.c] (and, in [Module
    Theoretical], of [SW_Timer_theoretical.c]) together with the properties
    of the scheduler core: the minimum-remaining scan, [set_timer],
    [remove_timer] and the interrupt handler [timer_interrupt].  Part IV
    adds the display, the counter thread [hw_timer_thread] with
    [create_thread_simple], the installer of the theoretical variant, and
    the way the operations compose.

    Conventions of the embedding:
    - a [uint32] is a [Z] in [0, 2^32); every C operation that can leave that
      range is followed by an explicit [wrap32];
    - the global array [timer_data[TMR_NUM]] is a [list timer_data_t] of
      length [TMR_NUM], read with [!!!] and written with [alter];
    - the globals and the three memory-mapped registers form the record
      [state]; every C function is a function on [state];
    - [printf] is modelled by returning the list of lines written (in the
      theoretical variant, which prints inside a loop, by a console field
      of the state). *)

From Stdlib Require Import ZArith List Lia String Ascii DecimalString Sorted.
From stdpp Require Import base list.
Import ListNotations.

Local Open Scope Z_scope.

(** * Part I: the embedding *)

(** ** Machine integers *)

Definition UINT32_MOD : Z := 2 ^ 32.
Definition UINT32_MAX : Z := 0xffffffff.

Definition wrap32 (z : Z) : Z := z mod UINT32_MOD.

Definition is_uint32 (z : Z) : Prop := 0 <= z < UINT32_MOD.

(** ** Data model *)

(** [#define TMR_NUM 10] *)
Definition TMR_NUM : nat := 10.

(** [timer_data_t] *)
Record timer_data_t : Type := mk_timer_data {
  wait_us : Z;      (* The constant time interval of the timer *)
  remain : Z;       (* The remaining time until next interrupt *)
  times_fired : Z   (* The number of times the timer fired *)
}.

(** An array entry as left by the initialiser [{ 0 }]. *)
Definition timer_zero : timer_data_t := mk_timer_data 0 0 0.

#[global] Instance timer_data_t_inhabited : Inhabited timer_data_t :=
  populate timer_zero.

(** The globals of the program: the table, the baseline and the registers. *)
Record state : Type := mk_state {
  timer_data : list timer_data_t;
  last_update_timer_value : Z;
  tmr_val_reg : Z;   (* Read-Only register - current uint32 timer value *)
  tmr_cmp_reg : Z;   (* Write-Only register - interrupt compare value *)
  tmr_clr_reg : Z    (* Write-Only register - write any value to clear *)
}.

(** The state at program start: every global is zero-initialised. *)
Definition initial_state : state :=
  mk_state (replicate TMR_NUM timer_zero) 0 0 0 0.

(** [timer_data[i]] *)
Definition slot (s : state) (i : nat) : timer_data_t := timer_data s !!! i.

(** A slot is active when its [wait_us] is not the sentinel 0. *)
Definition active (t : timer_data_t) : Prop := wait_us t <> 0.

(** *** Stores *)

Definition store_slot (i : nat) (f : timer_data_t -> timer_data_t)
    (s : state) : state :=
  mk_state (alter f i (timer_data s)) (last_update_timer_value s)
           (tmr_val_reg s) (tmr_cmp_reg s) (tmr_clr_reg s).

(** [timer_data[i].wait_us = v] *)
Definition store_wait_us (i : nat) (v : Z) : state -> state :=
  store_slot i (fun t => mk_timer_data v (remain t) (times_fired t)).

(** [timer_data[i].remain = v] *)
Definition store_remain (i : nat) (v : Z) : state -> state :=
  store_slot i (fun t => mk_timer_data (wait_us t) v (times_fired t)).

(** [timer_data[i].times_fired = v] *)
Definition store_times_fired (i : nat) (v : Z) : state -> state :=
  store_slot i (fun t => mk_timer_data (wait_us t) (remain t) v).

(** [last_update_timer_value = v] *)
Definition store_last_update (v : Z) (s : state) : state :=
  mk_state (timer_data s) v (tmr_val_reg s) (tmr_cmp_reg s) (tmr_clr_reg s).

(** [tmr_cmp_reg = v] *)
Definition store_cmp_reg (v : Z) (s : state) : state :=
  mk_state (timer_data s) (last_update_timer_value s) (tmr_val_reg s) v
           (tmr_clr_reg s).

(** [tmr_clr_reg = v] *)
Definition store_clr_reg (v : Z) (s : state) : state :=
  mk_state (timer_data s) (last_update_timer_value s) (tmr_val_reg s)
           (tmr_cmp_reg s) v.

(** *** Control *)

(** [for (int i = 0; i < n; i++) body], threading an accumulator; a
    [continue] in the body is an iteration that returns the accumulator. *)
Definition for_loop {A : Type} (n : nat) (body : nat -> A -> A) (a : A) : A :=
  fold_left (fun acc i => body i acc) (seq 0 n) a.

(** *** Console *)

Definition newline : string := String "010"%char EmptyString.

(** [printf("ERROR: Timer ID exceeds limit, maximal is: %d\n", TMR_NUM-1)] *)
Definition msg_id_exceeds_limit : string :=
  ("ERROR: Timer ID exceeds limit, maximal is: 9" ++ newline)%string.

(** [printf("Timer is already inactive\n")] *)
Definition msg_already_inactive : string :=
  ("Timer is already inactive" ++ newline)%string.

(** ** The scheduler core *)

(** [uint32 find_minimal_remain()] *)
Definition find_minimal_remain (s : state) : Z :=
  for_loop TMR_NUM
    (fun i minimal_rem =>
       (* Skip inactive timer entries *)
       if wait_us (slot s i) =? 0 then minimal_rem
       else
         (* Update minimal if necessary *)
         let rem_i := remain (slot s i) in
         if rem_i <? minimal_rem then rem_i else minimal_rem)
    UINT32_MAX.

(** [void set_timer(uint8 timer_id, uint32 wait_us)] *)
Definition set_timer (timer_id : Z) (wait : Z) (s : state)
    : state * list string :=
  (* input Timer ID exceeds limit *)
  if timer_id >=? Z.of_nat TMR_NUM then (s, [msg_id_exceeds_limit])
  else
    let id := Z.to_nat timer_id in
    (* Assign values of the new timer *)
    let s := store_wait_us id wait s in
    let s := store_remain id wait s in
    let s := store_times_fired id 0 s in
    (* Read current timer value so all updates are relative to this time *)
    let current_timer_value := tmr_val_reg s in
    (* Update all the timers' remain values with respect to current time *)
    let time_diff := wrap32 (current_timer_value - last_update_timer_value s) in
    let s :=
      for_loop TMR_NUM
        (fun i s =>
           (* No need to update the new timer *)
           if timer_id =? Z.of_nat i then s
           (* Skip inactive timer entries *)
           else if wait_us (slot s i) =? 0 then s
           else store_remain i (wrap32 (remain (slot s i) - time_diff)) s)
        s in
    (* Array was updated - save timer value *)
    let s := store_last_update current_timer_value s in
    let min_remain := find_minimal_remain s in
    (* Next interrupt is min_remain from now *)
    (store_cmp_reg (wrap32 (current_timer_value + min_remain)) s, []).

(** [void timer_interrupt(void)] *)
Definition timer_interrupt (s : state) : state :=
  (* Find the minimal remain as this is the current interrupt that's firing *)
  let min_remain := find_minimal_remain s in
  let s :=
    for_loop TMR_NUM
      (fun i s =>
         (* Skip inactive timer entries *)
         if wait_us (slot s i) =? 0 then s
         else
           (* Update remain of all timers *)
           let s := store_remain i (wrap32 (remain (slot s i) - min_remain)) s in
           (* The firing timers now have remain==0 so update them *)
           if remain (slot s i) =? 0 then
             let s := store_remain i (wait_us (slot s i)) s in
             store_times_fired i (wrap32 (times_fired (slot s i) + 1)) s
           else s)
      s in
  (* Array was updated - save timer value *)
  let s := store_last_update (tmr_val_reg s) s in
  (* Set the next interrupt *)
  let min_remain := find_minimal_remain s in
  let s := store_cmp_reg (wrap32 (last_update_timer_value s + min_remain)) s in
  (* End of interrupt - clear *)
  store_clr_reg 1 s.

(** [void remove_timer(uint8 timer_id)] *)
Definition remove_timer (timer_id : Z) (s : state) : state * list string :=
  (* input Timer ID exceeds limit *)
  if timer_id >=? Z.of_nat TMR_NUM then (s, [msg_id_exceeds_limit])
  else
    let id := Z.to_nat timer_id in
    (* Timer is already inactive *)
    if wait_us (slot s id) =? 0 then (s, [msg_already_inactive])
    (* Deactivate timer *)
    else
      let s := store_wait_us id 0 s in
      let s := store_remain id 0 s in
      let s := store_times_fired id 0 s in
      (s, []).

(** One pass of the body of [hw_timer_thread]'s loop on the counter:
    [tmr_val_reg++].  The dispatch of the handler that the thread performs
    when the counter meets the compare register is the separate operation
    [timer_interrupt]. *)
Definition hw_tick (s : state) : state :=
  mk_state (timer_data s) (last_update_timer_value s)
           (wrap32 (tmr_val_reg s + 1)) (tmr_cmp_reg s) (tmr_clr_reg s).

(** ** The theoretical variant *)

(** [SW_Timer_theoretical.c]: the same scheduler on the memory-mapped
    registers, with no [times_fired] field and a [printf] at each firing.
    The handler prints inside its loop, so the console is a field of the
    state here. *)
Module Theoretical.

Record timer_data_t : Type := mk_timer_data {
  wait_us : Z;   (* The constant time interval of the timer *)
  remain : Z     (* The remaining time until next interrupt *)
}.

Definition timer_zero : timer_data_t := mk_timer_data 0 0.

#[global] Instance timer_data_t_inhabited : Inhabited timer_data_t :=
  populate timer_zero.

(** The table, the baseline, the contents of the registers at
    [TMR_VAL_REG], [TMR_CMP_REG] and [TMR_INT_CLR_REG], and the lines
    printed so far. *)
Record state : Type := mk_state {
  timer_data : list timer_data_t;
  last_update_timer_value : Z;
  tmr_val_reg : Z;
  tmr_cmp_reg : Z;
  tmr_int_clr_reg : Z;
  console : list string
}.

Definition slot (s : state) (i : nat) : timer_data_t := timer_data s !!! i.

Definition store_slot (i : nat) (f : timer_data_t -> timer_data_t)
    (s : state) : state :=
  mk_state (alter f i (timer_data s)) (last_update_timer_value s)
           (tmr_val_reg s) (tmr_cmp_reg s) (tmr_int_clr_reg s) (console s).

(** [timer_data[i].remain = v] *)
Definition store_remain (i : nat) (v : Z) : state -> state :=
  store_slot i (fun t => mk_timer_data (wait_us t) v).

(** [last_update_timer_value = v] *)
Definition store_last_update (v : Z) (s : state) : state :=
  mk_state (timer_data s) v (tmr_val_reg s) (tmr_cmp_reg s)
           (tmr_int_clr_reg s) (console s).

(** [*tmr_cmp_reg = v] *)
Definition store_cmp_reg (v : Z) (s : state) : state :=
  mk_state (timer_data s) (last_update_timer_value s) (tmr_val_reg s) v
           (tmr_int_clr_reg s) (console s).

(** [*tmr_int_clr_reg = v] *)
Definition store_int_clr_reg (v : Z) (s : state) : state :=
  mk_state (timer_data s) (last_update_timer_value s) (tmr_val_reg s)
           (tmr_cmp_reg s) v (console s).

(** [printf("Firing timer id = %d\n", i)] *)
Definition printf_firing (i : nat) (s : state) : state :=
  mk_state (timer_data s) (last_update_timer_value s) (tmr_val_reg s)
           (tmr_cmp_reg s) (tmr_int_clr_reg s)
           (console s ++
              [("Firing timer id = "
                ++ NilZero.string_of_uint (Nat.to_uint i) ++ newline)%string]).

(** [uint32 find_minimal_remain()] *)
Definition find_minimal_remain (s : state) : Z :=
  for_loop TMR_NUM
    (fun i minimal_rem =>
       (* Skip inactive timer entries *)
       if wait_us (slot s i) =? 0 then minimal_rem
       else
         (* Update minimal if necessary *)
         let rem_i := remain (slot s i) in
         if rem_i <? minimal_rem then rem_i else minimal_rem)
    UINT32_MAX.

(** [__interrupt void timer_interrupt(void)] *)
Definition timer_interrupt (s : state) : state :=
  (* Find the minimal remain as this is the current interrupt that's
     firing *)
  let min_remain := find_minimal_remain s in
  let s :=
    for_loop TMR_NUM
      (fun i s =>
         (* Skip inactive timer entries *)
         if wait_us (slot s i) =? 0 then s
         else
           (* Update remain of all timers *)
           let s :=
             store_remain i (wrap32 (remain (slot s i) - min_remain)) s in
           (* The firing timers now have remain==0 so update them and
              print *)
           if remain (slot s i) =? 0 then
             let s := store_remain i (wait_us (slot s i)) s in
             printf_firing i s
           else s)
      s in
  (* Array was updated - save timer value *)
  let s := store_last_update (tmr_val_reg s) s in
  (* Set the next interrupt *)
  let min_remain := find_minimal_remain s in
  let s :=
    store_cmp_reg (wrap32 (last_update_timer_value s + min_remain)) s in
  (* End of interrupt - clear *)
  store_int_clr_reg 1 s.

(** [timer_data[i].wait_us = v] *)
Definition store_wait_us (i : nat) (v : Z) : state -> state :=
  store_slot i (fun t => mk_timer_data v (remain t)).

(** How a call of [timer_set] ends: it returns, [ASSERT] stops the
    program, or it writes outside the array (a negative [int] index passes
    the assertion). *)
Inductive outcome : Type :=
  | Returned (s : state)
  | AssertionFailed
  | OutOfBounds.

(** [void timer_set(int timer_id, uint32 wait_us)] *)
Definition timer_set (timer_id : Z) (wait : Z) (s : state) : outcome :=
  (* ASSERT(timer_id < TMR_NUM) *)
  if negb (timer_id <? Z.of_nat TMR_NUM) then AssertionFailed
  else if timer_id <? 0 then OutOfBounds
  else
    let id := Z.to_nat timer_id in
    (* Assign values of the new timer *)
    let s := store_wait_us id wait s in
    let s := store_remain id wait s in
    (* Read current timer value so all updates are relative to this time *)
    let current_timer_value := tmr_val_reg s in
    (* Update all the timers' remain values with respect to current time *)
    let time_diff := wrap32 (current_timer_value - last_update_timer_value s) in
    let s :=
      for_loop TMR_NUM
        (fun i s =>
           (* No need to update the new timer *)
           if timer_id =? Z.of_nat i then s
           (* Skip inactive timer entries *)
           else if wait_us (slot s i) =? 0 then s
           else store_remain i (wrap32 (remain (slot s i) - time_diff)) s)
        s in
    (* Array was updated - save timer value *)
    let s := store_last_update current_timer_value s in
    let min_remain := find_minimal_remain s in
    (* Next interrupt is min_remain from now *)
    Returned (store_cmp_reg (wrap32 (current_timer_value + min_remain)) s).

End Theoretical.

(** Forgetting the firing counters turns a state of the executable into a
    state of the theoretical variant, whose console holds [out]. *)
Definition erase_slot (t : timer_data_t) : Theoretical.timer_data_t :=
  Theoretical.mk_timer_data (wait_us t) (remain t).

Definition erase (out : list string) (s : state) : Theoretical.state :=
  Theoretical.mk_state (erase_slot <$> timer_data s)
    (last_update_timer_value s) (tmr_val_reg s) (tmr_cmp_reg s)
    (tmr_clr_reg s) out.

(** ** Well-formed states

    Every field holds a [uint32] and the table has its [TMR_NUM] entries.
    This is what the C types guarantee; it is kept as a boolean check so
    that it can be evaluated on concrete states. *)

Definition uint32b (z : Z) : bool := (0 <=? z) && (z <? UINT32_MOD).

Definition wf_timerb (t : timer_data_t) : bool :=
  uint32b (wait_us t) && uint32b (remain t) && uint32b (times_fired t).

Definition wf_stateb (s : state) : bool :=
  (length (timer_data s) =? TMR_NUM)%nat
  && forallb wf_timerb (timer_data s)
  && uint32b (last_update_timer_value s)
  && uint32b (tmr_val_reg s)
  && uint32b (tmr_cmp_reg s)
  && uint32b (tmr_clr_reg s).

Definition wf_timer (t : timer_data_t) : Prop :=
  is_uint32 (wait_us t) /\ is_uint32 (remain t) /\ is_uint32 (times_fired t).

Definition wf_state (s : state) : Prop := wf_stateb s = true.

(** [m] is the least [remain] among the active slots of [s]. *)
Definition is_min_remaining (s : state) (m : Z) : Prop :=
  (exists j, (j < TMR_NUM)%nat /\ active (slot s j) /\ remain (slot s j) = m)
  /\ (forall j, (j < TMR_NUM)%nat -> active (slot s j) -> m <= remain (slot s j)).

(** No slot of the table is active. *)
Definition none_active (s : state) : Prop :=
  forall j, (j < TMR_NUM)%nat -> ~ active (slot s j).

(** ** Per-slot effect of the two table loops *)

(** What the rebase loop of [set_timer] does to slot [i]. *)
Definition rebase_slot (timer_id time_diff : Z) (i : nat) (t : timer_data_t)
    : timer_data_t :=
  if timer_id =? Z.of_nat i then t
  else if wait_us t =? 0 then t
  else mk_timer_data (wait_us t) (wrap32 (remain t - time_diff)) (times_fired t).

(** What the advance loop of [timer_interrupt] does to a slot. *)
Definition advance_slot (min_remain : Z) (t : timer_data_t) : timer_data_t :=
  if wait_us t =? 0 then t
  else if wrap32 (remain t - min_remain) =? 0
       then mk_timer_data (wait_us t) (wait_us t) (wrap32 (times_fired t + 1))
       else mk_timer_data (wait_us t) (wrap32 (remain t - min_remain))
                          (times_fired t).

(** The slot that [set_timer] writes for the timer it installs. *)
Definition installed_slot (wait : Z) : timer_data_t :=
  mk_timer_data wait wait 0.

(** ** Runs of operations *)

(** What can happen to the state between two quiescent points: a call of
    [set_timer] or [remove_timer] from the menu, a run of the interrupt
    handler, or a tick of the hardware counter. *)
Inductive op : Type :=
  | OpSetTimer (timer_id wait : Z)
  | OpRemoveTimer (timer_id : Z)
  | OpInterrupt
  | OpTick.

Definition step (o : op) (s : state) : state :=
  match o with
  | OpSetTimer timer_id wait => fst (set_timer timer_id wait s)
  | OpRemoveTimer timer_id => fst (remove_timer timer_id s)
  | OpInterrupt => timer_interrupt s
  | OpTick => hw_tick s
  end.

Definition run (ops : list op) (s : state) : state :=
  fold_left (fun acc o => step o acc) ops s.

(** The arguments fit their C types: [uint8 timer_id], [uint32 wait_us]. *)
Definition op_ok (o : op) : Prop :=
  match o with
  | OpSetTimer timer_id wait => 0 <= timer_id < 256 /\ is_uint32 wait
  | OpRemoveTimer timer_id => 0 <= timer_id < 256
  | OpInterrupt | OpTick => True
  end.

(** [o] is an install naming slot [j]. *)
Definition installs (j : nat) (o : op) : bool :=
  match o with
  | OpSetTimer timer_id _ => timer_id =? Z.of_nat j
  | _ => false
  end.

Definition is_interrupt (o : op) : bool :=
  match o with OpInterrupt => true | _ => false end.

Definition count_interrupts (ops : list op) : Z :=
  Z.of_nat (length (filter (fun o => is_interrupt o = true) ops)).

(** Slot [j] is active before, between and after the operations [ops]. *)
Fixpoint stays_active (j : nat) (ops : list op) (s : state) : Prop :=
  active (slot s j)
  /\ match ops with
     | [] => True
     | o :: ops' => stays_active j ops' (step o s)
     end.

(** The states a run of well-typed operations can reach from program
    start. *)
Inductive reachable : state -> Prop :=
  | reachable_initial : reachable initial_state
  | reachable_step o s : op_ok o -> reachable s -> reachable (step o s).

(** ** The invariant of the data model *)

(** The invariant of the data model: [0 <= remain <= wait_us] on every
    active slot. *)
Definition remaining_bounded (s : state) : Prop :=
  forall j, (j < TMR_NUM)%nat -> active (slot s j) ->
    0 <= remain (slot s j) <= wait_us (slot s j).

Definition remaining_boundedb (s : state) : bool :=
  forallb (fun t => (wait_us t =? 0)
                    || ((0 <=? remain t) && (remain t <=? wait_us t)))
          (timer_data s).

(** [set_timer] is not late for any other active timer: the ticks elapsed
    since the baseline do not exceed its [remain].  The other operations
    carry no condition. *)
Definition no_missed_deadline (o : op) (s : state) : Prop :=
  match o with
  | OpSetTimer timer_id _ =>
      timer_id < Z.of_nat TMR_NUM ->
      forall j, (j < TMR_NUM)%nat -> j <> Z.to_nat timer_id ->
        active (slot s j) ->
        wrap32 (tmr_val_reg s - last_update_timer_value s) <= remain (slot s j)
  | _ => True
  end.

Fixpoint all_on_time (ops : list op) (s : state) : Prop :=
  match ops with
  | [] => True
  | o :: ops' => no_missed_deadline o s /\ all_on_time ops' (step o s)
  end.

(** ** Sample states and runs *)

(** A table with three active timers, used to exercise the theorems. *)
Definition sample_state : state :=
  mk_state
    [ mk_timer_data 100 70 2; mk_timer_data 30 30 7; timer_zero;
      mk_timer_data 50 30 0; timer_zero; mk_timer_data 40 35 1; timer_zero;
      timer_zero; timer_zero; timer_zero ]
    1000 1010 1030 1.

(** Scenarios A, B and C of the specification, in one run: two installs
    at tick 0, thirty ticks, the interrupt, and the removal of timer 1. *)
Definition scenario_ops : list op :=
  OpSetTimer 0 100 :: OpSetTimer 1 30 :: replicate 30 OpTick
  ++ [OpInterrupt; OpRemoveTimer 1].

(** An install at tick 0, a second one at tick 50, in time for the first
    timer, then the interrupt and the removal of timer 0. *)
Definition on_time_ops : list op :=
  OpSetTimer 0 100 :: replicate 50 OpTick
  ++ [OpSetTimer 1 30; OpInterrupt; OpRemoveTimer 0].

(** The deadline at tick 100 is missed: the second install comes at tick
    150. *)
Definition missed_deadline_ops : list op :=
  OpSetTimer 0 100 :: replicate 150 OpTick ++ [OpSetTimer 1 30].

(** One timer of period 1 in slot 0 that fired [k] times; [c] is the clear
    register. *)
Definition one_timer (k c : Z) : state :=
  mk_state (mk_timer_data 1 1 k :: replicate 9 timer_zero) 0 0 1 c.

(** ** The rest of the executable *)

(** *** Display *)

(** [%u] *)
Definition print_uint (z : Z) : string :=
  NilZero.string_of_uint (N.to_uint (Z.to_N z)).

(** [printf("Timer %u - Interval: %u us, Remain: %u us, Times fired: %u\n",
    i, wait_us, remain, times_fired)] *)
Definition msg_timer_line (i : nat) (t : timer_data_t) : string :=
  ("Timer " ++ print_uint (Z.of_nat i)
   ++ " - Interval: " ++ print_uint (wait_us t)
   ++ " us, Remain: " ++ print_uint (remain t)
   ++ " us, Times fired: " ++ print_uint (times_fired t) ++ newline)%string.

(** [printf("All timers are inactive\n")] *)
Definition msg_all_inactive : string :=
  ("All timers are inactive" ++ newline)%string.

(** [void display_timers()]: the lines it prints; it writes no global. *)
Definition display_timers (s : state) : list string :=
  let '(out, all_timers_inactive) :=
    for_loop TMR_NUM
      (fun i '(out, all_timers_inactive) =>
         if negb (wait_us (slot s i) =? 0) then
           (out ++ [msg_timer_line i (slot s i)], false)
         else (out, all_timers_inactive))
      ([], true) in
  if all_timers_inactive then out ++ [msg_all_inactive] else out.

(** The indices of the active slots, in increasing order. *)
Definition active_ids (s : state) : list nat :=
  List.filter (fun i => negb (wait_us (slot s i) =? 0)) (seq 0 TMR_NUM).

(** *** The counter thread *)

(** A [HANDLE] is an integer; [NULL] is 0. *)
Definition NULL : Z := 0.

(** [printf("ERROR: Error when creating a thread\n")] and
    [printf("Received null pointer\n")] *)
Definition msg_create_thread_null : list string :=
  [("ERROR: Error when creating a thread" ++ newline)%string;
   ("Received null pointer" ++ newline)%string].

(** [printf("ERROR: create_thread_simple - hw timer thread\n")] *)
Definition msg_hw_thread_error : string :=
  ("ERROR: create_thread_simple - hw timer thread" ++ newline)%string.

(** [HANDLE create_thread_simple(p_start_routine, p_thread_id)].  The start
    routine is [None] for a null pointer; [CreateThread] is what the
    operating system answers for a routine. *)
Definition create_thread_simple {R : Type} (CreateThread : R -> Z)
    (p_start_routine : option R) : Z * list string :=
  match p_start_routine with
  | None => (NULL, msg_create_thread_null)
  | Some routine => (CreateThread routine, [])
  end.

(** The globals of the executable that the counter thread writes besides
    the registers. *)
Record process : Type := mk_process {
  globals : state;
  h_isr : Z;            (* isr thread handle *)
  g_no_errors : bool    (* FALSE after an error that ends the program *)
}.

(** What one pass of the loop did: the globals after it, whether a thread
    running [timer_interrupt] was started, and the lines printed. *)
Record hw_pass : Type := mk_hw_pass {
  pass_process : process;
  pass_isr : bool;
  pass_out : list string
}.

(** One pass of the [while (TRUE)] loop of [hw_timer_thread]. *)
Definition hw_timer_thread_pass (CreateThread : (state -> state) -> Z)
    (p : process) : hw_pass :=
  (* tmr_val_reg++ *)
  let s := hw_tick (globals p) in
  if tmr_val_reg s =? tmr_cmp_reg s then
    let '(h, out) := create_thread_simple CreateThread (Some timer_interrupt) in
    if h =? NULL then
      (* ISR thread creation failed *)
      mk_hw_pass (mk_process s h false) false (out ++ [msg_hw_thread_error])
    else mk_hw_pass (mk_process s h (g_no_errors p)) true out
  else mk_hw_pass (mk_process s (h_isr p) (g_no_errors p)) false [].

(** [k] passes during which no handler runs: only the counter moves. *)
Definition ticks (k : nat) (s : state) : state := Nat.iter k hw_tick s.

(** The pass after [k] silent ones starts the handler (thread creation
    succeeding with handle 1). *)
Definition interrupt_at (k : nat) (s : state) : bool :=
  pass_isr (hw_timer_thread_pass (fun _ => 1) (mk_process (ticks k s) NULL true)).

(** The number of passes from [s] to the first compare match: the distance
    from the counter to the compare register, a full turn when they are
    equal. *)
Definition passes_to_interrupt (s : state) : Z :=
  let d := wrap32 (tmr_cmp_reg s - tmr_val_reg s) in
  if d =? 0 then UINT32_MOD else d.

(** *** Interrupts serviced at their tick *)

(** One pass of the counter thread, the handler it starts running to
    completion before anything else happens. *)
Definition serviced_pass (s : state) : state :=
  let r := hw_timer_thread_pass (fun _ => 1) (mk_process s NULL true) in
  if pass_isr r then timer_interrupt (globals (pass_process r))
  else globals (pass_process r).

Definition serviced_passes (k : nat) (s : state) : state :=
  Nat.iter k serviced_pass s.

(** What happens between quiescent points when every interrupt is serviced
    at its tick: a call from the menu, or a pass of the counter thread. *)
Inductive sys_op : Type :=
  | SysSetTimer (timer_id wait : Z)
  | SysRemoveTimer (timer_id : Z)
  | SysPass.

Definition sys_step (o : sys_op) (s : state) : state :=
  match o with
  | SysSetTimer timer_id wait => fst (set_timer timer_id wait s)
  | SysRemoveTimer timer_id => fst (remove_timer timer_id s)
  | SysPass => serviced_pass s
  end.

Definition sys_run (ops : list sys_op) (s : state) : state :=
  fold_left (fun acc o => sys_step o acc) ops s.

Definition sys_op_ok (o : sys_op) : Prop :=
  match o with
  | SysSetTimer timer_id wait => 0 <= timer_id < 256 /\ is_uint32 wait
  | SysRemoveTimer timer_id => 0 <= timer_id < 256
  | SysPass => True
  end.

(** Ticks since the baseline, and the offset of the compare register from
    the baseline. *)
Definition elapsed (s : state) : Z :=
  wrap32 (tmr_val_reg s - last_update_timer_value s).

Definition armed_offset (s : state) : Z :=
  wrap32 (tmr_cmp_reg s - last_update_timer_value s).

(** While a timer is active the compare register is ahead of the counter
    and not later than any active deadline. *)
Definition on_schedule (s : state) : Prop :=
  (exists j, (j < TMR_NUM)%nat /\ active (slot s j)) ->
  elapsed s < armed_offset s
  /\ forall j, (j < TMR_NUM)%nat -> active (slot s j) ->
       armed_offset s <= remain (slot s j).

(** The tick at which slot [j] is due: baseline plus [remain]. *)
Definition deadline (s : state) (j : nat) : Z :=
  wrap32 (last_update_timer_value s + remain (slot s j)).

(** How late the handler runs: the ticks between the deadline it serves,
    baseline plus minimum, and the counter. *)
Definition latency (s : state) : Z :=
  wrap32 (tmr_val_reg s - last_update_timer_value s - find_minimal_remain s).

(** The source's comment on the table: "For inactive timer entries:
    wait_us==0, remain==0". *)
Definition inactive_zeroed (s : state) : Prop :=
  forall j, (j < TMR_NUM)%nat -> ~ active (slot s j) -> slot s j = timer_zero.

(** [o] names slot [j]. *)
Definition names (j : nat) (o : op) : bool :=
  match o with
  | OpSetTimer timer_id _ | OpRemoveTimer timer_id => timer_id =? Z.of_nat j
  | _ => false
  end.

(** Two timers installed fifty ticks apart and run for a hundred more
    passes, with a removal and an install of period 0 on the way. *)
Definition serviced_ops : list sys_op :=
  SysSetTimer 0 100 :: replicate 50 SysPass
  ++ SysSetTimer 1 30 :: replicate 60 SysPass
  ++ SysRemoveTimer 0 :: SysSetTimer 4 0 :: replicate 40 SysPass.

(** The state of a timer of period [P] alone in slot [id], [k] ticks after
    its install at tick [t] on the table of [s]: it has fired [k / P]
    times and is next due at tick [t + P * (k / P + 1)]. *)
Definition lone_timer (id : nat) (P t : Z) (s : state) (k : Z) (x : state)
    : Prop :=
  wf_state x
  /\ slot x id = mk_timer_data P P (wrap32 (k / P))
  /\ (forall j, (j < TMR_NUM)%nat -> j <> id -> slot x j = slot s j)
  /\ tmr_val_reg x = wrap32 (t + k)
  /\ last_update_timer_value x = wrap32 (t + P * (k / P))
  /\ tmr_cmp_reg x = wrap32 (t + P * (k / P + 1)).

(** The empty table with the counter five ticks before it wraps. *)
Definition late_clock_state : state :=
  mk_state (replicate TMR_NUM timer_zero) 0 4294967291 0 0.

(** [sample_state] with another timer in slot 2. *)
Definition sample_state_alt : state :=
  mk_state
    [ mk_timer_data 100 70 2; mk_timer_data 30 30 7; mk_timer_data 9 4 1;
      mk_timer_data 50 30 0; timer_zero; mk_timer_data 40 35 1; timer_zero;
      timer_zero; timer_zero; timer_zero ]
    1000 1010 1030 1.

(** [printf("Firing timer id = %d\n", i)]: the line printed. *)
Definition msg_firing (i : nat) : string :=
  ("Firing timer id = "
   ++ NilZero.string_of_uint (Nat.to_uint i) ++ newline)%string.

(** The slot is active and the handler's [remain -= min_remain] brings its
    [remain] to 0. *)
Definition fires (min_remain : Z) (t : timer_data_t) : bool :=
  negb (wait_us t =? 0) && (wrap32 (remain t - min_remain) =? 0).

(** The indices of the slots that fire in a run of the handler on [s], in
    increasing order. *)
Definition firing_ids (s : state) : list nat :=
  List.filter (fun i => fires (find_minimal_remain s) (slot s i))
    (seq 0 TMR_NUM).

(** An install, a tick, the handler and a removal, none naming slot 0. *)
Definition other_ops : list op :=
  [OpSetTimer 1 30; OpTick; OpInterrupt; OpRemoveTimer 3; OpSetTimer 12 5].

(** Two timers at tick 1010: timer 1 is due at tick 1020, for which the
    compare register is armed, timer 0 at tick 1070. *)
Definition two_timer_state : state :=
  mk_state
    [ mk_timer_data 100 70 2; mk_timer_data 30 20 7; timer_zero; timer_zero;
      timer_zero; timer_zero; timer_zero; timer_zero; timer_zero; timer_zero ]
    1000 1010 1020 1.

(** * Part II: facts about the embedding *)

(** ** Basic facts *)

Lemma uint32b_spec z : uint32b z = true <-> is_uint32 z.
Proof.
  unfold uint32b, is_uint32.
  rewrite andb_true_iff, Z.leb_le, Z.ltb_lt. tauto.
Qed.

Lemma wrap32_range z : is_uint32 (wrap32 z).
Proof. unfold is_uint32, wrap32, UINT32_MOD. apply Z.mod_pos_bound. lia. Qed.

Lemma wrap32_small z : is_uint32 z -> wrap32 z = z.
Proof. unfold is_uint32, wrap32. intros H. apply Z.mod_small. exact H. Qed.

Lemma wf_timerb_spec t : wf_timerb t = true <-> wf_timer t.
Proof.
  unfold wf_timerb, wf_timer.
  rewrite !andb_true_iff, !uint32b_spec. tauto.
Qed.

Lemma slot_lookup s i t : timer_data s !! i = Some t -> slot s i = t.
Proof. unfold slot. intros H. by rewrite (list_lookup_total_correct _ _ _ H). Qed.

Lemma lookup_slot s i :
  (i < length (timer_data s))%nat -> timer_data s !! i = Some (slot s i).
Proof. unfold slot. intros H. by apply list_lookup_lookup_total_lt. Qed.

Lemma wf_state_spec s :
  wf_state s <->
  length (timer_data s) = TMR_NUM
  /\ (forall i, (i < TMR_NUM)%nat -> wf_timer (slot s i))
  /\ is_uint32 (last_update_timer_value s)
  /\ is_uint32 (tmr_val_reg s)
  /\ is_uint32 (tmr_cmp_reg s)
  /\ is_uint32 (tmr_clr_reg s).
Proof.
  unfold wf_state, wf_stateb.
  rewrite !andb_true_iff, !uint32b_spec, Nat.eqb_eq, forallb_forall.
  split.
  - intros [[[[[Hlen Hall] ?] ?] ?] ?].
    split; [done|]. split; [|done].
    intros i Hi. apply wf_timerb_spec, Hall, list_elem_of_In.
    apply list_elem_of_lookup. exists i. apply lookup_slot. lia.
  - intros (Hlen & Hall & ? & ? & ? & ?).
    split; [|done]. split; [|done]. split; [|done]. split; [|done].
    split; [done|]. intros t Ht. apply list_elem_of_In, list_elem_of_lookup in Ht as [i Hi].
    apply wf_timerb_spec. rewrite <- (slot_lookup _ _ _ Hi).
    apply Hall. rewrite <- Hlen. by eapply lookup_lt_Some.
Qed.

Lemma wf_state_length s : wf_state s -> length (timer_data s) = TMR_NUM.
Proof. intros H. by apply wf_state_spec in H as [? _]. Qed.

Lemma wf_state_slot s i :
  wf_state s -> (i < TMR_NUM)%nat -> wf_timer (slot s i).
Proof. intros H. apply wf_state_spec in H as (_ & H & _). apply H. Qed.

(** *** Loops *)

Lemma for_loop_S {A} n (body : nat -> A -> A) a :
  for_loop (S n) body a = body n (for_loop n body a).
Proof. unfold for_loop. by rewrite seq_S, fold_left_app. Qed.

(** Loop invariant rule: [P i] holds before iteration [i]. *)
Lemma for_loop_inv {A} (P : nat -> A -> Prop) n (body : nat -> A -> A) a :
  P 0%nat a ->
  (forall i x, (i < n)%nat -> P i x -> P (S i) (body i x)) ->
  P n (for_loop n body a).
Proof.
  intros H0 Hstep. induction n as [|n IH].
  - exact H0.
  - rewrite for_loop_S. apply Hstep; [lia|]. apply IH.
    intros i x Hi. apply Hstep. lia.
Qed.

(** *** Stores and reads *)

Lemma alter_out_of_range {A} (f : A -> A) (l : list A) i :
  (length l <= i)%nat -> alter f i l = l.
Proof.
  intros Hi. apply list_eq. intros j. rewrite list_lookup_alter.
  case_decide as Hij; [|done]. subst j.
  by rewrite (lookup_ge_None_2 l i Hi).
Qed.

Lemma slot_store_slot i f s j :
  (i < length (timer_data s))%nat ->
  slot (store_slot i f s) j =
  if decide (i = j) then f (slot s j) else slot s j.
Proof.
  intros Hlt. unfold slot, store_slot. simpl. case_decide as Hij.
  - subst j. by rewrite list_lookup_total_alter_eq.
  - by rewrite list_lookup_total_alter_ne.
Qed.

Lemma slot_store_clr_reg v s j : slot (store_clr_reg v s) j = slot s j.
Proof. reflexivity. Qed.

Lemma slot_store_cmp_reg v s j : slot (store_cmp_reg v s) j = slot s j.
Proof. reflexivity. Qed.

Lemma slot_store_last_update v s j : slot (store_last_update v s) j = slot s j.
Proof. reflexivity. Qed.

Lemma length_store_slot i f s :
  length (timer_data (store_slot i f s)) = length (timer_data s).
Proof. unfold store_slot. simpl. apply length_alter. Qed.

(** Two states with the same scalars and the same slots are equal. *)
Lemma state_ext s1 s2 :
  length (timer_data s1) = length (timer_data s2) ->
  (forall i, (i < length (timer_data s1))%nat -> slot s1 i = slot s2 i) ->
  last_update_timer_value s1 = last_update_timer_value s2 ->
  tmr_val_reg s1 = tmr_val_reg s2 ->
  tmr_cmp_reg s1 = tmr_cmp_reg s2 ->
  tmr_clr_reg s1 = tmr_clr_reg s2 ->
  s1 = s2.
Proof.
  destruct s1 as [l1 a1 b1 c1 d1], s2 as [l2 a2 b2 c2 d2]. simpl.
  intros Hlen Hslots -> -> -> ->. f_equal.
  apply list_eq. intros i.
  destruct (decide (i < length l1)%nat) as [Hlt|Hge].
  - specialize (Hslots i Hlt). unfold slot in Hslots. simpl in Hslots.
    rewrite (list_lookup_lookup_total_lt l1 i Hlt).
    rewrite (list_lookup_lookup_total_lt l2 i) by lia.
    by f_equal.
  - rewrite !lookup_ge_None_2 by lia. done.
Qed.

(** A store that rewrites a slot with what it already holds does nothing. *)
Lemma store_slot_same i f s :
  f (slot s i) = slot s i -> store_slot i f s = s.
Proof.
  intros Hf. apply state_ext; try done.
  - apply length_store_slot.
  - intros j Hj. rewrite length_store_slot in Hj.
    destruct (decide (i < length (timer_data s))%nat) as [Hlt|Hge].
    + rewrite slot_store_slot by done. case_decide; by subst.
    + unfold slot, store_slot. simpl. by rewrite alter_out_of_range by lia.
Qed.

(** Two stores to the same slot are one store. *)
Lemma store_slot_twice i f g s :
  store_slot i f (store_slot i g s) = store_slot i (f ∘ g) s.
Proof. unfold store_slot. simpl. f_equal. apply list_alter_alter_eq. Qed.

(** A store only depends on what the function does to the stored slot. *)
Lemma store_slot_ext i f g s :
  f (slot s i) = g (slot s i) -> store_slot i f s = store_slot i g s.
Proof.
  intros Hfg. apply state_ext; try done.
  - by rewrite !length_store_slot.
  - intros j Hj. rewrite length_store_slot in Hj.
    destruct (decide (i < length (timer_data s))%nat) as [Hlt|Hge].
    + rewrite !slot_store_slot by done. case_decide; by subst.
    + unfold slot, store_slot. simpl. by rewrite !alter_out_of_range by lia.
Qed.

(** A loop whose iteration [i] rewrites slot [i] by [g i] maps [g] over the
    first [n] slots and leaves everything else alone. *)
Lemma table_loop_spec n (g : nat -> timer_data_t -> timer_data_t) body s :
  (forall i x, (i < length (timer_data x))%nat ->
     body i x = store_slot i (g i) x) ->
  (n <= length (timer_data s))%nat ->
  let s' := for_loop n body s in
  length (timer_data s') = length (timer_data s)
  /\ (forall j, slot s' j = if decide (j < n)%nat then g j (slot s j)
                           else slot s j)
  /\ last_update_timer_value s' = last_update_timer_value s
  /\ tmr_val_reg s' = tmr_val_reg s
  /\ tmr_cmp_reg s' = tmr_cmp_reg s
  /\ tmr_clr_reg s' = tmr_clr_reg s.
Proof.
  intros Hbody Hn. simpl.
  refine (for_loop_inv (fun k x =>
    length (timer_data x) = length (timer_data s)
    /\ (forall j, slot x j = if decide (j < k)%nat then g j (slot s j)
                            else slot s j)
    /\ last_update_timer_value x = last_update_timer_value s
    /\ tmr_val_reg x = tmr_val_reg s
    /\ tmr_cmp_reg x = tmr_cmp_reg s
    /\ tmr_clr_reg x = tmr_clr_reg s) n body s _ _).
  - split; [done|]. split; [|done]. intros j. by case_decide; [lia|].
  - intros i x Hi (Hlen & Hslots & ? & ? & ? & ?).
    rewrite Hbody by lia.
    split; [by rewrite length_store_slot|]. split; [|done].
    intros j. rewrite slot_store_slot by lia.
    specialize (Hslots j).
    repeat case_decide; subst; try lia; try done.
    by rewrite Hslots.
Qed.

(** ** The scan for the minimum *)

Lemma find_minimal_remain_spec s :
  let m := find_minimal_remain s in
  m <= UINT32_MAX
  /\ (forall j, (j < TMR_NUM)%nat -> active (slot s j) -> m <= remain (slot s j))
  /\ ((m = UINT32_MAX /\ forall j, (j < TMR_NUM)%nat -> active (slot s j) ->
                          UINT32_MAX <= remain (slot s j))
      \/ exists j, (j < TMR_NUM)%nat /\ active (slot s j) /\ remain (slot s j) = m).
Proof.
  simpl. unfold find_minimal_remain.
  refine (for_loop_inv (fun k m =>
    m <= UINT32_MAX
    /\ (forall j, (j < k)%nat -> active (slot s j) -> m <= remain (slot s j))
    /\ ((m = UINT32_MAX /\ forall j, (j < k)%nat -> active (slot s j) ->
                            UINT32_MAX <= remain (slot s j))
        \/ exists j, (j < k)%nat /\ active (slot s j) /\ remain (slot s j) = m))
    TMR_NUM _ UINT32_MAX _ _).
  - split; [lia|]. split; [intros; lia|]. left. split; [done|]. intros; lia.
  - intros i m Hi (Hmax & Hle & Hatt). unfold active in *.
    destruct (Z.eqb_spec (wait_us (slot s i)) 0) as [Hz|Hnz].
    + split; [done|]. split.
      * intros j Hj Hact. destruct (decide (j = i)) as [->|]; [done|].
        apply Hle; [lia|done].
      * destruct Hatt as [[-> Hall]|(j & ? & ? & ?)].
        -- left. split; [done|]. intros j Hj Hact.
           destruct (decide (j = i)) as [->|]; [done|]. apply Hall; [lia|done].
        -- right. exists j. split; [lia|done].
    + destruct (Z.ltb_spec (remain (slot s i)) m) as [Hlt|Hge].
      * split; [lia|]. split.
        -- intros j Hj Hact. destruct (decide (j = i)) as [->|]; [lia|].
           specialize (Hle j). lia.
        -- right. exists i. split; [lia|done].
      * split; [done|]. split.
        -- intros j Hj Hact. destruct (decide (j = i)) as [->|]; [lia|].
           apply Hle; [lia|done].
        -- destruct Hatt as [[-> Hall]|(j & ? & ? & ?)].
           ++ left. split; [done|]. intros j Hj Hact.
              destruct (decide (j = i)) as [->|]; [done|]. apply Hall; [lia|done].
           ++ right. exists j. split; [lia|done].
Qed.

(** With no active slot the scan returns its initial value. *)
Lemma find_minimal_remain_none s :
  none_active s -> find_minimal_remain s = UINT32_MAX.
Proof.
  intros Hnone.
  destruct (find_minimal_remain_spec s) as (_ & _ & [[H _]|(j & Hj & Hact & _)]).
  - exact H.
  - destruct (Hnone j Hj Hact).
Qed.

(** With an active slot, and [uint32] contents, the scan returns the least
    [remain] of the active slots. *)
Lemma find_minimal_remain_min s :
  wf_state s ->
  (exists j, (j < TMR_NUM)%nat /\ active (slot s j)) ->
  is_min_remaining s (find_minimal_remain s).
Proof.
  intros Hwf (j & Hj & Hact).
  destruct (find_minimal_remain_spec s) as (Hmax & Hle & Hatt).
  split; [|exact Hle].
  destruct Hatt as [[Hm Hall]|Hex]; [|exact Hex].
  exists j. split; [done|]. split; [done|].
  pose proof (wf_state_slot s j Hwf Hj) as (_ & Hr & _).
  specialize (Hall j Hj Hact). unfold is_uint32, UINT32_MOD, UINT32_MAX in *.
  lia.
Qed.

(** The scan reads the table only. *)
Lemma find_minimal_remain_ext s1 s2 :
  (forall j, (j < TMR_NUM)%nat -> slot s1 j = slot s2 j) ->
  find_minimal_remain s1 = find_minimal_remain s2.
Proof.
  intros Heq. unfold find_minimal_remain.
  refine (for_loop_inv (fun k m =>
    m = for_loop k (fun i minimal_rem =>
       if wait_us (slot s2 i) =? 0 then minimal_rem
       else if remain (slot s2 i) <? minimal_rem then remain (slot s2 i)
            else minimal_rem) UINT32_MAX) TMR_NUM _ UINT32_MAX _ _).
  - done.
  - intros i m Hi ->. rewrite for_loop_S. by rewrite (Heq i Hi).
Qed.

Lemma find_minimal_remain_store_last_update v s :
  find_minimal_remain (store_last_update v s) = find_minimal_remain s.
Proof. apply find_minimal_remain_ext. intros j _. reflexivity. Qed.

Lemma find_minimal_remain_store_cmp_reg v s :
  find_minimal_remain (store_cmp_reg v s) = find_minimal_remain s.
Proof. apply find_minimal_remain_ext. intros j _. reflexivity. Qed.

Lemma find_minimal_remain_store_clr_reg v s :
  find_minimal_remain (store_clr_reg v s) = find_minimal_remain s.
Proof. apply find_minimal_remain_ext. intros j _. reflexivity. Qed.

Lemma rebase_body timer_id time_diff i x :
  (if timer_id =? Z.of_nat i then x
   else if wait_us (slot x i) =? 0 then x
   else store_remain i (wrap32 (remain (slot x i) - time_diff)) x)
  = store_slot i (rebase_slot timer_id time_diff i) x.
Proof.
  unfold rebase_slot.
  destruct (timer_id =? Z.of_nat i) eqn:Hid.
  - symmetry. by apply store_slot_same.
  - destruct (wait_us (slot x i) =? 0) eqn:Hw.
    + symmetry. apply store_slot_same. cbv beta. by rewrite Hw.
    + unfold store_remain. apply store_slot_ext. cbv beta. by rewrite Hw.
Qed.

Lemma advance_body min_remain i x :
  (i < length (timer_data x))%nat ->
  (if wait_us (slot x i) =? 0 then x
   else
     let s := store_remain i (wrap32 (remain (slot x i) - min_remain)) x in
     if remain (slot s i) =? 0 then
       let s := store_remain i (wait_us (slot s i)) s in
       store_times_fired i (wrap32 (times_fired (slot s i) + 1)) s
     else s)
  = store_slot i (advance_slot min_remain) x.
Proof.
  intros Hi. unfold advance_slot.
  destruct (wait_us (slot x i) =? 0) eqn:Hw.
  - symmetry. apply store_slot_same. cbv beta. by rewrite Hw.
  - cbv zeta. unfold store_remain, store_times_fired.
    rewrite !slot_store_slot by (rewrite ?length_store_slot; lia).
    rewrite !decide_True by done. cbn [wait_us remain times_fired].
    destruct (wrap32 (remain (slot x i) - min_remain) =? 0) eqn:Hr.
    + rewrite !store_slot_twice. apply store_slot_ext.
      cbn. by rewrite Hw, Hr.
    + apply store_slot_ext. cbv beta. by rewrite Hw, Hr.
Qed.

(** The advance loop of [timer_interrupt]. *)
Lemma advance_loop_spec min_remain s :
  length (timer_data s) = TMR_NUM ->
  let s' :=
    for_loop TMR_NUM
      (fun i s =>
         if wait_us (slot s i) =? 0 then s
         else
           let s := store_remain i (wrap32 (remain (slot s i) - min_remain)) s in
           if remain (slot s i) =? 0 then
             let s := store_remain i (wait_us (slot s i)) s in
             store_times_fired i (wrap32 (times_fired (slot s i) + 1)) s
           else s) s in
  length (timer_data s') = TMR_NUM
  /\ (forall j, (j < TMR_NUM)%nat ->
       slot s' j = advance_slot min_remain (slot s j))
  /\ last_update_timer_value s' = last_update_timer_value s
  /\ tmr_val_reg s' = tmr_val_reg s
  /\ tmr_cmp_reg s' = tmr_cmp_reg s
  /\ tmr_clr_reg s' = tmr_clr_reg s.
Proof.
  intros Hlen.
  epose proof (table_loop_spec TMR_NUM (fun _ => advance_slot min_remain) _ s
                 (fun i x Hi => advance_body min_remain i x Hi)
                 ltac:(lia)) as (Hl & Hs & Hrest).
  intros s'. subst s'. split; [by rewrite Hl|]. split; [|exact Hrest].
  intros j Hj. rewrite Hs. by rewrite decide_True.
Qed.

(** The rebase loop of [set_timer]. *)
Lemma rebase_loop_spec timer_id time_diff s :
  length (timer_data s) = TMR_NUM ->
  let s' :=
    for_loop TMR_NUM
      (fun i s =>
         if timer_id =? Z.of_nat i then s
         else if wait_us (slot s i) =? 0 then s
         else store_remain i (wrap32 (remain (slot s i) - time_diff)) s) s in
  length (timer_data s') = TMR_NUM
  /\ (forall j, (j < TMR_NUM)%nat ->
       slot s' j = rebase_slot timer_id time_diff j (slot s j))
  /\ last_update_timer_value s' = last_update_timer_value s
  /\ tmr_val_reg s' = tmr_val_reg s
  /\ tmr_cmp_reg s' = tmr_cmp_reg s
  /\ tmr_clr_reg s' = tmr_clr_reg s.
Proof.
  intros Hlen.
  epose proof (table_loop_spec TMR_NUM (rebase_slot timer_id time_diff) _ s
                 (fun i x _ => rebase_body timer_id time_diff i x)
                 ltac:(lia)) as (Hl & Hs & Hrest).
  intros s'. subst s'. split; [by rewrite Hl|]. split; [|exact Hrest].
  intros j Hj. rewrite Hs. by rewrite decide_True.
Qed.

(** ** The operations, slot by slot *)

Lemma timer_interrupt_spec s :
  length (timer_data s) = TMR_NUM ->
  let s' := timer_interrupt s in
  length (timer_data s') = TMR_NUM
  /\ (forall j, (j < TMR_NUM)%nat ->
       slot s' j = advance_slot (find_minimal_remain s) (slot s j))
  /\ last_update_timer_value s' = tmr_val_reg s
  /\ tmr_val_reg s' = tmr_val_reg s
  /\ tmr_cmp_reg s' = wrap32 (tmr_val_reg s + find_minimal_remain s')
  /\ tmr_clr_reg s' = 1.
Proof.
  intros Hlen s'.
  pose proof (advance_loop_spec (find_minimal_remain s) s Hlen) as H.
  subst s'. unfold timer_interrupt.
  set (sl := for_loop TMR_NUM _ s) in *. clearbody sl. cbv zeta in *.
  destruct H as (Hl & Hs & Hlast & Hval & Hcmp & Hclr).
  split; [exact Hl|]. split.
  { intros j Hj.
    rewrite slot_store_clr_reg, slot_store_cmp_reg, slot_store_last_update.
    by apply Hs. }
  cbn [store_clr_reg store_cmp_reg store_last_update last_update_timer_value
       tmr_val_reg tmr_cmp_reg tmr_clr_reg].
  rewrite Hval. split; [reflexivity|]. split; [reflexivity|].
  split; [|reflexivity].
  by rewrite find_minimal_remain_store_clr_reg,
    find_minimal_remain_store_cmp_reg.
Qed.

Lemma set_timer_spec timer_id wait s :
  0 <= timer_id < Z.of_nat TMR_NUM ->
  length (timer_data s) = TMR_NUM ->
  let s' := fst (set_timer timer_id wait s) in
  let time_diff := wrap32 (tmr_val_reg s - last_update_timer_value s) in
  snd (set_timer timer_id wait s) = []
  /\ length (timer_data s') = TMR_NUM
  /\ (forall j, (j < TMR_NUM)%nat ->
       slot s' j = if decide (j = Z.to_nat timer_id) then installed_slot wait
                   else rebase_slot timer_id time_diff j (slot s j))
  /\ last_update_timer_value s' = tmr_val_reg s
  /\ tmr_val_reg s' = tmr_val_reg s
  /\ tmr_cmp_reg s' = wrap32 (tmr_val_reg s + find_minimal_remain s')
  /\ tmr_clr_reg s' = tmr_clr_reg s.
Proof.
  intros Hid Hlen s' time_diff. subst s'. unfold set_timer.
  destruct (Z.geb_spec timer_id (Z.of_nat TMR_NUM)) as [Hge|_]; [lia|].
  cbv zeta. cbn [fst snd].
  set (s1 := store_times_fired _ 0 (store_remain _ wait (store_wait_us _ wait s))).
  change (tmr_val_reg s1) with (tmr_val_reg s).
  change (last_update_timer_value s1) with (last_update_timer_value s).
  fold time_diff.
  assert (Hlen1 : length (timer_data s1) = TMR_NUM).
  { subst s1. unfold store_times_fired, store_remain, store_wait_us.
    by rewrite !length_store_slot. }
  assert (Hslot1 : forall j, slot s1 j =
            if decide (Z.to_nat timer_id = j) then installed_slot wait
            else slot s j).
  { intros j. subst s1. unfold store_times_fired, store_remain, store_wait_us.
    rewrite !store_slot_twice, slot_store_slot by lia.
    by case_decide. }
  assert (Hval1 : tmr_val_reg s1 = tmr_val_reg s) by reflexivity.
  assert (Hclr1 : tmr_clr_reg s1 = tmr_clr_reg s) by reflexivity.
  clearbody s1.
  pose proof (rebase_loop_spec timer_id time_diff s1 Hlen1) as H.
  set (sl := for_loop TMR_NUM _ s1) in *. clearbody sl. cbv zeta in *.
  destruct H as (Hl & Hs & Hlast & Hval & Hcmp & Hclr).
  split; [reflexivity|]. split; [exact Hl|]. split.
  - intros j Hj.
    rewrite slot_store_cmp_reg, slot_store_last_update.
    rewrite Hs, Hslot1 by done.
    case_decide as Hd; subst.
    + rewrite decide_True by done. unfold rebase_slot.
      destruct (Z.eqb_spec timer_id (Z.of_nat (Z.to_nat timer_id))); [done|lia].
    + by rewrite decide_False by done.
  - cbn [store_cmp_reg store_last_update last_update_timer_value
         tmr_val_reg tmr_cmp_reg tmr_clr_reg].
    rewrite Hclr, Hclr1.
    split; [reflexivity|]. split; [by rewrite Hval|].
    split; [|reflexivity].
    by rewrite find_minimal_remain_store_cmp_reg.
Qed.

Lemma remove_timer_active timer_id s :
  0 <= timer_id < Z.of_nat TMR_NUM ->
  active (slot s (Z.to_nat timer_id)) ->
  remove_timer timer_id s
  = (store_slot (Z.to_nat timer_id) (fun _ => timer_zero) s, []).
Proof.
  intros Hid Hact. unfold remove_timer.
  destruct (Z.geb_spec timer_id (Z.of_nat TMR_NUM)) as [Hge|_]; [lia|].
  destruct (Z.eqb_spec (wait_us (slot s (Z.to_nat timer_id))) 0) as [Hz|_].
  - destruct (Hact Hz).
  - cbv zeta. f_equal.
    unfold store_times_fired, store_remain, store_wait_us.
    by rewrite !store_slot_twice.
Qed.

Lemma remove_timer_inactive timer_id s :
  0 <= timer_id < Z.of_nat TMR_NUM ->
  ~ active (slot s (Z.to_nat timer_id)) ->
  remove_timer timer_id s = (s, [msg_already_inactive]).
Proof.
  intros Hid Hact. unfold remove_timer, active in *.
  destruct (Z.geb_spec timer_id (Z.of_nat TMR_NUM)) as [Hge|_]; [lia|].
  destruct (Z.eqb_spec (wait_us (slot s (Z.to_nat timer_id))) 0) as [_|Hnz].
  - done.
  - destruct (Hact Hnz).
Qed.

Lemma remove_timer_invalid timer_id s :
  Z.of_nat TMR_NUM <= timer_id ->
  remove_timer timer_id s = (s, [msg_id_exceeds_limit]).
Proof.
  intros Hid. unfold remove_timer.
  destruct (Z.geb_spec timer_id (Z.of_nat TMR_NUM)) as [_|Hlt]; [done|lia].
Qed.

Lemma set_timer_invalid timer_id wait s :
  Z.of_nat TMR_NUM <= timer_id ->
  set_timer timer_id wait s = (s, [msg_id_exceeds_limit]).
Proof.
  intros Hid. unfold set_timer.
  destruct (Z.geb_spec timer_id (Z.of_nat TMR_NUM)) as [_|Hlt]; [done|lia].
Qed.

(** ** Well-formedness is preserved *)

Lemma wf_timer_zero : wf_timer timer_zero.
Proof. unfold wf_timer, is_uint32, UINT32_MOD. simpl. lia. Qed.

Lemma wf_advance_slot m t : wf_timer t -> wf_timer (advance_slot m t).
Proof.
  intros (Hw & Hr & Hf). unfold advance_slot.
  destruct (wait_us t =? 0); [done|].
  destruct (wrap32 (remain t - m) =? 0).
  - split; [done|]. split; [done|]. apply wrap32_range.
  - split; [done|]. split; [apply wrap32_range|done].
Qed.

Lemma wf_rebase_slot id d i t : wf_timer t -> wf_timer (rebase_slot id d i t).
Proof.
  intros (Hw & Hr & Hf). unfold rebase_slot.
  destruct (id =? Z.of_nat i); [done|].
  destruct (wait_us t =? 0); [done|].
  split; [done|]. split; [apply wrap32_range|done].
Qed.

Lemma wf_timer_interrupt s : wf_state s -> wf_state (timer_interrupt s).
Proof.
  intros Hwf. pose proof Hwf as Hwf'.
  apply wf_state_spec in Hwf' as (Hlen & Hslots & Hlast & Hval & Hcmp & Hclr).
  destruct (timer_interrupt_spec s Hlen) as (Hl & Hs & Hla & Hv & Hc & Hcl).
  apply wf_state_spec. split; [done|]. split.
  - intros i Hi. rewrite Hs by done. by apply wf_advance_slot, Hslots.
  - rewrite Hla, Hv, Hc, Hcl. split; [done|]. split; [done|].
    split; [apply wrap32_range|]. unfold is_uint32, UINT32_MOD. lia.
Qed.

Lemma wf_set_timer timer_id wait s :
  0 <= timer_id -> is_uint32 wait ->
  wf_state s -> wf_state (fst (set_timer timer_id wait s)).
Proof.
  intros Hid Hwait Hwf.
  destruct (Z.le_gt_cases (Z.of_nat TMR_NUM) timer_id) as [Hge|Hlt].
  { by rewrite set_timer_invalid. }
  pose proof Hwf as Hwf'.
  apply wf_state_spec in Hwf' as (Hlen & Hslots & Hlast & Hval & Hcmp & Hclr).
  destruct (set_timer_spec timer_id wait s (conj Hid Hlt) Hlen)
    as (_ & Hl & Hs & Hla & Hv & Hc & Hcl).
  apply wf_state_spec. split; [done|]. split.
  - intros i Hi. rewrite Hs by done. case_decide.
    + split; [done|]. split; [done|]. unfold is_uint32, UINT32_MOD. simpl. lia.
    + by apply wf_rebase_slot, Hslots.
  - rewrite Hla, Hv, Hc, Hcl. split; [done|]. split; [done|].
    split; [apply wrap32_range|done].
Qed.

Lemma wf_remove_timer timer_id s :
  0 <= timer_id -> wf_state s -> wf_state (fst (remove_timer timer_id s)).
Proof.
  intros Hid Hwf.
  destruct (Z.le_gt_cases (Z.of_nat TMR_NUM) timer_id) as [Hge|Hlt].
  { by rewrite remove_timer_invalid. }
  destruct (decide (wait_us (slot s (Z.to_nat timer_id)) = 0)) as [Hz|Hnz].
  { rewrite remove_timer_inactive; [done|lia|]. unfold active. lia. }
  rewrite remove_timer_active; [|lia|done]. simpl.
  pose proof Hwf as Hwf'.
  apply wf_state_spec in Hwf' as (Hlen & Hslots & Hrest).
  apply wf_state_spec. split; [by rewrite length_store_slot|].
  split; [|exact Hrest].
  intros i Hi. rewrite slot_store_slot by lia.
  case_decide; [apply wf_timer_zero|by apply Hslots].
Qed.

Lemma wf_hw_tick s : wf_state s -> wf_state (hw_tick s).
Proof.
  intros Hwf.
  apply wf_state_spec in Hwf as (Hlen & Hslots & Hlast & Hval & Hcmp & Hclr).
  apply wf_state_spec. unfold hw_tick. simpl.
  split; [done|]. split; [exact Hslots|]. split; [done|].
  split; [apply wrap32_range|done].
Qed.

Lemma wf_initial_state : wf_state initial_state.
Proof. reflexivity. Qed.

(** ** The advance, case by case *)

Lemma advance_slot_inactive m t : ~ active t -> advance_slot m t = t.
Proof.
  unfold active, advance_slot. intros Hna.
  destruct (Z.eqb_spec (wait_us t) 0); [done|tauto].
Qed.

Lemma advance_slot_fire m t :
  active t -> remain t = m ->
  advance_slot m t
  = mk_timer_data (wait_us t) (wait_us t) (wrap32 (times_fired t + 1)).
Proof.
  unfold active, advance_slot. intros Hact <-.
  destruct (Z.eqb_spec (wait_us t) 0); [done|].
  by rewrite Z.sub_diag.
Qed.

Lemma advance_slot_nofire m t :
  active t -> is_uint32 (remain t) -> 0 <= m <= remain t -> remain t <> m ->
  advance_slot m t = mk_timer_data (wait_us t) (remain t - m) (times_fired t)
  /\ 0 < remain t - m.
Proof.
  unfold active, advance_slot, is_uint32. intros Hact Hr Hm Hne.
  destruct (Z.eqb_spec (wait_us t) 0); [done|].
  rewrite wrap32_small by (unfold is_uint32; lia).
  destruct (Z.eqb_spec (remain t - m) 0); [lia|]. split; [done|lia].
Qed.

(** The minimum found by the scan is a [uint32] below every active
    [remain]. *)
Lemma find_minimal_remain_bounds s j :
  wf_state s -> (j < TMR_NUM)%nat -> active (slot s j) ->
  0 <= find_minimal_remain s <= remain (slot s j).
Proof.
  intros Hwf Hj Hact.
  destruct (find_minimal_remain_min s Hwf) as [(k & Hk & _ & Hrk) Hle].
  { by exists j. }
  split; [|by apply Hle].
  rewrite <- Hrk. by destruct (wf_state_slot s k Hwf Hk) as (_ & [? _] & _).
Qed.

(** ** The rebase, case by case *)

Lemma rebase_slot_active timer_id d j t :
  0 <= timer_id -> j <> Z.to_nat timer_id -> active t ->
  rebase_slot timer_id d j t
  = mk_timer_data (wait_us t) (wrap32 (remain t - d)) (times_fired t).
Proof.
  unfold active, rebase_slot. intros Hid Hj Hact.
  destruct (Z.eqb_spec timer_id (Z.of_nat j)); [lia|].
  destruct (Z.eqb_spec (wait_us t) 0); [done|done].
Qed.

Lemma rebase_slot_inactive timer_id d j t :
  ~ active t -> rebase_slot timer_id d j t = t.
Proof.
  unfold active, rebase_slot. intros Hna.
  destruct (timer_id =? Z.of_nat j); [done|].
  destruct (Z.eqb_spec (wait_us t) 0); [done|tauto].
Qed.

(** ** The theoretical variant against the executable one *)

Example theoretical_interrupt :
  Theoretical.timer_interrupt (erase [] sample_state)
  = erase [("Firing timer id = 1" ++ newline)%string;
           ("Firing timer id = 3" ++ newline)%string]
          (timer_interrupt sample_state).
Proof. vm_compute. reflexivity. Qed.

(** Two loops of the same length whose bodies preserve a relation end in
    related accumulators. *)
Lemma for_loop_rel {A B} (R : A -> B -> Prop) n
    (f : nat -> A -> A) (g : nat -> B -> B) a b :
  R a b ->
  (forall i x y, (i < n)%nat -> R x y -> R (f i x) (g i y)) ->
  R (for_loop n f a) (for_loop n g b).
Proof.
  intros Hab Hstep. induction n as [|n IH]; [exact Hab|].
  rewrite !for_loop_S. apply Hstep; [lia|]. apply IH.
  intros i x y Hi. apply Hstep. lia.
Qed.

Lemma slot_erase out s i :
  Theoretical.slot (erase out s) i = erase_slot (slot s i).
Proof.
  unfold Theoretical.slot, slot, erase. cbn [Theoretical.timer_data].
  destruct (decide (i < length (timer_data s))%nat) as [Hlt|Hge].
  - by apply list_lookup_total_fmap.
  - rewrite !list_lookup_total_alt, list_lookup_fmap.
    rewrite (lookup_ge_None_2 (timer_data s) i) by lia. reflexivity.
Qed.

Lemma erase_store_slot out i f g s :
  (forall t, erase_slot (f t) = g (erase_slot t)) ->
  erase out (store_slot i f s) = Theoretical.store_slot i g (erase out s).
Proof.
  intros Hfg. unfold erase, store_slot, Theoretical.store_slot. simpl.
  f_equal. apply list_fmap_alter. apply Forall_forall. intros t _. apply Hfg.
Qed.

Lemma erase_store_remain out i v s :
  erase out (store_remain i v s)
  = Theoretical.store_remain i v (erase out s).
Proof. by apply erase_store_slot. Qed.

Lemma erase_store_times_fired out i v s :
  erase out (store_times_fired i v s) = erase out s.
Proof.
  unfold store_times_fired.
  rewrite (erase_store_slot out i _ (fun t => t)) by done.
  unfold Theoretical.store_slot. rewrite list_alter_id by done.
  reflexivity.
Qed.

(** The theoretical scan is the executable one on the erased table. *)
Lemma erase_find_minimal_remain out s :
  Theoretical.find_minimal_remain (erase out s) = find_minimal_remain s.
Proof.
  unfold Theoretical.find_minimal_remain, find_minimal_remain.
  apply (for_loop_rel eq); [done|].
  intros i x y _ <-. by rewrite slot_erase.
Qed.

(** The two advance loops are in step. *)
Lemma erase_advance_loop m s :
  exists out,
    for_loop TMR_NUM
      (fun i s =>
         if Theoretical.wait_us (Theoretical.slot s i) =? 0 then s
         else
           let s :=
             Theoretical.store_remain i
               (wrap32 (Theoretical.remain (Theoretical.slot s i) - m)) s in
           if Theoretical.remain (Theoretical.slot s i) =? 0 then
             let s :=
               Theoretical.store_remain i
                 (Theoretical.wait_us (Theoretical.slot s i)) s in
             Theoretical.printf_firing i s
           else s)
      (erase [] s)
    = erase out
        (for_loop TMR_NUM
           (fun i s =>
              if wait_us (slot s i) =? 0 then s
              else
                let s := store_remain i (wrap32 (remain (slot s i) - m)) s in
                if remain (slot s i) =? 0 then
                  let s := store_remain i (wait_us (slot s i)) s in
                  store_times_fired i (wrap32 (times_fired (slot s i) + 1)) s
                else s)
           s).
Proof.
  apply (for_loop_rel (fun y x => exists out, y = erase out x)).
  { by exists []. }
  intros i y x _ [out ->].
  rewrite slot_erase. cbn [erase_slot Theoretical.wait_us Theoretical.remain].
  destruct (wait_us (slot x i) =? 0); [by exists out|].
  cbv zeta. rewrite <- erase_store_remain, slot_erase.
  cbn [erase_slot Theoretical.wait_us Theoretical.remain].
  destruct (remain (slot (store_remain i _ x) i) =? 0); [|by exists out].
  eexists. rewrite erase_store_times_fired, <- erase_store_remain.
  reflexivity.
Qed.

(** The two handlers end in step: baseline, compare register, clear. *)
Lemma erase_finish out le :
  let y :=
    Theoretical.store_last_update (Theoretical.tmr_val_reg (erase out le))
      (erase out le) in
  let x := store_last_update (tmr_val_reg le) le in
  Theoretical.store_int_clr_reg 1
    (Theoretical.store_cmp_reg
       (wrap32 (Theoretical.last_update_timer_value y
                + Theoretical.find_minimal_remain y)) y)
  = erase out
      (store_clr_reg 1
         (store_cmp_reg
            (wrap32 (last_update_timer_value x + find_minimal_remain x)) x)).
Proof.
  intros y x.
  assert (Hy : y = erase out x) by reflexivity.
  clearbody y. subst y.
  rewrite erase_find_minimal_remain. reflexivity.
Qed.

(** The theoretical handler is the executable one on the erased table. *)
Lemma erase_timer_interrupt s :
  exists out,
    Theoretical.timer_interrupt (erase [] s) = erase out (timer_interrupt s).
Proof.
  pose proof (erase_advance_loop (find_minimal_remain s) s) as H.
  unfold Theoretical.timer_interrupt, timer_interrupt.
  rewrite erase_find_minimal_remain.
  set (lt := for_loop TMR_NUM _ (erase [] s)) in *.
  set (le := for_loop TMR_NUM _ s) in *.
  clearbody lt le. cbv zeta in *. destruct H as [out ->]. exists out.
  apply erase_finish.
Qed.

(** Scenarios A, B and C of the specification, run from program start. *)
Example scenario_run :
  let sA := run [OpSetTimer 0 100; OpSetTimer 1 30] initial_state in
  let sB := run (replicate 30 OpTick ++ [OpInterrupt]) sA in
  let sC := step (OpRemoveTimer 1) sB in
  tmr_cmp_reg sA = 30
  /\ slot sB 0 = mk_timer_data 100 70 0
  /\ slot sB 1 = mk_timer_data 30 30 1
  /\ tmr_cmp_reg sB = 60
  /\ slot sC 1 = mk_timer_data 0 0 0
  /\ slot sC 0 = slot sB 0
  /\ tmr_cmp_reg sC = 60
  /\ sC = run scenario_ops initial_state.
Proof. vm_compute. repeat split. Qed.

(** ** The invariant, operation by operation *)

Lemma remaining_boundedb_spec s :
  length (timer_data s) = TMR_NUM ->
  remaining_boundedb s = true <-> remaining_bounded s.
Proof.
  intros Hlen. unfold remaining_boundedb, remaining_bounded, active.
  rewrite forallb_forall. split.
  - intros Hall j Hj Hact.
    assert (Hin : In (slot s j) (timer_data s)).
    { apply list_elem_of_In, list_elem_of_lookup. exists j.
      apply lookup_slot. lia. }
    specialize (Hall (slot s j) Hin).
    rewrite orb_true_iff, andb_true_iff, Z.eqb_eq, !Z.leb_le in Hall.
    destruct Hall as [Hz|Hb]; [done|done].
  - intros Hall t Ht.
    apply list_elem_of_In, list_elem_of_lookup in Ht as [j Hj].
    rewrite orb_true_iff, andb_true_iff, Z.eqb_eq, !Z.leb_le.
    destruct (decide (wait_us t = 0)) as [?|Hnz]; [by left|right].
    rewrite <- (slot_lookup _ _ _ Hj) in *.
    apply Hall; [|done]. rewrite <- Hlen. by eapply lookup_lt_Some.
Qed.

Lemma wf_step o s : op_ok o -> wf_state s -> wf_state (step o s).
Proof.
  destruct o as [timer_id wait|timer_id| |]; simpl.
  - intros [[? _] ?]. by apply wf_set_timer.
  - intros [? _]. by apply wf_remove_timer.
  - intros _. apply wf_timer_interrupt.
  - intros _. apply wf_hw_tick.
Qed.

Lemma remaining_bounded_timer_interrupt s :
  wf_state s -> remaining_bounded s -> remaining_bounded (timer_interrupt s).
Proof.
  intros Hwf Hinv j Hj.
  destruct (timer_interrupt_spec s (wf_state_length s Hwf)) as (_ & Hs & _).
  rewrite Hs by done.
  destruct (decide (wait_us (slot s j) = 0)) as [Hz|Hact].
  { rewrite advance_slot_inactive by (unfold active; lia).
    unfold active. lia. }
  intros _. specialize (Hinv j Hj Hact).
  destruct (wf_state_slot s j Hwf Hj) as (Hw & Hr & _).
  destruct (decide (remain (slot s j) = find_minimal_remain s)) as [Heq|Hne].
  - rewrite advance_slot_fire by done. unfold is_uint32 in Hw. simpl. lia.
  - pose proof (find_minimal_remain_bounds s j Hwf Hj Hact) as Hm.
    destruct (advance_slot_nofire _ _ Hact Hr Hm Hne) as [-> ?]. simpl. lia.
Qed.

Lemma remaining_bounded_remove_timer timer_id s :
  0 <= timer_id -> wf_state s -> remaining_bounded s ->
  remaining_bounded (fst (remove_timer timer_id s)).
Proof.
  intros Hid Hwf Hinv.
  destruct (Z.le_gt_cases (Z.of_nat TMR_NUM) timer_id) as [Hge|Hlt].
  { by rewrite remove_timer_invalid. }
  destruct (decide (wait_us (slot s (Z.to_nat timer_id)) = 0)) as [Hz|Hnz].
  { rewrite remove_timer_inactive; [done|lia|]. unfold active. lia. }
  rewrite remove_timer_active; [|lia|done]. cbn [fst].
  intros j Hj. rewrite slot_store_slot by (rewrite (wf_state_length s Hwf); lia).
  case_decide; [|by apply Hinv]. unfold active. simpl. lia.
Qed.

Lemma remaining_bounded_set_timer timer_id P s :
  0 <= timer_id -> is_uint32 P ->
  no_missed_deadline (OpSetTimer timer_id P) s ->
  wf_state s -> remaining_bounded s ->
  remaining_bounded (fst (set_timer timer_id P s)).
Proof.
  intros Hid HP Hontime Hwf Hinv.
  destruct (Z.le_gt_cases (Z.of_nat TMR_NUM) timer_id) as [Hge|Hlt].
  { by rewrite set_timer_invalid. }
  simpl in Hontime. specialize (Hontime Hlt).
  destruct (set_timer_spec timer_id P s (conj Hid Hlt) (wf_state_length s Hwf))
    as (_ & _ & Hs & _).
  intros j Hj. rewrite Hs by done. case_decide as Hd.
  { unfold is_uint32 in HP. simpl. lia. }
  destruct (decide (wait_us (slot s j) = 0)) as [Hz|Hact].
  { rewrite rebase_slot_inactive by (unfold active; lia). unfold active. lia. }
  intros _. rewrite rebase_slot_active by done.
  specialize (Hinv j Hj Hact). specialize (Hontime j Hj Hd Hact).
  destruct (wf_state_slot s j Hwf Hj) as (_ & Hr & _).
  pose proof (wrap32_range (tmr_val_reg s - last_update_timer_value s)) as He.
  cbn [remain wait_us]. unfold is_uint32 in *.
  rewrite wrap32_small by (unfold is_uint32; lia). lia.
Qed.

Lemma remaining_bounded_step o s :
  op_ok o -> no_missed_deadline o s ->
  wf_state s -> remaining_bounded s -> remaining_bounded (step o s).
Proof.
  destruct o as [timer_id wait|timer_id| |]; cbn [step op_ok].
  - intros [[? _] ?] ?. by apply remaining_bounded_set_timer.
  - intros [? _] _. by apply remaining_bounded_remove_timer.
  - intros _ _. apply remaining_bounded_timer_interrupt.
  - intros _ _ _ Hinv. exact Hinv.
Qed.

Lemma remaining_bounded_run ops : forall s,
  Forall op_ok ops -> all_on_time ops s ->
  wf_state s -> remaining_bounded s ->
  wf_state (run ops s) /\ remaining_bounded (run ops s).
Proof.
  induction ops as [|o ops IH]; intros s Hok Htime Hwf Hinv.
  - done.
  - apply Forall_cons in Hok as [Ho Hok]. destruct Htime as [Ht Htime].
    change (run (o :: ops) s) with (run ops (step o s)).
    apply IH; [done|done|by apply wf_step|by apply remaining_bounded_step].
Qed.

(** ** The firing counter *)

(** What one operation does to the counter of a slot that is active before
    and after it: an install naming the slot resets it, a firing increments
    it as a [uint32], and nothing else touches it. *)
Lemma times_fired_step o s j :
  wf_state s -> op_ok o -> (j < TMR_NUM)%nat ->
  active (slot s j) -> active (slot (step o s) j) ->
  (installs j o = true /\ times_fired (slot (step o s) j) = 0)
  \/ (o = OpInterrupt
      /\ remain (slot s j) = find_minimal_remain s
      /\ times_fired (slot (step o s) j) = wrap32 (times_fired (slot s j) + 1))
  \/ (installs j o = false
      /\ times_fired (slot (step o s) j) = times_fired (slot s j)).
Proof.
  intros Hwf Hok Hj Hact.
  pose proof (wf_state_length s Hwf) as Hlen.
  destruct o as [timer_id wait|timer_id| |]; cbn [step installs op_ok] in *.
  - destruct Hok as [[Hid _] Hwait].
    destruct (Z.le_gt_cases (Z.of_nat TMR_NUM) timer_id) as [Hge|Hlt].
    { rewrite set_timer_invalid by done. intros _. right. right.
      split; [|done]. apply Z.eqb_neq. lia. }
    destruct (set_timer_spec timer_id wait s (conj Hid Hlt) Hlen)
      as (_ & _ & Hs & _).
    rewrite Hs by done. case_decide as Hd.
    + intros _. left. split; [apply Z.eqb_eq; lia|done].
    + intros _. right. right. split; [apply Z.eqb_neq; lia|].
      by rewrite rebase_slot_active.
  - destruct Hok as [Hid _]. intros Hact'. right. right. split; [done|].
    destruct (Z.le_gt_cases (Z.of_nat TMR_NUM) timer_id) as [Hge|Hlt].
    { by rewrite remove_timer_invalid. }
    destruct (decide (wait_us (slot s (Z.to_nat timer_id)) = 0)) as [Hz|Hnz].
    { rewrite remove_timer_inactive; [done|lia|]. unfold active. lia. }
    revert Hact'. rewrite remove_timer_active; [|lia|done]. cbn [fst].
    rewrite slot_store_slot by lia. case_decide; [|done].
    unfold active. simpl. lia.
  - intros _. destruct (timer_interrupt_spec s Hlen) as (_ & Hs & _).
    rewrite Hs by done.
    destruct (decide (remain (slot s j) = find_minimal_remain s)) as [Heq|Hne].
    + right. left. split; [done|]. split; [done|].
      by rewrite advance_slot_fire.
    + right. right. split; [done|].
      pose proof (find_minimal_remain_bounds s j Hwf Hj Hact) as Hm.
      destruct (wf_state_slot s j Hwf Hj) as (_ & Hr & _).
      by destruct (advance_slot_nofire _ _ Hact Hr Hm Hne) as [-> _].
  - intros _. right. right. done.
Qed.

Lemma wrap32_succ z :
  is_uint32 z ->
  (z < UINT32_MAX /\ wrap32 (z + 1) = z + 1)
  \/ (z = UINT32_MAX /\ wrap32 (z + 1) = 0).
Proof.
  unfold is_uint32, UINT32_MOD, UINT32_MAX. intros Hz.
  destruct (decide (z = 4294967295)) as [->|Hne].
  - right. split; reflexivity.
  - left. split; [lia|]. apply wrap32_small. unfold is_uint32, UINT32_MOD. lia.
Qed.

Lemma stays_active_now j ops s : stays_active j ops s -> active (slot s j).
Proof. destruct ops; simpl; tauto. Qed.

Lemma count_interrupts_cons o ops :
  count_interrupts (o :: ops)
  = (if is_interrupt o then 1 else 0) + count_interrupts ops.
Proof.
  unfold count_interrupts. rewrite filter_cons.
  destruct (is_interrupt o); case_decide; try done.
  cbn [length]. lia.
Qed.

Lemma count_interrupts_nonneg ops : 0 <= count_interrupts ops.
Proof. unfold count_interrupts. lia. Qed.

(** Along a run with no install naming slot [j], during which the slot
    stays active and the counter has room for every interrupt of the run,
    the counter only grows, by at most one per interrupt. *)
Lemma times_fired_run j ops : forall s,
  wf_state s -> Forall op_ok ops -> (j < TMR_NUM)%nat ->
  stays_active j ops s ->
  forallb (fun o => negb (installs j o)) ops = true ->
  times_fired (slot s j) + count_interrupts ops <= UINT32_MAX ->
  times_fired (slot s j) <= times_fired (slot (run ops s) j)
  /\ times_fired (slot (run ops s) j)
     <= times_fired (slot s j) + count_interrupts ops.
Proof.
  induction ops as [|o ops IH]; intros s Hwf Hok Hj Hstay Hno Hroom.
  - unfold count_interrupts. simpl. lia.
  - apply Forall_cons in Hok as [Ho Hok].
    destruct Hstay as [Hact Hstay].
    pose proof (stays_active_now _ _ _ Hstay) as Hact'.
    cbn [forallb] in Hno. apply andb_true_iff in Hno as [Hno1 Hno].
    apply negb_true_iff in Hno1.
    change (run (o :: ops) s) with (run ops (step o s)).
    rewrite count_interrupts_cons in *.
    pose proof (count_interrupts_nonneg ops) as Hpos.
    destruct (wf_state_slot s j Hwf Hj) as (_ & _ & Hf).
    specialize (IH (step o s) (wf_step o s Ho Hwf) Hok Hj Hstay Hno).
    destruct (times_fired_step o s j Hwf Ho Hj Hact Hact')
      as [[Hinst _]|[(-> & _ & Htf)|[_ Htf]]]; [congruence| |].
    + cbn [is_interrupt] in *.
      destruct (wrap32_succ _ Hf) as [[Hlt Hw]|[Hmax Hw]]; [|lia].
      rewrite Hw in Htf. rewrite Htf in IH. lia.
    + rewrite Htf in IH. destruct (is_interrupt o); lia.
Qed.

(** *** A counter about to wrap *)

Lemma set_timer_one_timer : fst (set_timer 0 1 initial_state) = one_timer 0 0.
Proof. vm_compute. reflexivity. Qed.

Lemma find_minimal_remain_one_timer k c :
  find_minimal_remain (one_timer k c) = 1.
Proof.
  rewrite (find_minimal_remain_ext (one_timer k c) (one_timer k 0)).
  - vm_compute. reflexivity.
  - intros j _. reflexivity.
Qed.

Lemma timer_interrupt_one_timer k c :
  timer_interrupt (one_timer k c) = one_timer (wrap32 (k + 1)) 1.
Proof.
  destruct (timer_interrupt_spec (one_timer k c) eq_refl)
    as (Hl & Hs & Hla & Hv & Hc & Hcl).
  assert (Hslots : forall j, (j < TMR_NUM)%nat ->
            slot (timer_interrupt (one_timer k c)) j
            = slot (one_timer (wrap32 (k + 1)) 1) j).
  { intros j Hj. rewrite Hs, find_minimal_remain_one_timer by done.
    destruct j as [|j].
    - change (slot (one_timer k c) 0) with (mk_timer_data 1 1 k).
      by rewrite advance_slot_fire.
    - do 9 (destruct j as [|j]; [reflexivity|]). unfold TMR_NUM in Hj. lia. }
  apply state_ext.
  - rewrite Hl. reflexivity.
  - intros j Hj. apply Hslots. by rewrite <- Hl.
  - rewrite Hla. reflexivity.
  - rewrite Hv. reflexivity.
  - rewrite Hc, (find_minimal_remain_ext _ _ Hslots).
    rewrite find_minimal_remain_one_timer. reflexivity.
  - rewrite Hcl. reflexivity.
Qed.

Lemma reachable_wf s : reachable s -> wf_state s.
Proof.
  induction 1 as [|o s Ho _ IH]; [reflexivity|by apply wf_step].
Qed.

(** One install of period 1 and [k + 1] interrupts. *)
Lemma reachable_one_timer k :
  0 <= k -> k + 1 < 2 ^ 32 -> reachable (one_timer (k + 1) 1).
Proof.
  intros Hk. pattern k. apply natlike_ind; [| |exact Hk]; clear k Hk.
  - intros _.
    change (one_timer (0 + 1) 1) with (one_timer (wrap32 (0 + 1)) 1).
    rewrite <- (timer_interrupt_one_timer 0 0), <- set_timer_one_timer.
    apply (reachable_step OpInterrupt); [exact I|].
    apply (reachable_step (OpSetTimer 0 1)); [|apply reachable_initial].
    unfold op_ok, is_uint32, UINT32_MOD. lia.
  - intros k Hk IH Hlt.
    replace (Z.succ k + 1) with (wrap32 (k + 1 + 1))
      by (rewrite wrap32_small; unfold is_uint32, UINT32_MOD; lia).
    rewrite <- (timer_interrupt_one_timer (k + 1) 1).
    apply (reachable_step OpInterrupt); [exact I|]. apply IH. lia.
Qed.

(** * Part III: the properties of the scheduler core *)

(** C1. On a table with at least one active slot, [timer_interrupt]
    subtracts [min_remain = find_minimal_remain()], the least active
    [remain], from the [remain] of every active slot.  The active slots
    whose [remain] thereby reaches zero, which are exactly those that held
    the minimum, fire: [remain] is reloaded with [wait_us] and
    [times_fired] is incremented ([times_fired++] on a [uint32], one more
    unless the counter is at [0xffffffff]).  Every slot sharing the minimum
    fires in the same call, at least one does, the other active slots keep
    a positive difference, and inactive slots are untouched.  The handler
    of the theoretical variant, which has no counter and prints instead,
    leaves the same table and registers. *)
Theorem timer_interrupt_advance (s : state) :
  wf_state s ->
  (exists j, (j < TMR_NUM)%nat /\ active (slot s j)) ->
  let min_remain := find_minimal_remain s in
  let s' := timer_interrupt s in
  is_min_remaining s min_remain
  /\ (forall j, (j < TMR_NUM)%nat -> ~ active (slot s j) ->
        slot s' j = slot s j)
  /\ (forall j, (j < TMR_NUM)%nat -> active (slot s j) ->
        remain (slot s j) - min_remain = 0 ->
        slot s' j = mk_timer_data (wait_us (slot s j)) (wait_us (slot s j))
                      ((times_fired (slot s j) + 1) mod 2 ^ 32)
        /\ (times_fired (slot s j) < 0xffffffff ->
             times_fired (slot s' j) = times_fired (slot s j) + 1))
  /\ (forall j, (j < TMR_NUM)%nat -> active (slot s j) ->
        remain (slot s j) - min_remain <> 0 ->
        slot s' j = mk_timer_data (wait_us (slot s j))
                      (remain (slot s j) - min_remain)
                      (times_fired (slot s j)))
  /\ (exists j, (j < TMR_NUM)%nat /\ active (slot s j)
                /\ remain (slot s j) - min_remain = 0)
  /\ length (timer_data s') = TMR_NUM
  /\ (exists out, Theoretical.timer_interrupt (erase [] s) = erase out s').
Proof.
  intros Hwf Hex min_remain s'.
  pose proof (wf_state_length s Hwf) as Hlen.
  destruct (timer_interrupt_spec s Hlen) as (Hl & Hs & _).
  fold s' in Hl, Hs. fold min_remain in Hs.
  pose proof (find_minimal_remain_min s Hwf Hex) as Hmin.
  fold min_remain in Hmin.
  split; [exact Hmin|]. split.
  { intros j Hj Hna. rewrite Hs by done. by apply advance_slot_inactive. }
  split.
  { intros j Hj Hact Hz. rewrite Hs by done.
    rewrite advance_slot_fire by (done || lia). split; [done|].
    intros Hlt. cbn [times_fired]. apply wrap32_small.
    destruct (wf_state_slot s j Hwf Hj) as (_ & _ & Hf).
    unfold is_uint32, UINT32_MOD in *. lia. }
  split.
  { intros j Hj Hact Hnz. rewrite Hs by done.
    apply advance_slot_nofire; [done| |by apply find_minimal_remain_bounds|lia].
    by destruct (wf_state_slot s j Hwf Hj) as (_ & ? & _). }
  split; [|split; [exact Hl|apply erase_timer_interrupt]].
  destruct Hmin as [(j & Hj & Hact & Hr) _].
  exists j. split; [done|]. split; [done|lia].
Qed.

(** On [sample_state] the minimum is 30: timers 1 and 3 fire, timer 0 keeps
    40 ticks. *)
Lemma timer_interrupt_advance_witness :
  wf_state sample_state
  /\ find_minimal_remain sample_state = 30
  /\ slot (timer_interrupt sample_state) 1 = mk_timer_data 30 30 8
  /\ slot (timer_interrupt sample_state) 3 = mk_timer_data 50 50 1
  /\ slot (timer_interrupt sample_state) 0 = mk_timer_data 100 40 2.
Proof.
  assert (Hwf : wf_state sample_state) by reflexivity.
  assert (Hex : exists j, (j < TMR_NUM)%nat /\ active (slot sample_state j)).
  { exists 1%nat. split; [unfold TMR_NUM; lia|]. vm_compute. discriminate. }
  destruct (timer_interrupt_advance sample_state Hwf Hex)
    as (_ & _ & Hfire & Hkeep & _).
  split; [exact Hwf|]. split; [reflexivity|].
  split.
  { apply (Hfire 1%nat); [unfold TMR_NUM; lia| |reflexivity].
    vm_compute. discriminate. }
  split.
  { apply (Hfire 3%nat); [unfold TMR_NUM; lia| |reflexivity].
    vm_compute. discriminate. }
  apply (Hkeep 0%nat); [unfold TMR_NUM; lia| |]; vm_compute; discriminate.
Defined.

(** C2. For a valid id and a period [P > 0], [set_timer id P] reads the
    clock [now], takes [elapsed = now - last_update_timer_value] as a
    wrapping 32-bit difference, decreases the [remain] of every other
    active slot by [elapsed] (wrapping), sets the baseline to [now], gives
    the named slot [wait_us = remain = P] and [times_fired = 0], and writes
    [now + m] (a 32-bit sum) to the compare register, [m] being the least
    [remain] over the active slots of the updated table.  Nothing else
    changes and nothing is printed.  From the initial state, with the clock
    at 0, [set_timer 0 100] then [set_timer 1 30] arms the register at 30. *)
Theorem set_timer_effect (timer_id P : Z) (s : state) :
  0 <= timer_id < Z.of_nat TMR_NUM ->
  0 < P < 2 ^ 32 ->
  wf_state s ->
  let now := tmr_val_reg s in
  let elapsed := (now - last_update_timer_value s) mod 2 ^ 32 in
  let s' := fst (set_timer timer_id P s) in
  snd (set_timer timer_id P s) = []
  /\ (forall j, (j < TMR_NUM)%nat -> j <> Z.to_nat timer_id ->
        active (slot s j) ->
        slot s' j = mk_timer_data (wait_us (slot s j))
                      ((remain (slot s j) - elapsed) mod 2 ^ 32)
                      (times_fired (slot s j)))
  /\ (forall j, (j < TMR_NUM)%nat -> j <> Z.to_nat timer_id ->
        ~ active (slot s j) -> slot s' j = slot s j)
  /\ slot s' (Z.to_nat timer_id) = mk_timer_data P P 0
  /\ last_update_timer_value s' = now
  /\ (exists m, is_min_remaining s' m
                /\ tmr_cmp_reg s' = (now + m) mod 2 ^ 32)
  /\ length (timer_data s') = TMR_NUM
  /\ tmr_val_reg s' = tmr_val_reg s
  /\ tmr_clr_reg s' = tmr_clr_reg s
  /\ tmr_cmp_reg
       (fst (set_timer 1 30 (fst (set_timer 0 100 initial_state)))) = 30.
Proof.
  intros Hid HP Hwf now elapsed s'.
  pose proof (wf_state_length s Hwf) as Hlen.
  assert (HwfP : is_uint32 P) by (unfold is_uint32, UINT32_MOD; lia).
  pose proof (wf_set_timer timer_id P s ltac:(lia) HwfP Hwf) as Hwf'.
  fold s' in Hwf'.
  destruct (set_timer_spec timer_id P s Hid Hlen)
    as (Hout & Hl & Hs & Hla & Hv & Hc & Hcl).
  fold s' in Hl, Hs, Hla, Hv, Hc, Hcl. fold now in Hla, Hc.
  assert (Hnamed : slot s' (Z.to_nat timer_id) = mk_timer_data P P 0).
  { rewrite Hs by lia. by rewrite decide_True. }
  split; [exact Hout|]. split.
  { intros j Hj Hne Hact. rewrite Hs by done. rewrite decide_False by done.
    by apply rebase_slot_active; [lia|..]. }
  split.
  { intros j Hj Hne Hna. rewrite Hs by done. rewrite decide_False by done.
    by apply rebase_slot_inactive. }
  split; [exact Hnamed|]. split; [exact Hla|]. split.
  { exists (find_minimal_remain s'). split; [|exact Hc].
    apply find_minimal_remain_min; [done|].
    exists (Z.to_nat timer_id). split; [lia|].
    rewrite Hnamed. unfold active. simpl. lia. }
  split; [exact Hl|]. split; [exact Hv|]. split; [exact Hcl|].
  vm_compute. reflexivity.
Qed.

(** Installing timer 2 on [sample_state], ten ticks after the baseline. *)
Lemma set_timer_effect_witness :
  0 <= 2 < Z.of_nat TMR_NUM
  /\ wf_state sample_state
  /\ slot (fst (set_timer 2 25 sample_state)) 2 = mk_timer_data 25 25 0
  /\ slot (fst (set_timer 2 25 sample_state)) 0 = mk_timer_data 100 60 2
  /\ last_update_timer_value (fst (set_timer 2 25 sample_state)) = 1010.
Proof.
  assert (Hid : 0 <= 2 < Z.of_nat TMR_NUM) by (unfold TMR_NUM; lia).
  assert (HP : 0 < 25 < 2 ^ 32) by lia.
  assert (Hwf : wf_state sample_state) by reflexivity.
  destruct (set_timer_effect 2 25 sample_state Hid HP Hwf)
    as (_ & Hother & _ & Hnamed & Hlast & _).
  split; [exact Hid|]. split; [exact Hwf|]. split; [exact Hnamed|].
  split; [|exact Hlast].
  apply (Hother 0%nat); [unfold TMR_NUM; lia|lia|]. vm_compute. discriminate.
Defined.

(** C3, as stated, fails: [set_timer] has no check of the period.  With
    slot 5 active, [set_timer 5 0] prints nothing, clears slot 5, rebases
    slot 0 from 70 to 60 and moves the baseline from 1000 to 1010; two
    ticks after start it moves the compare register from 0 to 1. *)
Lemma set_timer_zero_period_not_rejected :
  snd (set_timer 5 0 sample_state) = []
  /\ slot sample_state 5 = mk_timer_data 40 35 1
  /\ slot (fst (set_timer 5 0 sample_state)) 5 = mk_timer_data 0 0 0
  /\ slot sample_state 0 = mk_timer_data 100 70 2
  /\ slot (fst (set_timer 5 0 sample_state)) 0 = mk_timer_data 100 60 2
  /\ last_update_timer_value sample_state = 1000
  /\ last_update_timer_value (fst (set_timer 5 0 sample_state)) = 1010
  /\ tmr_cmp_reg (hw_tick (hw_tick initial_state)) = 0
  /\ tmr_cmp_reg (fst (set_timer 5 0 (hw_tick (hw_tick initial_state)))) = 1
  /\ ~ (exists out, set_timer 5 0 sample_state = (sample_state, out)).
Proof.
  repeat (split; [vm_compute; reflexivity|]).
  intros [out Heq].
  apply (f_equal (fun r => last_update_timer_value (fst r))) in Heq.
  vm_compute in Heq. discriminate.
Qed.

(** C3, amended.  [set_timer] with period 0 is not rejected and prints
    nothing when the id is valid: it runs like any install, which leaves
    the named slot inactive ([wait_us = remain = times_fired = 0]),
    decreases the [remain] of every other active slot by [elapsed]
    (wrapping), sets the baseline to [now] and writes [now + m] to the
    compare register, [m] being the least [remain] of the slots still
    active, or [0xffffffff] when none is.  With an id >= [TMR_NUM] the call
    is rejected with the "exceeds limit" error and the state is unchanged. *)
Theorem set_timer_zero_period (timer_id : Z) (s : state) :
  0 <= timer_id ->
  wf_state s ->
  let now := tmr_val_reg s in
  let elapsed := (now - last_update_timer_value s) mod 2 ^ 32 in
  let s' := fst (set_timer timer_id 0 s) in
  (Z.of_nat TMR_NUM <= timer_id ->
     set_timer timer_id 0 s = (s, [msg_id_exceeds_limit]))
  /\ (timer_id < Z.of_nat TMR_NUM ->
      snd (set_timer timer_id 0 s) = []
      /\ slot s' (Z.to_nat timer_id) = mk_timer_data 0 0 0
      /\ (forall j, (j < TMR_NUM)%nat -> j <> Z.to_nat timer_id ->
            active (slot s j) ->
            slot s' j = mk_timer_data (wait_us (slot s j))
                          ((remain (slot s j) - elapsed) mod 2 ^ 32)
                          (times_fired (slot s j)))
      /\ (forall j, (j < TMR_NUM)%nat -> j <> Z.to_nat timer_id ->
            ~ active (slot s j) -> slot s' j = slot s j)
      /\ last_update_timer_value s' = now
      /\ tmr_cmp_reg s' = (now + find_minimal_remain s') mod 2 ^ 32
      /\ ((exists j, (j < TMR_NUM)%nat /\ active (slot s' j)) ->
            is_min_remaining s' (find_minimal_remain s'))
      /\ (none_active s' -> find_minimal_remain s' = 0xffffffff)
      /\ length (timer_data s') = TMR_NUM
      /\ tmr_val_reg s' = tmr_val_reg s
      /\ tmr_clr_reg s' = tmr_clr_reg s).
Proof.
  intros Hid Hwf now elapsed s'.
  split; [by apply set_timer_invalid|]. intros Hlt.
  pose proof (wf_state_length s Hwf) as Hlen.
  assert (Hwf0 : is_uint32 0) by (unfold is_uint32, UINT32_MOD; lia).
  pose proof (wf_set_timer timer_id 0 s Hid Hwf0 Hwf) as Hwf'.
  fold s' in Hwf'.
  destruct (set_timer_spec timer_id 0 s (conj Hid Hlt) Hlen)
    as (Hout & Hl & Hs & Hla & Hv & Hc & Hcl).
  fold s' in Hl, Hs, Hla, Hv, Hc, Hcl. fold now in Hla, Hc.
  split; [exact Hout|]. split.
  { rewrite Hs by lia. by rewrite decide_True. }
  split.
  { intros j Hj Hne Hact. rewrite Hs by done. rewrite decide_False by done.
    by apply rebase_slot_active. }
  split.
  { intros j Hj Hne Hna. rewrite Hs by done. rewrite decide_False by done.
    by apply rebase_slot_inactive. }
  split; [exact Hla|]. split; [exact Hc|].
  split; [by apply find_minimal_remain_min|].
  split; [apply find_minimal_remain_none|].
  split; [exact Hl|]. split; [exact Hv|exact Hcl].
Qed.

(** Period 0 on [sample_state], with a valid and with an invalid id. *)
Lemma set_timer_zero_period_witness :
  0 <= 5
  /\ wf_state sample_state
  /\ snd (set_timer 5 0 sample_state) = []
  /\ slot (fst (set_timer 5 0 sample_state)) 5 = mk_timer_data 0 0 0
  /\ set_timer 12 0 sample_state = (sample_state, [msg_id_exceeds_limit]).
Proof.
  assert (H5 : 0 <= 5) by lia.
  assert (H12 : 0 <= 12) by lia.
  assert (Hwf : wf_state sample_state) by reflexivity.
  destruct (set_timer_zero_period 5 sample_state H5 Hwf) as (_ & Hvalid).
  destruct (set_timer_zero_period 12 sample_state H12 Hwf) as (Hinvalid & _).
  destruct Hvalid as (Hout & Hnamed & _); [unfold TMR_NUM; lia|].
  split; [exact H5|]. split; [exact Hwf|]. split; [exact Hout|].
  split; [exact Hnamed|]. apply Hinvalid. unfold TMR_NUM. lia.
Defined.

(** C4, as stated, fails: [set_timer] does not preserve the invariant.
    After [set_timer 0 100] at tick 0 the invariant holds; a [set_timer 1
    30] at tick 150 rebases slot 0 by 150 ticks, and its [remain] wraps to
    [2^32 - 50], far above its [wait_us] of 100. *)
Lemma remaining_bounded_broken_by_set_timer :
  remaining_bounded initial_state
  /\ remaining_bounded (run (OpSetTimer 0 100 :: replicate 150 OpTick)
                           initial_state)
  /\ run missed_deadline_ops initial_state
     = step (OpSetTimer 1 30)
         (run (OpSetTimer 0 100 :: replicate 150 OpTick) initial_state)
  /\ slot (run missed_deadline_ops initial_state) 0
     = mk_timer_data 100 4294967246 0
  /\ ~ remaining_bounded (run missed_deadline_ops initial_state).
Proof.
  split; [by apply remaining_boundedb_spec|].
  split; [by apply remaining_boundedb_spec|].
  split; [vm_compute; reflexivity|].
  split; [vm_compute; reflexivity|].
  intros Hinv.
  assert (Hj : (0 < TMR_NUM)%nat) by (unfold TMR_NUM; lia).
  destruct (Hinv 0%nat Hj) as [_ Hle]; [vm_compute; discriminate|].
  vm_compute in Hle. by apply Hle.
Qed.

(** C4, amended.  [0 <= remain <= wait_us] on every active slot holds in
    the initial state and is preserved by [remove_timer], by
    [timer_interrupt] and by the counter's ticks; [set_timer] preserves it
    when it is not late for any other active timer, that is when the ticks
    elapsed since the baseline do not exceed that timer's [remain].  So the
    invariant holds at every quiescent point of a run whose installs miss
    no deadline. *)
Theorem remaining_bounded_invariant (ops : list op) (s : state) :
  wf_state s ->
  remaining_bounded s ->
  Forall op_ok ops ->
  all_on_time ops s ->
  remaining_bounded (run ops s)
  /\ remaining_bounded (timer_interrupt s)
  /\ (forall timer_id, 0 <= timer_id < 256 ->
        remaining_bounded (fst (remove_timer timer_id s)))
  /\ (forall timer_id P, 0 <= timer_id < 256 -> is_uint32 P ->
        (timer_id < Z.of_nat TMR_NUM ->
         forall j, (j < TMR_NUM)%nat -> j <> Z.to_nat timer_id ->
           active (slot s j) ->
           (tmr_val_reg s - last_update_timer_value s) mod 2 ^ 32
           <= remain (slot s j)) ->
        remaining_bounded (fst (set_timer timer_id P s)))
  /\ remaining_bounded initial_state.
Proof.
  intros Hwf Hinv Hok Htime.
  split; [by apply remaining_bounded_run|].
  split; [by apply remaining_bounded_timer_interrupt|].
  split; [intros timer_id [? _]; by apply remaining_bounded_remove_timer|].
  split; [|by apply remaining_boundedb_spec].
  intros timer_id P [? _] HP Hontime.
  by apply remaining_bounded_set_timer.
Qed.

(** No install of [on_time_ops] is late. *)
Lemma all_on_time_on_time_ops : all_on_time on_time_ops initial_state.
Proof.
  unfold on_time_ops. cbn [all_on_time replicate app].
  split.
  { intros _ j Hj Hne Hact. exfalso. revert Hact.
    do 10 (destruct j as [|j]; [vm_compute; tauto|]).
    unfold TMR_NUM in Hj. lia. }
  do 50 (split; [exact I|]).
  split.
  { intros _ j Hj Hne Hact.
    do 10 (destruct j as [|j];
      [first [by vm_compute in Hne | by vm_compute in Hact | by vm_compute]|]).
    unfold TMR_NUM in Hj. lia. }
  split; [exact I|]. split; [exact I|]. exact I.
Qed.

(** The invariant after the run [on_time_ops] from program start. *)
Lemma remaining_bounded_invariant_witness :
  wf_state initial_state
  /\ remaining_bounded initial_state
  /\ all_on_time on_time_ops initial_state
  /\ remaining_bounded (run on_time_ops initial_state)
  /\ slot (run on_time_ops initial_state) 1 = mk_timer_data 30 30 1.
Proof.
  assert (Hwf : wf_state initial_state) by reflexivity.
  assert (Hinv : remaining_bounded initial_state)
    by (by apply remaining_boundedb_spec).
  assert (Hok : Forall op_ok on_time_ops).
  { unfold on_time_ops. cbn [replicate app].
    repeat (apply Forall_cons; split;
            [first [exact I | unfold op_ok, is_uint32, UINT32_MOD; lia]|]).
    apply Forall_nil. exact I. }
  split; [exact Hwf|]. split; [exact Hinv|].
  split; [exact all_on_time_on_time_ops|].
  destruct (remaining_bounded_invariant on_time_ops initial_state Hwf Hinv Hok
              all_on_time_on_time_ops) as [Hrun _].
  split; [exact Hrun|]. vm_compute. reflexivity.
Defined.

(** C5. [find_minimal_remain] returns the least [remain] among the active
    slots (those with [wait_us <> 0]) and the sentinel [0xffffffff], the
    largest [uint32], when no slot is active.  The function is a pure read
    of the state: it has no state result, so it mutates nothing.  The scan
    of the theoretical variant returns the same value on the same table. *)
Theorem find_minimal_remain_correct (s : state) :
  wf_state s ->
  ((exists j, (j < TMR_NUM)%nat /\ active (slot s j)) ->
     is_min_remaining s (find_minimal_remain s))
  /\ (none_active s -> find_minimal_remain s = 0xffffffff)
  /\ (forall z, is_uint32 z -> z <= 0xffffffff)
  /\ is_uint32 (find_minimal_remain s)
  /\ (forall out,
        Theoretical.find_minimal_remain (erase out s) = find_minimal_remain s).
Proof.
  intros Hwf. split; [by apply find_minimal_remain_min|].
  split; [apply find_minimal_remain_none|].
  split; [unfold is_uint32, UINT32_MOD; lia|].
  split; [|intros out; apply erase_find_minimal_remain].
  destruct (find_minimal_remain_spec s) as (Hmax & _ & [[-> _]|(j & Hj & _ & <-)]).
  - unfold is_uint32, UINT32_MOD, UINT32_MAX. lia.
  - by destruct (wf_state_slot s j Hwf Hj) as (_ & ? & _).
Qed.

(** The scan on [sample_state]. *)
Lemma find_minimal_remain_correct_witness :
  wf_state sample_state
  /\ find_minimal_remain sample_state = 30
  /\ is_min_remaining sample_state 30.
Proof.
  assert (Hwf : wf_state sample_state) by reflexivity.
  destruct (find_minimal_remain_correct sample_state Hwf) as (Hmin & _).
  split; [exact Hwf|]. split; [reflexivity|].
  apply Hmin.
  exists 0%nat. split; [unfold TMR_NUM; lia|]. vm_compute. discriminate.
Defined.

(** C6. For a valid id whose slot is active, [remove_timer] zeroes that
    slot's [wait_us], [remain] and [times_fired] and changes nothing else:
    every other slot, [last_update_timer_value] and the compare register
    (and the other registers) keep their values, and nothing is printed. *)
Theorem remove_timer_frame (timer_id : Z) (s : state) :
  0 <= timer_id < Z.of_nat TMR_NUM ->
  length (timer_data s) = TMR_NUM ->
  active (slot s (Z.to_nat timer_id)) ->
  let s' := fst (remove_timer timer_id s) in
  snd (remove_timer timer_id s) = []
  /\ slot s' (Z.to_nat timer_id) = mk_timer_data 0 0 0
  /\ (forall j, j <> Z.to_nat timer_id -> slot s' j = slot s j)
  /\ length (timer_data s') = length (timer_data s)
  /\ last_update_timer_value s' = last_update_timer_value s
  /\ tmr_cmp_reg s' = tmr_cmp_reg s
  /\ tmr_val_reg s' = tmr_val_reg s
  /\ tmr_clr_reg s' = tmr_clr_reg s.
Proof.
  intros Hid Hlen Hact s'. subst s'.
  rewrite remove_timer_active by done. cbn [fst snd].
  split; [done|]. split.
  { rewrite slot_store_slot by lia. by rewrite decide_True. }
  split.
  { intros j Hj. rewrite slot_store_slot by lia. by rewrite decide_False. }
  split; [apply length_store_slot|done].
Qed.

(** Removing timer 1 from [sample_state]. *)
Lemma remove_timer_frame_witness :
  0 <= 1 < Z.of_nat TMR_NUM
  /\ active (slot sample_state 1)
  /\ slot (fst (remove_timer 1 sample_state)) 1 = mk_timer_data 0 0 0
  /\ tmr_cmp_reg (fst (remove_timer 1 sample_state)) = 1030.
Proof.
  assert (H1 : 0 <= 1 < Z.of_nat TMR_NUM) by (unfold TMR_NUM; lia).
  assert (H2 : length (timer_data sample_state) = TMR_NUM) by reflexivity.
  assert (H3 : active (slot sample_state (Z.to_nat 1)))
    by (vm_compute; discriminate).
  split; [exact H1|]. split; [exact H3|].
  destruct (remove_timer_frame 1 sample_state H1 H2 H3)
    as (_ & Hz & _ & _ & _ & Hc & _).
  split; [exact Hz|exact Hc].
Defined.

(** C7. [remove_timer] is idempotent: for a valid id, a second call in
    succession returns the state the first call produced, untouched, and
    reports "Timer is already inactive" (the informational line, not the
    error line). *)
Theorem remove_timer_idempotent (timer_id : Z) (s : state) :
  0 <= timer_id < Z.of_nat TMR_NUM ->
  length (timer_data s) = TMR_NUM ->
  let s1 := fst (remove_timer timer_id s) in
  remove_timer timer_id s1 = (s1, [msg_already_inactive])
  /\ msg_already_inactive <> msg_id_exceeds_limit.
Proof.
  intros Hid Hlen s1. split; [|discriminate].
  apply remove_timer_inactive; [done|]. subst s1.
  destruct (decide (wait_us (slot s (Z.to_nat timer_id)) = 0)) as [Hz|Hnz].
  - rewrite remove_timer_inactive; [|done|unfold active; lia].
    unfold active. simpl. lia.
  - rewrite remove_timer_active by done. cbn [fst].
    rewrite slot_store_slot by lia. rewrite decide_True by done.
    unfold active. simpl. lia.
Qed.

(** Removing timer 1 from [sample_state] twice. *)
Lemma remove_timer_idempotent_witness :
  0 <= 1 < Z.of_nat TMR_NUM
  /\ remove_timer 1 (fst (remove_timer 1 sample_state))
     = (fst (remove_timer 1 sample_state), [msg_already_inactive]).
Proof.
  assert (H1 : 0 <= 1 < Z.of_nat TMR_NUM) by (unfold TMR_NUM; lia).
  split; [exact H1|].
  apply (remove_timer_idempotent 1 sample_state H1). reflexivity.
Defined.

(** C8, as stated, fails: [times_fired] is a [uint32] and [times_fired++]
    wraps.  The state with one timer of period 1 that has fired [2^32 - 1]
    times is reached from program start by one install and [2^32 - 1]
    interrupts; the next interrupt, which is not an install, leaves the
    slot active and takes its counter from [0xffffffff] down to 0. *)
Lemma times_fired_wraps_to_zero :
  reachable (one_timer 4294967295 1)
  /\ active (slot (one_timer 4294967295 1) 0)
  /\ times_fired (slot (one_timer 4294967295 1) 0) = 4294967295
  /\ active (slot (step OpInterrupt (one_timer 4294967295 1)) 0)
  /\ times_fired (slot (step OpInterrupt (one_timer 4294967295 1)) 0) = 0
  /\ installs 0 OpInterrupt = false
  /\ ~ (times_fired (slot (one_timer 4294967295 1) 0)
        <= times_fired (slot (step OpInterrupt (one_timer 4294967295 1)) 0)).
Proof.
  split; [apply (reachable_one_timer 4294967294); lia|].
  split; [vm_compute; discriminate|].
  split; [reflexivity|].
  split; [vm_compute; discriminate|].
  split; [vm_compute; reflexivity|].
  split; [reflexivity|].
  vm_compute. intros H. by apply H.
Qed.

(** C8, amended.  For a slot that is active before and after an operation,
    [times_fired] does not decrease except in two cases: an install naming
    the slot resets it to 0, and a firing at [0xffffffff] wraps it to 0.
    Those are also the only two ways a nonzero counter of a slot that stays
    active becomes 0.  Hence along any run during which the slot stays
    active, with no install naming it and with room in the counter for the
    interrupts of the run, [times_fired] never decreases. *)
Theorem times_fired_monotone (ops : list op) (o : op) (s : state) (j : nat) :
  wf_state s ->
  Forall op_ok ops ->
  op_ok o ->
  (j < TMR_NUM)%nat ->
  (active (slot s j) -> active (slot (step o s) j) ->
     times_fired (slot s j) <= times_fired (slot (step o s) j)
     \/ (installs j o = true /\ times_fired (slot (step o s) j) = 0)
     \/ (o = OpInterrupt /\ times_fired (slot s j) = 0xffffffff
         /\ times_fired (slot (step o s) j) = 0))
  /\ (active (slot s j) -> active (slot (step o s) j) ->
      times_fired (slot s j) <> 0 -> times_fired (slot (step o s) j) = 0 ->
      installs j o = true
      \/ (o = OpInterrupt /\ times_fired (slot s j) = 0xffffffff))
  /\ (stays_active j ops s ->
      forallb (fun o' => negb (installs j o')) ops = true ->
      times_fired (slot s j) + count_interrupts ops <= 0xffffffff ->
      times_fired (slot s j) <= times_fired (slot (run ops s) j)).
Proof.
  intros Hwf Hoks Hok Hj.
  destruct (wf_state_slot s j Hwf Hj) as (_ & _ & Hf).
  assert (Hstep : active (slot s j) -> active (slot (step o s) j) ->
     times_fired (slot s j) <= times_fired (slot (step o s) j)
     \/ (installs j o = true /\ times_fired (slot (step o s) j) = 0)
     \/ (o = OpInterrupt /\ times_fired (slot s j) = 0xffffffff
         /\ times_fired (slot (step o s) j) = 0)).
  { intros Hact Hact'.
    destruct (times_fired_step o s j Hwf Hok Hj Hact Hact')
      as [[Hinst Htf]|[(Ho & _ & Htf)|[_ Htf]]].
    - right. left. done.
    - destruct (wrap32_succ _ Hf) as [[Hlt Hw]|[Hmax Hw]]; rewrite Hw in Htf.
      + left. lia.
      + right. right. done.
    - left. lia. }
  split; [exact Hstep|]. split.
  - intros Hact Hact' Hnz Hz.
    destruct (Hstep Hact Hact') as [Hle|[[Hinst _]|(Ho & Hmax & _)]].
    + unfold is_uint32 in Hf. lia.
    + by left.
    + by right.
  - intros Hstay Hno Hroom.
    by destruct (times_fired_run j ops s Hwf Hoks Hj Hstay Hno Hroom) as [? _].
Qed.

(** The counter of timer 1 along a run from [sample_state]. *)
Lemma times_fired_monotone_witness :
  wf_state sample_state
  /\ stays_active 1 [OpTick; OpInterrupt; OpRemoveTimer 0; OpInterrupt]
       sample_state
  /\ times_fired (slot sample_state 1) = 7
  /\ 7 <= times_fired
            (slot (run [OpTick; OpInterrupt; OpRemoveTimer 0; OpInterrupt]
                       sample_state) 1)
  /\ times_fired (slot (step OpInterrupt sample_state) 1) = 8.
Proof.
  assert (Hwf : wf_state sample_state) by reflexivity.
  assert (Hoks : Forall op_ok [OpTick; OpInterrupt; OpRemoveTimer 0; OpInterrupt]).
  { repeat (apply Forall_cons; split; [first [exact I | simpl; lia]|]).
    apply Forall_nil. exact I. }
  assert (Hj : (1 < TMR_NUM)%nat) by (unfold TMR_NUM; lia).
  assert (Hstay : stays_active 1 [OpTick; OpInterrupt; OpRemoveTimer 0;
                                  OpInterrupt] sample_state).
  { cbn [stays_active]. repeat (split; [vm_compute; discriminate|]). exact I. }
  destruct (times_fired_monotone
              [OpTick; OpInterrupt; OpRemoveTimer 0; OpInterrupt]
              OpInterrupt sample_state 1 Hwf Hoks I Hj)
    as (_ & _ & Hrun).
  split; [exact Hwf|]. split; [exact Hstay|]. split; [reflexivity|].
  split; [|reflexivity].
  apply (Hrun Hstay); [reflexivity|]. vm_compute. discriminate.
Defined.

(** C9. For an id outside the table (id >= [TMR_NUM] = 10), [set_timer]
    (with any period) and [remove_timer] print the "exceeds limit" error
    and return the state they were given: table, baseline and registers
    are all unchanged. *)
Theorem invalid_id_rejected (timer_id wait : Z) (s : state) :
  Z.of_nat TMR_NUM <= timer_id ->
  Z.of_nat TMR_NUM = 10
  /\ set_timer timer_id wait s = (s, [msg_id_exceeds_limit])
  /\ remove_timer timer_id s = (s, [msg_id_exceeds_limit]).
Proof.
  intros Hid. split; [reflexivity|].
  split; [by apply set_timer_invalid|by apply remove_timer_invalid].
Qed.

(** Ids 10 and 255 on [sample_state]. *)
Lemma invalid_id_rejected_witness :
  Z.of_nat TMR_NUM <= 10
  /\ set_timer 10 25 sample_state = (sample_state, [msg_id_exceeds_limit])
  /\ remove_timer 255 sample_state = (sample_state, [msg_id_exceeds_limit]).
Proof.
  assert (H1 : Z.of_nat TMR_NUM <= 10) by (unfold TMR_NUM; lia).
  assert (H2 : Z.of_nat TMR_NUM <= 255) by (unfold TMR_NUM; lia).
  split; [exact H1|]. split.
  - apply (invalid_id_rejected 10 25 sample_state H1).
  - apply (invalid_id_rejected 255 0 sample_state H2).
Defined.

(** C10. Right after [timer_interrupt] every active slot has a nonzero
    [remain]: a firing slot was reloaded with its nonzero [wait_us], any
    other active slot kept a nonzero difference.  Hence, while a timer is
    active, the compare register holds [last_update_timer_value] plus a
    nonzero [uint32] offset (the new minimum), and so differs from it.
    The handler of the theoretical variant leaves the same [wait_us],
    [remain] and registers. *)
Theorem timer_interrupt_remain_nonzero (s : state) :
  wf_state s ->
  let s' := timer_interrupt s in
  (forall j, (j < TMR_NUM)%nat -> active (slot s' j) -> remain (slot s' j) <> 0)
  /\ ((exists j, (j < TMR_NUM)%nat /\ active (slot s' j)) ->
      exists offset,
        is_min_remaining s' offset
        /\ 0 < offset < 2 ^ 32
        /\ tmr_cmp_reg s' = (last_update_timer_value s' + offset) mod 2 ^ 32
        /\ tmr_cmp_reg s' <> last_update_timer_value s')
  /\ (exists out, Theoretical.timer_interrupt (erase [] s) = erase out s').
Proof.
  intros Hwf s'.
  pose proof (wf_state_length s Hwf) as Hlen.
  pose proof (wf_timer_interrupt s Hwf) as Hwf'. fold s' in Hwf'.
  destruct (timer_interrupt_spec s Hlen) as (Hl & Hs & Hla & _ & Hc & _).
  fold s' in Hl, Hs, Hla, Hc.
  assert (Hnz : forall j, (j < TMR_NUM)%nat -> active (slot s' j) ->
                          remain (slot s' j) <> 0).
  { intros j Hj. rewrite Hs by done. unfold active, advance_slot.
    destruct (Z.eqb_spec (wait_us (slot s j)) 0) as [Hz|Hw]; [done|].
    destruct (Z.eqb_spec (wrap32 (remain (slot s j) - find_minimal_remain s)) 0);
      simpl; done. }
  split; [exact Hnz|]. split; [|apply erase_timer_interrupt].
  intros Hex. exists (find_minimal_remain s').
  pose proof (find_minimal_remain_min s' Hwf' Hex) as Hmin.
  split; [exact Hmin|].
  destruct Hmin as [(j & Hj & Hact & Hr) _].
  pose proof (Hnz j Hj Hact) as Hrnz.
  destruct (wf_state_slot s' j Hwf' Hj) as (_ & Hrange & _).
  apply wf_state_spec in Hwf' as (_ & _ & Hlast & _).
  rewrite Hr in Hrnz, Hrange. unfold is_uint32, UINT32_MOD in *.
  split; [lia|]. rewrite Hc, <- Hla. split; [reflexivity|].
  unfold wrap32, UINT32_MOD.
  set (a := last_update_timer_value s') in *.
  set (m := find_minimal_remain s') in *.
  destruct (Z.lt_ge_cases (a + m) (2 ^ 32)) as [Hlt|Hge].
  - rewrite Z.mod_small by lia. lia.
  - replace (a + m) with ((a + m - 2 ^ 32) + 1 * 2 ^ 32) by lia.
    rewrite Z.mod_add by lia. rewrite Z.mod_small by lia. lia.
Qed.

(** [sample_state] after the handler. *)
Lemma timer_interrupt_remain_nonzero_witness :
  wf_state sample_state
  /\ remain (slot (timer_interrupt sample_state) 1) <> 0
  /\ tmr_cmp_reg (timer_interrupt sample_state)
     <> last_update_timer_value (timer_interrupt sample_state).
Proof.
  assert (Hwf : wf_state sample_state) by reflexivity.
  destruct (timer_interrupt_remain_nonzero sample_state Hwf)
    as (Hnz & Hcmp & _).
  split; [exact Hwf|]. split.
  - apply Hnz; [unfold TMR_NUM; lia|]. vm_compute. discriminate.
  - destruct Hcmp as (offset & _ & _ & _ & Hne); [|exact Hne].
    exists 1%nat. split; [unfold TMR_NUM; lia|]. vm_compute. discriminate.
Defined.

(** * Part IV: the rest of the code *)

(** ** Display *)

Lemma display_loop s k :
  for_loop k
    (fun i '(out, all_timers_inactive) =>
       if negb (wait_us (slot s i) =? 0) then
         (out ++ [msg_timer_line i (slot s i)], false)
       else (out, all_timers_inactive))
    ([], true)
  = (map (fun i => msg_timer_line i (slot s i))
         (List.filter (fun i => negb (wait_us (slot s i) =? 0)) (seq 0 k)),
     match List.filter (fun i => negb (wait_us (slot s i) =? 0)) (seq 0 k) with
     | [] => true
     | _ => false
     end).
Proof.
  induction k as [|k IH]; [reflexivity|].
  rewrite for_loop_S, IH, seq_S, List.filter_app, map_app. cbn [List.filter].
  destruct (negb (wait_us (slot s (0 + k)) =? 0)) eqn:Hk.
  - cbn [Nat.add] in Hk. rewrite Hk. cbn [map]. f_equal.
    by destruct (List.filter _ (seq 0 k)).
  - cbn [Nat.add] in Hk. rewrite Hk. cbn [map]. by rewrite !app_nil_r.
Qed.

Lemma display_timers_eq s :
  display_timers s =
  match active_ids s with
  | [] => [msg_all_inactive]
  | _ => map (fun i => msg_timer_line i (slot s i)) (active_ids s)
  end.
Proof.
  unfold display_timers, active_ids. rewrite display_loop.
  by destruct (List.filter _ (seq 0 TMR_NUM)).
Qed.

Lemma active_ids_spec s i :
  In i (active_ids s) <-> (i < TMR_NUM)%nat /\ active (slot s i).
Proof.
  unfold active_ids, active. rewrite filter_In, in_seq, negb_true_iff, Z.eqb_neq.
  split; intros [? ?]; split; (done || lia).
Qed.

Lemma active_ids_nil s : active_ids s = [] <-> none_active s.
Proof.
  split.
  - intros Hnil j Hj Hact.
    assert (Hin : In j (active_ids s)) by by apply active_ids_spec.
    rewrite Hnil in Hin. destruct Hin.
  - intros Hnone. destruct (active_ids s) as [|i l] eqn:Hids; [done|].
    assert (Hin : In i (active_ids s)) by (rewrite Hids; by left).
    apply active_ids_spec in Hin as [Hi Hact]. destruct (Hnone i Hi Hact).
Qed.

Lemma filter_sorted (f : nat -> bool) l :
  StronglySorted lt l -> StronglySorted lt (List.filter f l).
Proof.
  induction 1 as [|a l Hs IH Hall]; [constructor|]. cbn [List.filter].
  destruct (f a); [|exact IH]. constructor; [exact IH|].
  rewrite List.Forall_forall in *. intros x Hx.
  apply Hall. by apply filter_In in Hx as [? _].
Qed.

Lemma seq_sorted n : forall a, StronglySorted lt (seq a n).
Proof.
  induction n as [|n IH]; intros a; [constructor|]. cbn [seq].
  constructor; [apply IH|]. rewrite List.Forall_forall. intros x Hx.
  apply in_seq in Hx. lia.
Qed.

Lemma msg_timer_line_not_all_inactive i t : msg_timer_line i t <> msg_all_inactive.
Proof. unfold msg_timer_line, msg_all_inactive. cbn [String.append]. discriminate. Qed.

(** X1. [display_timers] prints the single line "All timers are inactive"
    exactly when no slot is active; when a slot is active that line is not
    printed at all. *)
Theorem display_timers_all_inactive (s : state) :
  (none_active s <-> display_timers s = [msg_all_inactive])
  /\ ((exists j, (j < TMR_NUM)%nat /\ active (slot s j)) ->
      ~ In msg_all_inactive (display_timers s)).
Proof.
  rewrite display_timers_eq. split.
  - rewrite <- active_ids_nil. split.
    + by intros ->.
    + destruct (active_ids s) as [|i l]; [done|]. cbn [map]. intros Heq.
      pose proof (f_equal (fun l => nth 0 l EmptyString) Heq) as Hh.
      cbn [nth] in Hh. by apply msg_timer_line_not_all_inactive in Hh.
  - intros (j & Hj & Hact).
    destruct (active_ids s) as [|i l] eqn:Hids.
    { assert (Hin : In j (active_ids s)) by by apply active_ids_spec.
      rewrite Hids in Hin. destruct Hin. }
    intros Hin. apply in_map_iff in Hin as (k & Hk & _).
    by apply msg_timer_line_not_all_inactive in Hk.
Qed.

(** The table at program start, and [sample_state] with its timer 0. *)
Lemma display_timers_all_inactive_witness :
  display_timers initial_state = [msg_all_inactive]
  /\ ~ In msg_all_inactive (display_timers sample_state).
Proof.
  destruct (display_timers_all_inactive initial_state) as [[Hnone _] _].
  destruct (display_timers_all_inactive sample_state) as [_ Hsome].
  split.
  - apply Hnone. intros j Hj Hact. apply Hact. unfold TMR_NUM in Hj.
    do 10 (destruct j as [|j]; [reflexivity|]). lia.
  - apply Hsome. exists 0%nat. split; [unfold TMR_NUM; lia|].
    unfold active. cbn. lia.
Defined.

(** X2. When a slot is active, [display_timers] prints one line per active
    slot and nothing else, in increasing order of the index, each with the
    slot's index, [wait_us], [remain] and [times_fired]. *)
Theorem display_timers_lines (s : state) :
  (exists j, (j < TMR_NUM)%nat /\ active (slot s j)) ->
  display_timers s
  = map (fun i => msg_timer_line i (slot s i)) (active_ids s)
  /\ (forall i, In i (active_ids s) <-> (i < TMR_NUM)%nat /\ active (slot s i))
  /\ StronglySorted lt (active_ids s)
  /\ length (display_timers s) = length (active_ids s).
Proof.
  intros (j & Hj & Hact). rewrite display_timers_eq.
  destruct (active_ids s) as [|i l] eqn:Hids.
  { assert (Hin : In j (active_ids s)) by by apply active_ids_spec.
    rewrite Hids in Hin. destruct Hin. }
  rewrite <- Hids. split; [done|]. split; [apply active_ids_spec|].
  split; [apply filter_sorted, seq_sorted|]. by rewrite length_map.
Qed.

(** The display of [sample_state]. *)
Lemma display_timers_lines_witness :
  (exists j, (j < TMR_NUM)%nat /\ active (slot sample_state j))
  /\ active_ids sample_state = [0; 1; 3; 5]%nat
  /\ display_timers sample_state
     = [ ("Timer 0 - Interval: 100 us, Remain: 70 us, Times fired: 2"
          ++ newline)%string;
         ("Timer 1 - Interval: 30 us, Remain: 30 us, Times fired: 7"
          ++ newline)%string;
         ("Timer 3 - Interval: 50 us, Remain: 30 us, Times fired: 0"
          ++ newline)%string;
         ("Timer 5 - Interval: 40 us, Remain: 35 us, Times fired: 1"
          ++ newline)%string ].
Proof.
  assert (Hex : exists j, (j < TMR_NUM)%nat /\ active (slot sample_state j)).
  { exists 0%nat. split; [unfold TMR_NUM; lia|]. vm_compute. discriminate. }
  destruct (display_timers_lines sample_state Hex) as (Heq & _).
  split; [exact Hex|]. split; [reflexivity|].
  rewrite Heq. reflexivity.
Defined.

(** X3. Round trip: after a valid install with a nonzero period the
    display has a line for that id and it reads period [P], remaining [P],
    fired 0 times. *)
Theorem display_after_set_timer (timer_id P : Z) (s : state) :
  0 <= timer_id < Z.of_nat TMR_NUM ->
  P <> 0 ->
  length (timer_data s) = TMR_NUM ->
  let s' := fst (set_timer timer_id P s) in
  In (Z.to_nat timer_id) (active_ids s')
  /\ In (msg_timer_line (Z.to_nat timer_id) (mk_timer_data P P 0))
        (display_timers s')
  /\ display_timers s'
     = map (fun i => msg_timer_line i (slot s' i)) (active_ids s').
Proof.
  intros Hid HP Hlen s'.
  destruct (set_timer_spec timer_id P s Hid Hlen) as (_ & _ & Hs & _).
  fold s' in Hs.
  assert (Hslot : slot s' (Z.to_nat timer_id) = mk_timer_data P P 0).
  { rewrite Hs by lia. by rewrite decide_True. }
  assert (Hin : In (Z.to_nat timer_id) (active_ids s')).
  { apply active_ids_spec. split; [lia|]. by rewrite Hslot. }
  assert (Heq : display_timers s'
                = map (fun i => msg_timer_line i (slot s' i)) (active_ids s')).
  { rewrite display_timers_eq. destruct (active_ids s'); [destruct Hin|done]. }
  split; [exact Hin|]. split; [|exact Heq].
  rewrite Heq. apply in_map_iff. exists (Z.to_nat timer_id).
  by rewrite Hslot.
Qed.

(** Installing timer 2 on [sample_state] and displaying. *)
Lemma display_after_set_timer_witness :
  0 <= 2 < Z.of_nat TMR_NUM
  /\ In ("Timer 2 - Interval: 25 us, Remain: 25 us, Times fired: 0"
         ++ newline)%string
        (display_timers (fst (set_timer 2 25 sample_state))).
Proof.
  assert (Hid : 0 <= 2 < Z.of_nat TMR_NUM) by (unfold TMR_NUM; lia).
  assert (HP : 25 <> 0) by lia.
  destruct (display_after_set_timer 2 25 sample_state Hid HP eq_refl)
    as (_ & Hin & _).
  split; [exact Hid|exact Hin].
Defined.

Lemma filter_twice {A} (f g : A -> bool) l :
  List.filter (fun x => f x && g x) l = List.filter g (List.filter f l).
Proof.
  induction l as [|a l IH]; [reflexivity|]. cbn [List.filter].
  destruct (f a); cbn [andb List.filter]; [|exact IH].
  destruct (g a); by rewrite IH.
Qed.

(** X4. After [remove_timer] on a valid id the display is the display of
    the other active timers, unchanged: exactly the line of the removed
    timer is gone, and "All timers are inactive" is printed when it was the
    last one. *)
Theorem display_after_remove_timer (timer_id : Z) (s : state) :
  0 <= timer_id < Z.of_nat TMR_NUM ->
  length (timer_data s) = TMR_NUM ->
  let s' := fst (remove_timer timer_id s) in
  let others :=
    List.filter (fun i => negb (i =? Z.to_nat timer_id)%nat) (active_ids s) in
  active_ids s' = others
  /\ display_timers s'
     = match others with
       | [] => [msg_all_inactive]
       | _ => map (fun i => msg_timer_line i (slot s i)) others
       end.
Proof.
  intros Hid Hlen s' others.
  assert (Hother : forall j, j <> Z.to_nat timer_id -> slot s' j = slot s j).
  { intros j Hj. subst s'.
    destruct (decide (wait_us (slot s (Z.to_nat timer_id)) = 0)) as [Hz|Hnz].
    - by rewrite remove_timer_inactive; [|done|unfold active; lia].
    - rewrite remove_timer_active by done. cbn [fst].
      rewrite slot_store_slot by lia. by rewrite decide_False. }
  assert (Hnamed : wait_us (slot s' (Z.to_nat timer_id)) = 0).
  { subst s'.
    destruct (decide (wait_us (slot s (Z.to_nat timer_id)) = 0)) as [Hz|Hnz].
    - by rewrite remove_timer_inactive; [|done|unfold active; lia].
    - rewrite remove_timer_active by done. cbn [fst].
      rewrite slot_store_slot by lia. by rewrite decide_True. }
  assert (Hids : active_ids s' = others).
  { subst others. unfold active_ids. rewrite <- filter_twice.
    apply filter_ext. intros i.
    destruct (Nat.eqb_spec i (Z.to_nat timer_id)) as [->|Hne].
    - rewrite Hnamed. cbn. by rewrite andb_false_r.
    - rewrite Hother by done. cbn [negb]. by rewrite andb_true_r. }
  split; [exact Hids|].
  rewrite display_timers_eq, Hids.
  destruct others as [|i l] eqn:Ho; [done|]. rewrite <- Ho.
  apply map_ext_in. intros k Hk. rewrite Hother; [done|].
  subst others. apply filter_In in Hk as [_ Hk].
  apply negb_true_iff, Nat.eqb_neq in Hk. exact Hk.
Qed.

(** Removing timer 5, and then every other timer, from [sample_state]. *)
Lemma display_after_remove_timer_witness :
  0 <= 5 < Z.of_nat TMR_NUM
  /\ active_ids (fst (remove_timer 5 sample_state)) = [0; 1; 3]%nat
  /\ display_timers
       (run [OpRemoveTimer 0; OpRemoveTimer 1; OpRemoveTimer 3; OpRemoveTimer 5]
            sample_state)
     = [msg_all_inactive].
Proof.
  assert (Hid : 0 <= 5 < Z.of_nat TMR_NUM) by (unfold TMR_NUM; lia).
  destruct (display_after_remove_timer 5 sample_state Hid eq_refl) as (Hids & _).
  destruct (display_after_remove_timer 5
              (run [OpRemoveTimer 0; OpRemoveTimer 1; OpRemoveTimer 3]
                   sample_state) Hid eq_refl) as (_ & Hdisp).
  split; [exact Hid|]. split; [exact Hids|]. exact Hdisp.
Defined.

(** ** The counter thread *)

Lemma wrap32_add_eq v n c :
  is_uint32 c ->
  wrap32 (v + n) = c <-> wrap32 n = wrap32 (c - v).
Proof.
  unfold is_uint32, wrap32. intros Hc. split.
  - intros <-. rewrite Zminus_mod_idemp_l. f_equal. lia.
  - intros Hn. rewrite <- Zplus_mod_idemp_r, Hn, Zplus_mod_idemp_r.
    replace (v + (c - v)) with c by lia. by apply Z.mod_small.
Qed.

Lemma wrap32_idemp z : wrap32 (wrap32 z) = wrap32 z.
Proof. apply wrap32_small, wrap32_range. Qed.

Lemma ticks_S k s : ticks (S k) s = hw_tick (ticks k s).
Proof. reflexivity. Qed.

Lemma ticks_spec k s :
  timer_data (ticks k s) = timer_data s
  /\ last_update_timer_value (ticks k s) = last_update_timer_value s
  /\ tmr_cmp_reg (ticks k s) = tmr_cmp_reg s
  /\ tmr_clr_reg (ticks k s) = tmr_clr_reg s
  /\ wrap32 (tmr_val_reg (ticks k s)) = wrap32 (tmr_val_reg s + Z.of_nat k).
Proof.
  induction k as [|k (Ht & Hl & Hc & Hcl & Hv)].
  - cbn [ticks Nat.iter]. rewrite Z.add_0_r. done.
  - rewrite ticks_S. unfold hw_tick at 1 2 3 4 5.
    cbn [timer_data last_update_timer_value tmr_cmp_reg tmr_clr_reg tmr_val_reg].
    split; [done|]. split; [done|]. split; [done|]. split; [done|].
    rewrite wrap32_idemp. unfold wrap32 in *.
    rewrite <- Zplus_mod_idemp_l, Hv, Zplus_mod_idemp_l. f_equal. lia.
Qed.

Lemma interrupt_at_eq k s :
  interrupt_at k s
  = (wrap32 (tmr_val_reg s + Z.of_nat k + 1) =? tmr_cmp_reg s).
Proof.
  unfold interrupt_at, hw_timer_thread_pass, create_thread_simple.
  cbn [globals]. destruct (ticks_spec k s) as (_ & _ & Hc & _ & Hv).
  unfold hw_tick at 1 2.
  cbn [tmr_val_reg tmr_cmp_reg]. rewrite Hc.
  assert (Heq : wrap32 (tmr_val_reg (ticks k s) + 1)
                = wrap32 (tmr_val_reg s + Z.of_nat k + 1)).
  { unfold wrap32 in *. by rewrite <- Zplus_mod_idemp_l, Hv, Zplus_mod_idemp_l. }
  rewrite Heq.
  destruct (wrap32 (tmr_val_reg s + Z.of_nat k + 1) =? tmr_cmp_reg s);
    reflexivity.
Qed.

Lemma passes_to_interrupt_range s :
  1 <= passes_to_interrupt s <= UINT32_MOD.
Proof.
  unfold passes_to_interrupt.
  pose proof (wrap32_range (tmr_cmp_reg s - tmr_val_reg s)) as Hr.
  unfold is_uint32, UINT32_MOD in *.
  destruct (Z.eqb_spec (wrap32 (tmr_cmp_reg s - tmr_val_reg s)) 0); lia.
Qed.

Lemma first_interrupt_aux s k :
  is_uint32 (tmr_cmp_reg s) ->
  (Z.of_nat k + 1 < passes_to_interrupt s -> interrupt_at k s = false)
  /\ (Z.of_nat k + 1 = passes_to_interrupt s -> interrupt_at k s = true).
Proof.
  intros Hc. rewrite interrupt_at_eq.
  pose proof (wrap32_range (tmr_cmp_reg s - tmr_val_reg s)) as Hr.
  pose proof (wrap32_add_eq (tmr_val_reg s) (Z.of_nat k + 1) (tmr_cmp_reg s) Hc)
    as Hiff.
  replace (tmr_val_reg s + (Z.of_nat k + 1))
    with (tmr_val_reg s + Z.of_nat k + 1) in Hiff by lia.
  split.
  - intros Hlt. apply Z.eqb_neq. intros Heq. apply Hiff in Heq.
    unfold passes_to_interrupt in Hlt.
    unfold is_uint32, UINT32_MOD in *.
    destruct (Z.eqb_spec (wrap32 (tmr_cmp_reg s - tmr_val_reg s)) 0) as [Hz|Hnz].
    + rewrite Hz in Heq. rewrite wrap32_small in Heq
        by (unfold is_uint32, UINT32_MOD; lia). lia.
    + rewrite wrap32_small in Heq by (unfold is_uint32, UINT32_MOD; lia). lia.
  - intros Heq. apply Z.eqb_eq, Hiff.
    unfold passes_to_interrupt in Heq.
    unfold is_uint32, UINT32_MOD in *.
    destruct (Z.eqb_spec (wrap32 (tmr_cmp_reg s - tmr_val_reg s)) 0) as [Hz|Hnz].
    + rewrite Hz, Heq. reflexivity.
    + rewrite Heq. apply wrap32_idemp.
Qed.

(** X5. From any state, with no handler run and no call in between, the
    counter thread first starts the interrupt handler on pass number
    [passes_to_interrupt], the distance from the counter to the compare
    register (a full turn of [2^32] when they are equal), and on no earlier
    pass. *)
Theorem first_interrupt (s : state) (k : nat) :
  is_uint32 (tmr_cmp_reg s) ->
  (Z.of_nat k + 1 < passes_to_interrupt s -> interrupt_at k s = false)
  /\ (Z.of_nat k + 1 = passes_to_interrupt s -> interrupt_at k s = true)
  /\ 1 <= passes_to_interrupt s <= 2 ^ 32.
Proof.
  intros Hc. destruct (first_interrupt_aux s k Hc) as [Hbefore Hat].
  split; [exact Hbefore|]. split; [exact Hat|].
  apply passes_to_interrupt_range.
Qed.

(** [sample_state]: counter at 1010, compare register at 1030. *)
Lemma first_interrupt_witness :
  is_uint32 (tmr_cmp_reg sample_state)
  /\ passes_to_interrupt sample_state = 20
  /\ interrupt_at 18 sample_state = false
  /\ interrupt_at 19 sample_state = true.
Proof.
  assert (Hc : is_uint32 (tmr_cmp_reg sample_state))
    by (unfold is_uint32, UINT32_MOD; simpl; lia).
  destruct (first_interrupt sample_state 18 Hc) as (Hbefore & _).
  destruct (first_interrupt sample_state 19 Hc) as (_ & Hat & _).
  split; [exact Hc|]. split; [reflexivity|].
  split; [apply Hbefore|apply Hat]; vm_compute; reflexivity.
Defined.

Lemma find_minimal_remain_uint32 s :
  wf_state s -> is_uint32 (find_minimal_remain s).
Proof.
  intros Hwf.
  destruct (find_minimal_remain_spec s) as (Hmax & _ & [[-> _]|(j & Hj & _ & <-)]).
  - unfold is_uint32, UINT32_MOD, UINT32_MAX. lia.
  - by destruct (wf_state_slot s j Hwf Hj) as (_ & ? & _).
Qed.

(** After a write of [now + m] to the compare register with the counter at
    [now], the distance to the next compare match is [m], a full turn when
    [m] is 0. *)
Lemma passes_to_interrupt_armed s m :
  is_uint32 m ->
  tmr_cmp_reg s = wrap32 (tmr_val_reg s + m) ->
  passes_to_interrupt s = if m =? 0 then UINT32_MOD else m.
Proof.
  intros Hm Hc. unfold passes_to_interrupt. rewrite Hc.
  assert (Hd : wrap32 (wrap32 (tmr_val_reg s + m) - tmr_val_reg s) = m).
  { unfold wrap32. rewrite Zminus_mod_idemp_l.
    replace (tmr_val_reg s + m - tmr_val_reg s) with m by lia.
    by apply Z.mod_small. }
  by rewrite Hd.
Qed.

Lemma advance_slot_wait_us m t : wait_us (advance_slot m t) = wait_us t.
Proof.
  unfold advance_slot. destruct (wait_us t =? 0); [done|].
  by destruct (wrap32 (remain t - m) =? 0).
Qed.

Lemma advance_slot_remain_nonzero m t :
  active (advance_slot m t) -> remain (advance_slot m t) <> 0.
Proof.
  unfold active, advance_slot.
  destruct (Z.eqb_spec (wait_us t) 0) as [Hz|Hw]; [done|].
  destruct (Z.eqb_spec (wrap32 (remain t - m)) 0); simpl; done.
Qed.

(** X6. When the handler returns, the next compare match is exactly
    [min_remain] passes of the counter thread away, [min_remain] being the
    new least [remain] of the active timers, which is positive: the thread
    starts no handler on an earlier pass and starts one on that pass.  With
    no active timer the register is armed with the sentinel and the match
    is [2^32 - 1] passes away. *)
Theorem next_interrupt_after_handler (s : state) (k : nat) :
  wf_state s ->
  let s' := timer_interrupt s in
  let m := find_minimal_remain s' in
  ((exists j, (j < TMR_NUM)%nat /\ active (slot s' j)) ->
     is_min_remaining s' m /\ 0 < m
     /\ passes_to_interrupt s' = m
     /\ (Z.of_nat k + 1 < m -> interrupt_at k s' = false)
     /\ (Z.of_nat k + 1 = m -> interrupt_at k s' = true))
  /\ (none_active s' ->
      passes_to_interrupt s' = 2 ^ 32 - 1
      /\ (Z.of_nat k + 1 < 2 ^ 32 - 1 -> interrupt_at k s' = false)).
Proof.
  intros Hwf s' m.
  pose proof (wf_timer_interrupt s Hwf) as Hwf'. fold s' in Hwf'.
  destruct (timer_interrupt_spec s (wf_state_length s Hwf))
    as (_ & Hs & Hla & Hv & Hc & _).
  fold s' in Hs, Hla, Hv, Hc. fold m in Hc.
  pose proof (find_minimal_remain_uint32 s' Hwf') as Hm. fold m in Hm.
  assert (Hcmp : is_uint32 (tmr_cmp_reg s')).
  { by apply wf_state_spec in Hwf' as (_ & _ & _ & _ & ? & _). }
  assert (Hd : passes_to_interrupt s' = if m =? 0 then UINT32_MOD else m).
  { apply passes_to_interrupt_armed; [done|]. by rewrite Hv. }
  destruct (first_interrupt_aux s' k Hcmp) as (Hbefore & Hat).
  split.
  - intros Hex. pose proof (find_minimal_remain_min s' Hwf' Hex) as Hmin.
    fold m in Hmin. destruct Hmin as [(j & Hj & Hact & Hr) Hle].
    assert (Hpos : 0 < m).
    { pose proof Hact as Hnz. rewrite Hs in Hnz by done.
      apply advance_slot_remain_nonzero in Hnz. rewrite <- Hs in Hnz by done.
      unfold is_uint32 in Hm. lia. }
    destruct (Z.eqb_spec m 0) as [?|_]; [lia|].
    split; [split; [by exists j|done]|]. split; [done|]. split; [done|].
    rewrite <- Hd. split; [exact Hbefore|exact Hat].
  - intros Hnone. subst m. rewrite (find_minimal_remain_none s' Hnone) in Hd.
    change (UINT32_MAX =? 0) with false in Hd. cbv iota in Hd.
    rewrite Hd in *. split; [reflexivity|exact Hbefore].
Qed.

(** [sample_state] after the handler: timers 1 and 3 were reloaded, the
    least [remain] is 5 (timer 5). *)
Lemma next_interrupt_after_handler_witness :
  wf_state sample_state
  /\ find_minimal_remain (timer_interrupt sample_state) = 5
  /\ interrupt_at 3 (timer_interrupt sample_state) = false
  /\ interrupt_at 4 (timer_interrupt sample_state) = true.
Proof.
  assert (Hwf : wf_state sample_state) by reflexivity.
  assert (Hex : exists j, (j < TMR_NUM)%nat
                          /\ active (slot (timer_interrupt sample_state) j)).
  { exists 0%nat. split; [unfold TMR_NUM; lia|]. vm_compute. discriminate. }
  destruct (next_interrupt_after_handler sample_state 3 Hwf) as (H3 & _).
  destruct (next_interrupt_after_handler sample_state 4 Hwf) as (H4 & _).
  destruct (H3 Hex) as (_ & _ & _ & Hbefore & _).
  destruct (H4 Hex) as (_ & _ & _ & _ & Hat).
  split; [exact Hwf|]. split; [reflexivity|].
  split; [apply Hbefore|apply Hat]; vm_compute; reflexivity.
Defined.

Lemma wrap32_sub_zero a b :
  is_uint32 a -> is_uint32 b -> wrap32 (a - b) = 0 -> a = b.
Proof.
  unfold is_uint32, wrap32, UINT32_MOD. intros Ha Hb Hz.
  destruct (Z.lt_ge_cases a b) as [Hlt|Hge].
  - replace (a - b) with (a - b + 2 ^ 32 + (-1) * 2 ^ 32) in Hz by lia.
    rewrite Z.mod_add in Hz by lia. rewrite Z.mod_small in Hz by lia. lia.
  - rewrite Z.mod_small in Hz by lia. lia.
Qed.

Lemma rebase_slot_wait_us id d j t : wait_us (rebase_slot id d j t) = wait_us t.
Proof.
  unfold rebase_slot. destruct (id =? Z.of_nat j); [done|].
  by destruct (wait_us t =? 0).
Qed.

(** X7. When a valid install returns, the next compare match is
    [min_remain] passes of the counter thread away, [min_remain] being the
    least [remain] of the rebased table.  If another active timer was due
    at the very tick of the install (its [remain] equals the elapsed
    ticks), [min_remain] is 0, the register is armed with the current
    counter value, and the match only comes after a full turn of [2^32]
    passes.  Otherwise, the period being nonzero, [min_remain] is
    positive. *)
Theorem next_interrupt_after_set_timer (timer_id P : Z) (s : state) (k : nat) :
  0 <= timer_id < Z.of_nat TMR_NUM ->
  is_uint32 P ->
  wf_state s ->
  let s' := fst (set_timer timer_id P s) in
  let m := find_minimal_remain s' in
  passes_to_interrupt s' = (if m =? 0 then 2 ^ 32 else m)
  /\ (Z.of_nat k + 1 < passes_to_interrupt s' -> interrupt_at k s' = false)
  /\ (Z.of_nat k + 1 = passes_to_interrupt s' -> interrupt_at k s' = true)
  /\ ((exists j, (j < TMR_NUM)%nat /\ j <> Z.to_nat timer_id
                 /\ active (slot s j) /\ remain (slot s j) = elapsed s) ->
      m = 0 /\ passes_to_interrupt s' = 2 ^ 32)
  /\ (P <> 0 ->
      (forall j, (j < TMR_NUM)%nat -> j <> Z.to_nat timer_id ->
         active (slot s j) -> remain (slot s j) <> elapsed s) ->
      0 < m /\ is_min_remaining s' m).
Proof.
  intros Hid HP Hwf s' m.
  pose proof (wf_set_timer timer_id P s ltac:(lia) HP Hwf) as Hwf'.
  fold s' in Hwf'.
  destruct (set_timer_spec timer_id P s Hid (wf_state_length s Hwf))
    as (_ & _ & Hs & Hla & Hv & Hc & _).
  fold s' in Hs, Hla, Hv, Hc. fold m in Hc. fold (elapsed s) in Hs.
  pose proof (find_minimal_remain_uint32 s' Hwf') as Hm. fold m in Hm.
  assert (Hcmp : is_uint32 (tmr_cmp_reg s')).
  { by apply wf_state_spec in Hwf' as (_ & _ & _ & _ & ? & _). }
  assert (Hd : passes_to_interrupt s' = if m =? 0 then UINT32_MOD else m).
  { apply passes_to_interrupt_armed; [done|]. by rewrite Hv. }
  destruct (first_interrupt_aux s' k Hcmp) as (Hbefore & Hat).
  split; [exact Hd|]. split; [exact Hbefore|]. split; [exact Hat|]. split.
  - intros (j & Hj & Hne & Hact & Hr).
    assert (Hslot : slot s' j
              = mk_timer_data (wait_us (slot s j)) 0 (times_fired (slot s j))).
    { rewrite Hs by done. rewrite decide_False by done.
      rewrite rebase_slot_active by (done || lia).
      by rewrite Hr, Z.sub_diag. }
    assert (Hact' : active (slot s' j)) by by rewrite Hslot.
    pose proof (find_minimal_remain_bounds s' j Hwf' Hj Hact') as Hb.
    fold m in Hb. rewrite Hslot in Hb. cbn [remain] in Hb.
    assert (Hm0 : m = 0) by lia. split; [exact Hm0|].
    rewrite Hd, Hm0. reflexivity.
  - intros HP0 Hnot.
    assert (Hnamed : slot s' (Z.to_nat timer_id) = mk_timer_data P P 0).
    { rewrite Hs by lia. by rewrite decide_True. }
    assert (Hex : exists j, (j < TMR_NUM)%nat /\ active (slot s' j)).
    { exists (Z.to_nat timer_id). split; [lia|]. by rewrite Hnamed. }
    pose proof (find_minimal_remain_min s' Hwf' Hex) as Hmin. fold m in Hmin.
    split; [|exact Hmin].
    destruct Hmin as [(j & Hj & Hact & Hr) _].
    destruct (decide (j = Z.to_nat timer_id)) as [->|Hne].
    + rewrite Hnamed in Hr. cbn [remain] in Hr. unfold is_uint32 in HP. lia.
    + assert (Hacts : active (slot s j)).
      { unfold active in *. rewrite Hs in Hact by done.
        rewrite decide_False in Hact by done.
        by rewrite rebase_slot_wait_us in Hact. }
      rewrite Hs in Hr by done. rewrite decide_False in Hr by done.
      rewrite rebase_slot_active in Hr by (done || lia). cbn [remain] in Hr.
      destruct (decide (m = 0)) as [Hm0|Hm0]; [|unfold is_uint32 in Hm; lia].
      exfalso. apply (Hnot j Hj Hne Hacts).
      destruct (wf_state_slot s j Hwf Hj) as (_ & Hrj & _).
      apply wrap32_sub_zero; [done|apply wrap32_range|]. by rewrite Hr.
Qed.

(** Installing timer 2 on [sample_state] ten ticks after the baseline, and
    again thirty ticks after it, when timers 1 and 3 are due. *)
Lemma next_interrupt_after_set_timer_witness :
  0 <= 2 < Z.of_nat TMR_NUM
  /\ wf_state sample_state
  /\ passes_to_interrupt (fst (set_timer 2 25 sample_state)) = 20
  /\ interrupt_at 19 (fst (set_timer 2 25 sample_state)) = true
  /\ passes_to_interrupt
       (fst (set_timer 2 25 (ticks 20 sample_state))) = 2 ^ 32.
Proof.
  assert (Hid : 0 <= 2 < Z.of_nat TMR_NUM) by (unfold TMR_NUM; lia).
  assert (HP : is_uint32 25) by (unfold is_uint32, UINT32_MOD; lia).
  assert (Hwf : wf_state sample_state) by reflexivity.
  assert (Hwf20 : wf_state (ticks 20 sample_state)) by reflexivity.
  destruct (next_interrupt_after_set_timer 2 25 sample_state 19 Hid HP Hwf)
    as (Hd & _ & Hat & _).
  destruct (next_interrupt_after_set_timer 2 25 (ticks 20 sample_state) 0
              Hid HP Hwf20) as (_ & _ & _ & Hdue & _).
  split; [exact Hid|]. split; [exact Hwf|]. split; [exact Hd|].
  split; [apply Hat; vm_compute; reflexivity|].
  apply Hdue. exists 1%nat.
  split; [unfold TMR_NUM; lia|]. split; [lia|].
  split; [vm_compute; discriminate|reflexivity].
Defined.

(** ** Deadlines *)

(** X8. An install does not move the deadline of any other active timer:
    baseline plus [remain], as a tick of the 32-bit counter, is the same
    before and after, whatever the clock reads and even when the rebase
    wraps.  The installed timer is due [P] ticks after the clock reading. *)
Theorem set_timer_keeps_deadlines (timer_id P : Z) (s : state) :
  0 <= timer_id < Z.of_nat TMR_NUM ->
  length (timer_data s) = TMR_NUM ->
  let s' := fst (set_timer timer_id P s) in
  (forall j, (j < TMR_NUM)%nat -> j <> Z.to_nat timer_id ->
     active (slot s j) -> deadline s' j = deadline s j)
  /\ deadline s' (Z.to_nat timer_id) = (tmr_val_reg s + P) mod 2 ^ 32.
Proof.
  intros Hid Hlen s'.
  destruct (set_timer_spec timer_id P s Hid Hlen) as (_ & _ & Hs & Hla & _).
  fold s' in Hs, Hla. unfold deadline. rewrite Hla. split.
  - intros j Hj Hne Hact. rewrite Hs by done. rewrite decide_False by done.
    rewrite rebase_slot_active by (done || lia). cbn [remain].
    unfold wrap32. rewrite Zminus_mod_idemp_r, Zplus_mod_idemp_r.
    f_equal. lia.
  - rewrite Hs by lia. by rewrite decide_True.
Qed.

(** Installing timer 2 on [sample_state]: timer 0 stays due at tick 1070;
    with the clock one tick before a full turn its deadline wraps with the
    rebase and stays the same. *)
Lemma set_timer_keeps_deadlines_witness :
  0 <= 2 < Z.of_nat TMR_NUM
  /\ deadline sample_state 0 = 1070
  /\ deadline (fst (set_timer 2 25 sample_state)) 0 = 1070
  /\ deadline (fst (set_timer 2 25 sample_state)) 2 = 1035.
Proof.
  assert (Hid : 0 <= 2 < Z.of_nat TMR_NUM) by (unfold TMR_NUM; lia).
  destruct (set_timer_keeps_deadlines 2 25 sample_state Hid eq_refl)
    as (Hother & Hnamed).
  split; [exact Hid|]. split; [reflexivity|]. split; [|exact Hnamed].
  rewrite (Hother 0%nat); [reflexivity|unfold TMR_NUM; lia|lia|].
  vm_compute. discriminate.
Defined.

(** X9. The handler moves every active deadline by its own latency, the
    ticks between the deadline it serves (baseline plus minimum) and the
    clock reading it takes: a timer that does not fire is due [latency]
    ticks later than before, a timer that fires is next due one period
    plus [latency] after its deadline.  Run at the tick it was armed for,
    the handler leaves the other deadlines where they were and schedules
    the firing timers exactly one period later. *)
Theorem timer_interrupt_deadlines (s : state) (j : nat) :
  wf_state s ->
  (j < TMR_NUM)%nat ->
  active (slot s j) ->
  let s' := timer_interrupt s in
  (remain (slot s j) <> find_minimal_remain s ->
     deadline s' j = (deadline s j + latency s) mod 2 ^ 32)
  /\ (remain (slot s j) = find_minimal_remain s ->
      deadline s' j
      = (deadline s j + wait_us (slot s j) + latency s) mod 2 ^ 32)
  /\ (latency s = 0 ->
      (remain (slot s j) <> find_minimal_remain s ->
         deadline s' j = deadline s j)
      /\ (remain (slot s j) = find_minimal_remain s ->
          deadline s' j = (deadline s j + wait_us (slot s j)) mod 2 ^ 32)).
Proof.
  intros Hwf Hj Hact s'.
  destruct (timer_interrupt_spec s (wf_state_length s Hwf)) as (_ & Hs & Hla & _).
  fold s' in Hs, Hla.
  destruct (wf_state_slot s j Hwf Hj) as (_ & Hr & _).
  pose proof (find_minimal_remain_bounds s j Hwf Hj Hact) as Hm.
  assert (Hkeep : remain (slot s j) <> find_minimal_remain s ->
                  deadline s' j = (deadline s j + latency s) mod 2 ^ 32).
  { intros Hne. unfold deadline, latency. rewrite Hla, Hs by done.
    destruct (advance_slot_nofire _ _ Hact Hr Hm Hne) as [-> _].
    cbn [remain]. unfold wrap32, UINT32_MOD.
    rewrite Zplus_mod_idemp_r, Zplus_mod_idemp_l. f_equal. lia. }
  assert (Hfire : remain (slot s j) = find_minimal_remain s ->
                  deadline s' j
                  = (deadline s j + wait_us (slot s j) + latency s) mod 2 ^ 32).
  { intros Heq. unfold deadline, latency. rewrite Hla, Hs by done.
    rewrite advance_slot_fire by done. cbn [remain].
    unfold wrap32, UINT32_MOD.
    rewrite Zplus_mod_idemp_r, <- Z.add_assoc, Zplus_mod_idemp_l.
    f_equal. lia. }
  split; [exact Hkeep|]. split; [exact Hfire|].
  intros Hlat. split.
  - intros Hne. rewrite (Hkeep Hne), Hlat, Z.add_0_r.
    unfold deadline, wrap32, UINT32_MOD. apply Z.mod_mod. lia.
  - intros Heq. by rewrite (Hfire Heq), Hlat, Z.add_0_r.
Qed.

(** [sample_state] with the clock at 1030, the tick the register is armed
    for: timer 0 stays due at 1070, timer 1 (period 30, due at 1030) is next
    due at 1060. *)
Lemma timer_interrupt_deadlines_witness :
  wf_state (ticks 20 sample_state)
  /\ latency (ticks 20 sample_state) = 0
  /\ deadline (timer_interrupt (ticks 20 sample_state)) 0 = 1070
  /\ deadline (timer_interrupt (ticks 20 sample_state)) 1 = 1060.
Proof.
  assert (Hwf : wf_state (ticks 20 sample_state)) by reflexivity.
  assert (H0 : (0 < TMR_NUM)%nat) by (unfold TMR_NUM; lia).
  assert (H1 : (1 < TMR_NUM)%nat) by (unfold TMR_NUM; lia).
  assert (Ha0 : active (slot (ticks 20 sample_state) 0))
    by (vm_compute; discriminate).
  assert (Ha1 : active (slot (ticks 20 sample_state) 1))
    by (vm_compute; discriminate).
  destruct (timer_interrupt_deadlines (ticks 20 sample_state) 0 Hwf H0 Ha0)
    as (_ & _ & Hkeep).
  destruct (timer_interrupt_deadlines (ticks 20 sample_state) 1 Hwf H1 Ha1)
    as (_ & _ & Hfire).
  destruct (Hkeep eq_refl) as (Hk & _). destruct (Hfire eq_refl) as (_ & Hf).
  split; [exact Hwf|]. split; [reflexivity|]. split.
  - rewrite Hk; [reflexivity|vm_compute; discriminate].
  - rewrite Hf; reflexivity.
Defined.

(** ** Interrupts serviced at their tick *)

Lemma serviced_pass_eq s :
  serviced_pass s
  = if tmr_val_reg (hw_tick s) =? tmr_cmp_reg s then timer_interrupt (hw_tick s)
    else hw_tick s.
Proof.
  unfold serviced_pass, hw_timer_thread_pass, create_thread_simple.
  cbn [globals]. change (tmr_cmp_reg (hw_tick s)) with (tmr_cmp_reg s).
  destruct (tmr_val_reg (hw_tick s) =? tmr_cmp_reg s); reflexivity.
Qed.

Lemma elapsed_range s : is_uint32 (elapsed s).
Proof. apply wrap32_range. Qed.

Lemma armed_offset_range s : is_uint32 (armed_offset s).
Proof. apply wrap32_range. Qed.

(** After a write of [now + m] with baseline and counter at [now]. *)
Lemma just_armed s m :
  is_uint32 m ->
  last_update_timer_value s = tmr_val_reg s ->
  tmr_cmp_reg s = wrap32 (tmr_val_reg s + m) ->
  elapsed s = 0 /\ armed_offset s = m.
Proof.
  intros Hm Hla Hc. unfold elapsed, armed_offset. rewrite Hla, Hc, Z.sub_diag.
  split; [reflexivity|].
  unfold wrap32. rewrite Zminus_mod_idemp_l.
  replace (tmr_val_reg s + m - tmr_val_reg s) with m by lia.
  by apply Z.mod_small.
Qed.

Lemma on_schedule_timer_interrupt s :
  wf_state s -> on_schedule (timer_interrupt s).
Proof.
  intros Hwf Hex.
  pose proof (wf_timer_interrupt s Hwf) as Hwf'.
  destruct (timer_interrupt_spec s (wf_state_length s Hwf))
    as (_ & Hs & Hla & Hv & Hc & _).
  pose proof (find_minimal_remain_uint32 _ Hwf') as Hm.
  destruct (just_armed (timer_interrupt s) _ Hm) as [He Ha].
  { by rewrite Hla, Hv. }
  { by rewrite Hc, Hv. }
  rewrite He, Ha.
  destruct (find_minimal_remain_min _ Hwf' Hex) as [(j & Hj & Hact & Hr) Hle].
  split; [|exact Hle].
  pose proof Hact as Hnz. rewrite Hs in Hnz by done.
  apply advance_slot_remain_nonzero in Hnz. rewrite <- Hs in Hnz by done.
  unfold is_uint32 in Hm. lia.
Qed.

Lemma on_schedule_set_timer timer_id P s :
  0 <= timer_id -> is_uint32 P ->
  wf_state s -> on_schedule s ->
  on_schedule (fst (set_timer timer_id P s)).
Proof.
  intros Hid HP Hwf Hon.
  destruct (Z.le_gt_cases (Z.of_nat TMR_NUM) timer_id) as [Hge|Hlt].
  { by rewrite set_timer_invalid. }
  pose proof (wf_set_timer timer_id P s Hid HP Hwf) as Hwf'.
  destruct (set_timer_spec timer_id P s (conj Hid Hlt) (wf_state_length s Hwf))
    as (_ & _ & Hs & Hla & Hv & Hc & _).
  set (s' := fst (set_timer timer_id P s)) in *.
  fold (elapsed s) in Hs.
  pose proof (find_minimal_remain_uint32 _ Hwf') as Hm.
  destruct (just_armed s' _ Hm) as [He Ha].
  { by rewrite Hla, Hv. }
  { by rewrite Hc, Hv. }
  intros Hex. rewrite He, Ha.
  destruct (find_minimal_remain_min _ Hwf' Hex) as [(j & Hj & Hact & Hr) Hle].
  split; [|exact Hle]. rewrite <- Hr.
  rewrite Hs in Hact |- * by done. case_decide as Hd.
  - unfold active in Hact. unfold is_uint32 in HP. simpl in *. lia.
  - assert (Hacts : active (slot s j)).
    { unfold active in *. by rewrite rebase_slot_wait_us in Hact. }
    rewrite rebase_slot_active by done. cbn [remain].
    destruct Hon as [Hlt' Hall]; [by exists j|].
    specialize (Hall j Hj Hacts).
    destruct (wf_state_slot s j Hwf Hj) as (_ & Hrj & _).
    pose proof (elapsed_range s) as Her.
    unfold is_uint32 in *. rewrite wrap32_small by (unfold is_uint32; lia). lia.
Qed.

Lemma on_schedule_remove_timer timer_id s :
  0 <= timer_id ->
  wf_state s -> on_schedule s ->
  on_schedule (fst (remove_timer timer_id s)).
Proof.
  intros Hid Hwf Hon.
  destruct (Z.le_gt_cases (Z.of_nat TMR_NUM) timer_id) as [Hge|Hlt].
  { by rewrite remove_timer_invalid. }
  destruct (decide (wait_us (slot s (Z.to_nat timer_id)) = 0)) as [Hz|Hnz].
  { rewrite remove_timer_inactive; [done|lia|]. unfold active. lia. }
  rewrite remove_timer_active; [|lia|done]. cbn [fst].
  set (s' := store_slot _ _ s).
  assert (Hs : forall j, active (slot s' j) ->
                         active (slot s j) /\ slot s' j = slot s j).
  { intros j. subst s'.
    rewrite slot_store_slot by (rewrite (wf_state_length s Hwf); lia).
    case_decide; [|done]. unfold active. simpl. lia. }
  intros (j & Hj & Hact).
  destruct Hon as [Hlt' Hall]; [exists j; split; [done|by apply Hs]|].
  split; [exact Hlt'|].
  intros i Hi Hacti. destruct (Hs i Hacti) as [Ha ->]. by apply Hall.
Qed.

Lemma on_schedule_serviced_pass s :
  wf_state s -> on_schedule s -> on_schedule (serviced_pass s).
Proof.
  intros Hwf Hon. rewrite serviced_pass_eq.
  destruct (Z.eqb_spec (tmr_val_reg (hw_tick s)) (tmr_cmp_reg s)) as [Heq|Hne].
  { by apply on_schedule_timer_interrupt, wf_hw_tick. }
  intros Hex. destruct (Hon Hex) as [Hlt Hall].
  change (armed_offset (hw_tick s)) with (armed_offset s).
  split; [|exact Hall].
  pose proof (elapsed_range s) as Her. pose proof (armed_offset_range s) as Har.
  assert (He1 : elapsed (hw_tick s) = elapsed s + 1).
  { unfold elapsed, hw_tick. cbn [tmr_val_reg last_update_timer_value].
    unfold wrap32 in *. rewrite Zminus_mod_idemp_l.
    replace (tmr_val_reg s + 1 - last_update_timer_value s)
      with (tmr_val_reg s - last_update_timer_value s + 1) by lia.
    rewrite <- Zplus_mod_idemp_l. apply Z.mod_small.
    unfold is_uint32, elapsed, wrap32 in *. lia. }
  rewrite He1.
  destruct (decide (elapsed s + 1 = armed_offset s)) as [Hmatch|?]; [|lia].
  exfalso. apply Hne. rewrite <- He1 in Hmatch.
  unfold elapsed, armed_offset in Hmatch.
  assert (Hcmp : is_uint32 (tmr_cmp_reg s)).
  { by apply wf_state_spec in Hwf as (_ & _ & _ & _ & ? & _). }
  assert (Hval : is_uint32 (tmr_val_reg (hw_tick s))) by apply wrap32_range.
  change (last_update_timer_value (hw_tick s))
    with (last_update_timer_value s) in Hmatch.
  apply (wrap32_add_eq (last_update_timer_value s) _ _ Hcmp) in Hmatch.
  replace (last_update_timer_value s
           + (tmr_val_reg (hw_tick s) - last_update_timer_value s))
    with (tmr_val_reg (hw_tick s)) in Hmatch by lia.
  by rewrite (wrap32_small _ Hval) in Hmatch.
Qed.

Lemma on_schedule_on_time timer_id P s :
  on_schedule s -> no_missed_deadline (OpSetTimer timer_id P) s.
Proof.
  intros Hon _ j Hj _ Hact.
  destruct Hon as [Hlt Hall]; [by exists j|].
  specialize (Hall j Hj Hact). fold (elapsed s). lia.
Qed.

Lemma wf_serviced_pass s : wf_state s -> wf_state (serviced_pass s).
Proof.
  intros Hwf. rewrite serviced_pass_eq.
  destruct (tmr_val_reg (hw_tick s) =? tmr_cmp_reg s).
  - by apply wf_timer_interrupt, wf_hw_tick.
  - by apply wf_hw_tick.
Qed.

Lemma remaining_bounded_serviced_pass s :
  wf_state s -> remaining_bounded s -> remaining_bounded (serviced_pass s).
Proof.
  intros Hwf Hinv. rewrite serviced_pass_eq.
  destruct (tmr_val_reg (hw_tick s) =? tmr_cmp_reg s).
  - apply remaining_bounded_timer_interrupt; [by apply wf_hw_tick|exact Hinv].
  - exact Hinv.
Qed.

Lemma sys_step_invariant o s :
  sys_op_ok o ->
  wf_state s /\ remaining_bounded s /\ on_schedule s ->
  wf_state (sys_step o s) /\ remaining_bounded (sys_step o s)
  /\ on_schedule (sys_step o s).
Proof.
  intros Hok (Hwf & Hinv & Hon).
  destruct o as [timer_id wait|timer_id|]; cbn [sys_step sys_op_ok] in *.
  - destruct Hok as [[Hid _] Hwait].
    split; [by apply wf_set_timer|]. split; [|by apply on_schedule_set_timer].
    apply remaining_bounded_set_timer; try done. by apply on_schedule_on_time.
  - destruct Hok as [Hid _].
    split; [by apply wf_remove_timer|].
    split; [by apply remaining_bounded_remove_timer
           |by apply on_schedule_remove_timer].
  - split; [by apply wf_serviced_pass|].
    split; [by apply remaining_bounded_serviced_pass
           |by apply on_schedule_serviced_pass].
Qed.

Lemma sys_run_invariant ops : forall s,
  Forall sys_op_ok ops ->
  wf_state s /\ remaining_bounded s /\ on_schedule s ->
  wf_state (sys_run ops s) /\ remaining_bounded (sys_run ops s)
  /\ on_schedule (sys_run ops s).
Proof.
  induction ops as [|o ops IH]; intros s Hok Hs; [exact Hs|].
  apply Forall_cons in Hok as [Ho Hok].
  change (sys_run (o :: ops) s) with (sys_run ops (sys_step o s)).
  apply IH; [exact Hok|]. by apply sys_step_invariant.
Qed.

Lemma initial_state_on_schedule : on_schedule initial_state.
Proof.
  intros (j & Hj & Hact). exfalso.
  assert (Hnone : none_active initial_state) by by apply active_ids_nil.
  by apply (Hnone j Hj).
Qed.

(** X10. When every interrupt is serviced at its tick (the handler started
    by a pass of the counter thread runs before anything else happens),
    then after any sequence of installs, removals and passes from program
    start: every active timer satisfies [elapsed < remain <= wait_us], the
    compare register is ahead of the counter and not later than any active
    deadline, and no install is ever late for another timer. *)
Theorem serviced_run_invariant (ops : list sys_op) (s : state) :
  wf_state s ->
  remaining_bounded s ->
  on_schedule s ->
  Forall sys_op_ok ops ->
  let s' := sys_run ops s in
  wf_state s'
  /\ remaining_bounded s'
  /\ on_schedule s'
  /\ (forall j, (j < TMR_NUM)%nat -> active (slot s' j) ->
        elapsed s' < remain (slot s' j) <= wait_us (slot s' j))
  /\ (forall timer_id P, no_missed_deadline (OpSetTimer timer_id P) s')
  /\ (wf_state initial_state /\ remaining_bounded initial_state
      /\ on_schedule initial_state).
Proof.
  intros Hwf Hinv Hon Hok s'.
  destruct (sys_run_invariant ops s Hok (conj Hwf (conj Hinv Hon)))
    as (Hwf' & Hinv' & Hon').
  fold s' in Hwf', Hinv', Hon'.
  split; [exact Hwf'|]. split; [exact Hinv'|]. split; [exact Hon'|]. split.
  { intros j Hj Hact. destruct Hon' as [Hlt Hall]; [by exists j|].
    specialize (Hall j Hj Hact). specialize (Hinv' j Hj Hact). lia. }
  split; [intros timer_id P; by apply on_schedule_on_time|].
  split; [reflexivity|]. split; [by apply remaining_boundedb_spec|].
  apply initial_state_on_schedule.
Qed.

(** The run [serviced_ops] from program start: timer 1 has fired three
    times and is the only one left. *)
Lemma serviced_run_invariant_witness :
  wf_state initial_state
  /\ remaining_bounded initial_state
  /\ on_schedule initial_state
  /\ remaining_bounded (sys_run serviced_ops initial_state)
  /\ on_schedule (sys_run serviced_ops initial_state)
  /\ slot (sys_run serviced_ops initial_state) 1 = mk_timer_data 30 30 3.
Proof.
  assert (Hwf : wf_state initial_state) by reflexivity.
  assert (Hinv : remaining_bounded initial_state)
    by (by apply remaining_boundedb_spec).
  assert (Hok : Forall sys_op_ok serviced_ops).
  { unfold serviced_ops. cbn [replicate app].
    repeat (apply Forall_cons; split;
            [first [exact I | unfold sys_op_ok, is_uint32, UINT32_MOD; lia]|]).
    apply Forall_nil. exact I. }
  destruct (serviced_run_invariant serviced_ops initial_state Hwf Hinv
              initial_state_on_schedule Hok) as (_ & Hinv' & Hon' & _).
  split; [exact Hwf|]. split; [exact Hinv|].
  split; [exact initial_state_on_schedule|].
  split; [exact Hinv'|]. split; [exact Hon'|]. vm_compute. reflexivity.
Defined.

(** ** A timer alone *)

Lemma wrap32_shift_ne a d : 0 < d < 2 ^ 32 -> wrap32 (a + d) <> wrap32 a.
Proof.
  intros Hd Heq.
  assert (Hz : wrap32 (a + d - a) = 0).
  { unfold wrap32 in *. rewrite Zminus_mod, Heq, Z.sub_diag. reflexivity. }
  replace (a + d - a) with d in Hz by lia.
  rewrite wrap32_small in Hz by (unfold is_uint32, UINT32_MOD; lia). lia.
Qed.

Lemma lone_active_min x id P :
  wf_state x -> (id < TMR_NUM)%nat ->
  active (slot x id) -> remain (slot x id) = P ->
  (forall j, (j < TMR_NUM)%nat -> j <> id -> ~ active (slot x j)) ->
  find_minimal_remain x = P.
Proof.
  intros Hwf Hid Hact Hr Hlone.
  destruct (find_minimal_remain_min x Hwf) as [(j & Hj & Hactj & Hrj) _].
  { by exists id. }
  destruct (decide (j = id)) as [->|Hne]; [congruence|].
  destruct (Hlone j Hj Hne Hactj).
Qed.

Lemma lone_timer_start timer_id P s :
  0 <= timer_id < Z.of_nat TMR_NUM ->
  0 < P < 2 ^ 32 ->
  wf_state s ->
  (forall j, (j < TMR_NUM)%nat -> j <> Z.to_nat timer_id -> ~ active (slot s j)) ->
  lone_timer (Z.to_nat timer_id) P (tmr_val_reg s) s 0
    (fst (set_timer timer_id P s)).
Proof.
  intros Hid HP Hwf Hlone.
  assert (HwfP : is_uint32 P) by (unfold is_uint32, UINT32_MOD; lia).
  pose proof (wf_set_timer timer_id P s ltac:(lia) HwfP Hwf) as Hwf'.
  destruct (set_timer_spec timer_id P s Hid (wf_state_length s Hwf))
    as (_ & _ & Hs & Hla & Hv & Hc & _).
  set (s' := fst (set_timer timer_id P s)) in *.
  assert (Hnamed : slot s' (Z.to_nat timer_id) = mk_timer_data P P 0).
  { rewrite Hs by lia. by rewrite decide_True. }
  assert (Hothers : forall j, (j < TMR_NUM)%nat -> j <> Z.to_nat timer_id ->
                              slot s' j = slot s j).
  { intros j Hj Hne. rewrite Hs by done. rewrite decide_False by done.
    apply rebase_slot_inactive. by apply Hlone. }
  assert (Hval : is_uint32 (tmr_val_reg s)).
  { by apply wf_state_spec in Hwf as (_ & _ & _ & ? & _). }
  assert (Hmin : find_minimal_remain s' = P).
  { apply (lone_active_min s' (Z.to_nat timer_id)); try done; try lia.
    - rewrite Hnamed. unfold active. simpl. lia.
    - by rewrite Hnamed.
    - intros j Hj Hne. rewrite Hothers by done. by apply Hlone. }
  split; [exact Hwf'|]. rewrite Z.div_0_l by lia.
  split; [exact Hnamed|]. split; [exact Hothers|].
  rewrite Hv, Hla, Hc, Hmin, Z.mul_0_r, !Z.add_0_r, Z.mul_1_r.
  by rewrite (wrap32_small _ Hval).
Qed.

Lemma lone_timer_step id P t s k x :
  (id < TMR_NUM)%nat ->
  0 < P < 2 ^ 32 ->
  0 <= k ->
  (forall j, (j < TMR_NUM)%nat -> j <> id -> ~ active (slot s j)) ->
  lone_timer id P t s k x ->
  lone_timer id P t s (k + 1) (serviced_pass x).
Proof.
  intros Hid HP Hk Hlone (Hwf & Hslot & Hothers & Hv & Hla & Hc).
  pose proof (wf_hw_tick x Hwf) as Hwf1.
  pose proof (Z.div_mod k P ltac:(lia)) as Hdm.
  pose proof (Z.mod_pos_bound k P ltac:(lia)) as Hr.
  assert (Hval1 : tmr_val_reg (hw_tick x) = wrap32 (t + (k + 1))).
  { unfold hw_tick. cbn [tmr_val_reg]. rewrite Hv. unfold wrap32.
    rewrite Zplus_mod_idemp_l. f_equal. lia. }
  rewrite serviced_pass_eq, Hval1, Hc.
  destruct (decide (k mod P = P - 1)) as [Hlast|Hnot].
  - (* the pass reaches the deadline *)
    assert (Hq : (k + 1) / P = k / P + 1).
    { symmetry. apply (Z.div_unique (k + 1) P (k / P + 1) 0); lia. }
    assert (Hkq : k + 1 = P * (k / P + 1)) by lia.
    rewrite <- Hkq, Z.eqb_refl.
    pose proof (wf_timer_interrupt _ Hwf1) as Hwf'.
    destruct (timer_interrupt_spec (hw_tick x) (wf_state_length _ Hwf1))
      as (_ & Hs & Hla' & Hv' & Hc' & _).
    set (x' := timer_interrupt (hw_tick x)) in *.
    assert (Hact : active (slot (hw_tick x) id)).
    { change (slot (hw_tick x) id) with (slot x id). rewrite Hslot.
      unfold active. simpl. lia. }
    assert (Hmin : find_minimal_remain (hw_tick x) = P).
    { apply (lone_active_min _ id); try done.
      - change (slot (hw_tick x) id) with (slot x id). by rewrite Hslot.
      - intros j Hj Hne. change (slot (hw_tick x) j) with (slot x j).
        rewrite Hothers by done. by apply Hlone. }
    assert (Hslot' : slot x' id
              = mk_timer_data P P (wrap32 ((k + 1) / P))).
    { rewrite Hs, Hmin by done.
      rewrite advance_slot_fire
        by (done || (change (slot (hw_tick x) id) with (slot x id);
                     by rewrite Hslot)).
      change (slot (hw_tick x) id) with (slot x id). rewrite Hslot.
      cbn [wait_us times_fired]. rewrite Hq. f_equal.
      unfold wrap32. by rewrite Zplus_mod_idemp_l. }
    assert (Hothers' : forall j, (j < TMR_NUM)%nat -> j <> id ->
                                 slot x' j = slot s j).
    { intros j Hj Hne. rewrite Hs by done.
      change (slot (hw_tick x) j) with (slot x j). rewrite Hothers by done.
      apply advance_slot_inactive. by apply Hlone. }
    assert (Hmin' : find_minimal_remain x' = P).
    { apply (lone_active_min _ id); try done.
      - rewrite Hslot'. unfold active. simpl. lia.
      - by rewrite Hslot'.
      - intros j Hj Hne. rewrite Hothers' by done. by apply Hlone. }
    split; [exact Hwf'|]. split; [exact Hslot'|]. split; [exact Hothers'|].
    rewrite Hv', Hla', Hc', Hmin', Hval1, Hq.
    split; [reflexivity|]. split; [by rewrite <- Hkq|].
    unfold wrap32. rewrite Zplus_mod_idemp_l. f_equal. lia.
  - (* no compare match on this pass *)
    assert (Hq : (k + 1) / P = k / P).
    { symmetry. apply (Z.div_unique (k + 1) P (k / P) (k mod P + 1)); lia. }
    destruct (Z.eqb_spec (wrap32 (t + (k + 1))) (wrap32 (t + P * (k / P + 1))))
      as [Heq|_].
    { exfalso.
      apply (wrap32_shift_ne (t + (k + 1)) (P - 1 - k mod P)); [lia|].
      rewrite Heq. f_equal. lia. }
    split; [exact Hwf1|]. rewrite Hq.
    split; [exact Hslot|]. split; [exact Hothers|].
    split; [exact Hval1|]. split; [exact Hla|exact Hc].
Qed.

(** X11. Periodic firing.  A timer of period [P] installed alone and left
    to the counter thread, every interrupt serviced at its tick, has fired
    exactly [k / P] times (as a [uint32]) after [k] passes, whatever the
    clock read at the install and across wrap-arounds of the counter:
    [remain] always reads [P], the baseline is the tick of the last firing
    and the compare register the tick of the next one. *)
Theorem lone_timer_fires_periodically (timer_id P : Z) (s : state) (k : nat) :
  0 <= timer_id < Z.of_nat TMR_NUM ->
  0 < P < 2 ^ 32 ->
  wf_state s ->
  (forall j, (j < TMR_NUM)%nat -> j <> Z.to_nat timer_id -> ~ active (slot s j)) ->
  let now := tmr_val_reg s in
  let sk := serviced_passes k (fst (set_timer timer_id P s)) in
  slot sk (Z.to_nat timer_id)
  = mk_timer_data P P ((Z.of_nat k / P) mod 2 ^ 32)
  /\ (forall j, (j < TMR_NUM)%nat -> j <> Z.to_nat timer_id ->
        slot sk j = slot s j)
  /\ tmr_val_reg sk = (now + Z.of_nat k) mod 2 ^ 32
  /\ last_update_timer_value sk = (now + P * (Z.of_nat k / P)) mod 2 ^ 32
  /\ tmr_cmp_reg sk = (now + P * (Z.of_nat k / P + 1)) mod 2 ^ 32.
Proof.
  intros Hid HP Hwf Hlone now sk.
  assert (H : lone_timer (Z.to_nat timer_id) P now s (Z.of_nat k) sk).
  { subst sk. induction k as [|k IH].
    - by apply lone_timer_start.
    - rewrite Nat2Z.inj_succ, <- Z.add_1_r.
      change (serviced_passes (S k) ?x)
        with (serviced_pass (serviced_passes k x)).
      apply lone_timer_step; try done; lia. }
  destruct H as (_ & H1 & H2 & H3 & H4 & H5).
  split; [exact H1|]. split; [exact H2|]. split; [exact H3|].
  split; [exact H4|exact H5].
Qed.

(** A timer of period 7 installed on the empty table five ticks before the
    counter wraps: three firings in 23 passes, the counter then at 18. *)
Lemma lone_timer_fires_periodically_witness :
  0 <= 3 < Z.of_nat TMR_NUM
  /\ wf_state late_clock_state
  /\ slot (serviced_passes 23 (fst (set_timer 3 7 late_clock_state))) 3
     = mk_timer_data 7 7 3
  /\ tmr_val_reg (serviced_passes 23 (fst (set_timer 3 7 late_clock_state)))
     = 18.
Proof.
  assert (Hid : 0 <= 3 < Z.of_nat TMR_NUM) by (unfold TMR_NUM; lia).
  assert (HP : 0 < 7 < 2 ^ 32) by lia.
  assert (Hwf : wf_state late_clock_state) by reflexivity.
  assert (Hlone : forall j, (j < TMR_NUM)%nat -> j <> Z.to_nat 3 ->
                            ~ active (slot late_clock_state j)).
  { intros j Hj _. by apply active_ids_nil. }
  destruct (lone_timer_fires_periodically 3 7 late_clock_state 23
              Hid HP Hwf Hlone) as (Hslot & _ & Hval & _).
  split; [exact Hid|]. split; [exact Hwf|]. split; [exact Hslot|exact Hval].
Defined.

(** ** How the operations compose *)

Lemma prod_eq {A B} (p q : A * B) : fst p = fst q -> snd p = snd q -> p = q.
Proof. destruct p, q. simpl. by intros -> ->. Qed.

Lemma set_timer_determined timer_id P s1 s2 :
  0 <= timer_id < Z.of_nat TMR_NUM ->
  length (timer_data s1) = TMR_NUM ->
  length (timer_data s2) = TMR_NUM ->
  (forall j, (j < TMR_NUM)%nat -> j <> Z.to_nat timer_id ->
     rebase_slot timer_id
       (wrap32 (tmr_val_reg s1 - last_update_timer_value s1)) j (slot s1 j)
     = rebase_slot timer_id
         (wrap32 (tmr_val_reg s2 - last_update_timer_value s2)) j (slot s2 j)) ->
  tmr_val_reg s1 = tmr_val_reg s2 ->
  tmr_clr_reg s1 = tmr_clr_reg s2 ->
  set_timer timer_id P s1 = set_timer timer_id P s2.
Proof.
  intros Hid Hlen1 Hlen2 Hslots Hval Hclr.
  pose proof (set_timer_spec timer_id P s1 Hid Hlen1) as H1.
  pose proof (set_timer_spec timer_id P s2 Hid Hlen2) as H2.
  set (r1 := set_timer timer_id P s1) in *.
  set (r2 := set_timer timer_id P s2) in *.
  clearbody r1 r2. cbv zeta in H1, H2.
  destruct H1 as (Ho1 & Hl1 & Hs1 & Hla1 & Hv1 & Hc1 & Hcl1).
  destruct H2 as (Ho2 & Hl2 & Hs2 & Hla2 & Hv2 & Hc2 & Hcl2).
  assert (Heq : forall j, (j < TMR_NUM)%nat -> slot (fst r1) j = slot (fst r2) j).
  { intros j Hj. rewrite Hs1, Hs2 by done. case_decide; [done|].
    by apply Hslots. }
  apply prod_eq; [|by rewrite Ho1, Ho2].
  apply state_ext.
  - by rewrite Hl1, Hl2.
  - intros j Hj. apply Heq. by rewrite <- Hl1.
  - by rewrite Hla1, Hla2.
  - by rewrite Hv1, Hv2.
  - rewrite Hc1, Hc2, Hval. f_equal. f_equal.
    by apply find_minimal_remain_ext.
  - by rewrite Hcl1, Hcl2.
Qed.

(** X12. An install overwrites: its result does not depend on what the
    named slot held before.  Two states that differ only in that slot give
    the same state and output; in particular removing a timer and
    installing it is the same as installing it. *)
Theorem set_timer_overwrites (timer_id P : Z) (s1 s2 : state) :
  0 <= timer_id < Z.of_nat TMR_NUM ->
  length (timer_data s1) = TMR_NUM ->
  length (timer_data s2) = TMR_NUM ->
  (forall j, (j < TMR_NUM)%nat -> j <> Z.to_nat timer_id ->
     slot s1 j = slot s2 j) ->
  last_update_timer_value s1 = last_update_timer_value s2 ->
  tmr_val_reg s1 = tmr_val_reg s2 ->
  tmr_clr_reg s1 = tmr_clr_reg s2 ->
  set_timer timer_id P s1 = set_timer timer_id P s2
  /\ fst (set_timer timer_id P (fst (remove_timer timer_id s1)))
     = fst (set_timer timer_id P s1).
Proof.
  intros Hid Hlen1 Hlen2 Hslots Hlast Hval Hclr. split.
  - apply set_timer_determined; try done.
    intros j Hj Hne. by rewrite Hslots, Hlast, Hval.
  - destruct (decide (wait_us (slot s1 (Z.to_nat timer_id)) = 0)) as [Hz|Hnz].
    { by rewrite remove_timer_inactive; [|done|unfold active; lia]. }
    rewrite remove_timer_active by done. cbn [fst].
    set (s0 := store_slot (Z.to_nat timer_id) (fun _ => timer_zero) s1).
    assert (Heq : set_timer timer_id P s0 = set_timer timer_id P s1).
    { apply set_timer_determined; try done.
      - subst s0. by rewrite length_store_slot.
      - intros j Hj Hne. subst s0. rewrite slot_store_slot by lia.
        by rewrite decide_False. }
    by rewrite Heq.
Qed.

(** Installing timer 2 on [sample_state] and on [sample_state_alt], which
    holds another timer there. *)
Lemma set_timer_overwrites_witness :
  0 <= 2 < Z.of_nat TMR_NUM
  /\ sample_state <> sample_state_alt
  /\ set_timer 2 25 sample_state = set_timer 2 25 sample_state_alt
  /\ fst (set_timer 2 25 (fst (remove_timer 2 sample_state_alt)))
     = fst (set_timer 2 25 sample_state_alt).
Proof.
  assert (Hid : 0 <= 2 < Z.of_nat TMR_NUM) by (unfold TMR_NUM; lia).
  assert (Hslots : forall j, (j < TMR_NUM)%nat -> j <> Z.to_nat 2 ->
                             slot sample_state j = slot sample_state_alt j).
  { intros j Hj Hne.
    do 10 (destruct j as [|j]; [first [reflexivity | by destruct Hne]|]).
    unfold TMR_NUM in Hj. lia. }
  assert (Hslots' : forall j, (j < TMR_NUM)%nat -> j <> Z.to_nat 2 ->
                              slot sample_state_alt j = slot sample_state j).
  { intros j Hj Hne. symmetry. by apply Hslots. }
  destruct (set_timer_overwrites 2 25 sample_state sample_state_alt Hid
              eq_refl eq_refl Hslots eq_refl eq_refl eq_refl) as (Hsame & _).
  destruct (set_timer_overwrites 2 25 sample_state_alt sample_state Hid
              eq_refl eq_refl Hslots' eq_refl eq_refl eq_refl) as (_ & Hrem).
  split; [exact Hid|]. split; [discriminate|].
  split; [exact Hsame|exact Hrem].
Defined.

Lemma rebase_slot_again a b e j t :
  0 <= a -> 0 <= b -> j <> Z.to_nat a -> j <> Z.to_nat b ->
  rebase_slot a (wrap32 0) j (rebase_slot b e j t) = rebase_slot b e j t
  /\ rebase_slot a e j t = rebase_slot b e j t.
Proof.
  intros Ha Hb Hja Hjb. unfold rebase_slot.
  destruct (Z.eqb_spec a (Z.of_nat j)); [lia|].
  destruct (Z.eqb_spec b (Z.of_nat j)); [lia|].
  destruct (wait_us t =? 0) eqn:Hw; [by rewrite Hw|].
  cbn [wait_us remain times_fired]. rewrite Hw. split; [|done].
  f_equal. change (wrap32 0) with 0. rewrite Z.sub_0_r. apply wrap32_idemp.
Qed.

Lemma rebase_slot_installed a j P :
  is_uint32 P ->
  rebase_slot a (wrap32 0) j (installed_slot P) = installed_slot P.
Proof.
  intros HP. unfold rebase_slot, installed_slot.
  destruct (a =? Z.of_nat j); [done|]. cbn [wait_us remain times_fired].
  destruct (P =? 0); [done|]. f_equal.
  change (wrap32 0) with 0. rewrite Z.sub_0_r. by apply wrap32_small.
Qed.

(** Two installs in a row, the second ([a]) after the first ([b]). *)
Lemma set_timer_twice a Pa b Pb s :
  0 <= a < Z.of_nat TMR_NUM ->
  0 <= b < Z.of_nat TMR_NUM ->
  is_uint32 Pb ->
  length (timer_data s) = TMR_NUM ->
  let r := set_timer a Pa (fst (set_timer b Pb s)) in
  let e := wrap32 (tmr_val_reg s - last_update_timer_value s) in
  snd r = []
  /\ length (timer_data (fst r)) = TMR_NUM
  /\ (forall j, (j < TMR_NUM)%nat ->
       slot (fst r) j =
       if decide (j = Z.to_nat a) then installed_slot Pa
       else if decide (j = Z.to_nat b) then installed_slot Pb
       else rebase_slot b e j (slot s j))
  /\ last_update_timer_value (fst r) = tmr_val_reg s
  /\ tmr_val_reg (fst r) = tmr_val_reg s
  /\ tmr_cmp_reg (fst r) = wrap32 (tmr_val_reg s + find_minimal_remain (fst r))
  /\ tmr_clr_reg (fst r) = tmr_clr_reg s.
Proof.
  intros Ha Hb HPb Hlen.
  pose proof (set_timer_spec b Pb s Hb Hlen) as H1.
  set (r1 := set_timer b Pb s) in *. clearbody r1. cbv zeta in H1.
  destruct H1 as (_ & Hl1 & Hs1 & Hla1 & Hv1 & _ & Hcl1).
  pose proof (set_timer_spec a Pa (fst r1) Ha Hl1) as H2.
  set (r2 := set_timer a Pa (fst r1)) in *. clearbody r2. cbv zeta in *.
  destruct H2 as (Ho2 & Hl2 & Hs2 & Hla2 & Hv2 & Hc2 & Hcl2).
  rewrite Hla1, Hv1, Z.sub_diag in Hs2.
  split; [exact Ho2|]. split; [exact Hl2|]. split.
  { intros j Hj. rewrite Hs2 by done. case_decide as Hja; [done|].
    rewrite Hs1 by done. case_decide as Hjb.
    - by apply rebase_slot_installed.
    - by apply rebase_slot_again; lia. }
  rewrite Hla2, Hv2, Hc2, Hcl2, Hv1, Hcl1. done.
Qed.

(** X13. Installs made at the same clock reading compose as one: two
    installs of different timers give the same state in either order, and
    of two installs of the same timer only the second counts. *)
Theorem set_timer_same_tick (a Pa b Pb : Z) (s : state) :
  0 <= a < Z.of_nat TMR_NUM ->
  0 <= b < Z.of_nat TMR_NUM ->
  is_uint32 Pa ->
  is_uint32 Pb ->
  length (timer_data s) = TMR_NUM ->
  (a <> b ->
     set_timer a Pa (fst (set_timer b Pb s))
     = set_timer b Pb (fst (set_timer a Pa s)))
  /\ set_timer a Pa (fst (set_timer a Pb s)) = set_timer a Pa s.
Proof.
  intros Ha Hb HPa HPb Hlen.
  pose proof (set_timer_twice a Pa b Pb s Ha Hb HPb Hlen) as Hab.
  pose proof (set_timer_twice b Pb a Pa s Hb Ha HPa Hlen) as Hba.
  pose proof (set_timer_twice a Pa a Pb s Ha Ha HPb Hlen) as Haa.
  pose proof (set_timer_spec a Pa s Ha Hlen) as H1.
  set (rab := set_timer a Pa (fst (set_timer b Pb s))) in *.
  set (rba := set_timer b Pb (fst (set_timer a Pa s))) in *.
  set (raa := set_timer a Pa (fst (set_timer a Pb s))) in *.
  set (ra := set_timer a Pa s) in *.
  clearbody rab rba raa ra. cbv zeta in *.
  destruct Hab as (Ho1 & Hl1 & Hs1 & Hla1 & Hv1 & Hc1 & Hcl1).
  destruct Hba as (Ho2 & Hl2 & Hs2 & Hla2 & Hv2 & Hc2 & Hcl2).
  destruct Haa as (Ho3 & Hl3 & Hs3 & Hla3 & Hv3 & Hc3 & Hcl3).
  destruct H1 as (Ho4 & Hl4 & Hs4 & Hla4 & Hv4 & Hc4 & Hcl4).
  split.
  - intros Hne.
    assert (Heq : forall j, (j < TMR_NUM)%nat ->
                            slot (fst rab) j = slot (fst rba) j).
    { intros j Hj. rewrite Hs1, Hs2 by done.
      repeat case_decide; subst; try done; try lia.
      by apply rebase_slot_again; lia. }
    apply prod_eq; [|by rewrite Ho1, Ho2].
    apply state_ext.
    + by rewrite Hl1, Hl2.
    + intros j Hj. apply Heq. by rewrite <- Hl1.
    + by rewrite Hla1, Hla2.
    + by rewrite Hv1, Hv2.
    + rewrite Hc1, Hc2. f_equal. f_equal. by apply find_minimal_remain_ext.
    + by rewrite Hcl1, Hcl2.
  - assert (Heq : forall j, (j < TMR_NUM)%nat ->
                            slot (fst raa) j = slot (fst ra) j).
    { intros j Hj. rewrite Hs3, Hs4 by done. by repeat case_decide. }
    apply prod_eq; [|by rewrite Ho3, Ho4].
    apply state_ext.
    + by rewrite Hl3, Hl4.
    + intros j Hj. apply Heq. by rewrite <- Hl3.
    + by rewrite Hla3, Hla4.
    + by rewrite Hv3, Hv4.
    + rewrite Hc3, Hc4. f_equal. f_equal. by apply find_minimal_remain_ext.
    + by rewrite Hcl3, Hcl4.
Qed.

(** Timers 2 and 4 installed on [sample_state] in either order. *)
Lemma set_timer_same_tick_witness :
  0 <= 2 < Z.of_nat TMR_NUM
  /\ 0 <= 4 < Z.of_nat TMR_NUM
  /\ set_timer 2 25 (fst (set_timer 4 60 sample_state))
     = set_timer 4 60 (fst (set_timer 2 25 sample_state))
  /\ set_timer 2 25 (fst (set_timer 2 60 sample_state))
     = set_timer 2 25 sample_state.
Proof.
  assert (H2 : 0 <= 2 < Z.of_nat TMR_NUM) by (unfold TMR_NUM; lia).
  assert (H4 : 0 <= 4 < Z.of_nat TMR_NUM) by (unfold TMR_NUM; lia).
  assert (HP2 : is_uint32 25) by (unfold is_uint32, UINT32_MOD; lia).
  assert (HP4 : is_uint32 60) by (unfold is_uint32, UINT32_MOD; lia).
  destruct (set_timer_same_tick 2 25 4 60 sample_state H2 H4 HP2 HP4 eq_refl)
    as (Hcomm & _).
  destruct (set_timer_same_tick 2 25 2 60 sample_state H2 H2 HP2 HP4 eq_refl)
    as (_ & Hlast).
  split; [exact H2|]. split; [exact H4|].
  split; [apply Hcomm; lia|exact Hlast].
Defined.

(** ** The table across operations *)

Lemma slot_hw_tick s j : slot (hw_tick s) j = slot s j.
Proof. reflexivity. Qed.

(** What an operation does to a slot: it leaves it alone, zeroes it,
    installs it, or rewrites an active slot it does not name, keeping its
    period. *)
Lemma step_slot o s j :
  op_ok o -> length (timer_data s) = TMR_NUM -> (j < TMR_NUM)%nat ->
  slot (step o s) j = slot s j
  \/ (names j o = true
      /\ (slot (step o s) j = timer_zero
          \/ active (slot (step o s) j)))
  \/ (names j o = false /\ active (slot s j)
      /\ wait_us (slot (step o s) j) = wait_us (slot s j)).
Proof.
  intros Hok Hlen Hj.
  destruct o as [timer_id wait|timer_id| |]; cbn [step names op_ok] in *.
  - destruct (Z_lt_le_dec timer_id (Z.of_nat TMR_NUM)) as [Hlt|Hge].
    + assert (Hid : 0 <= timer_id < Z.of_nat TMR_NUM) by lia.
      pose proof (set_timer_spec timer_id wait s Hid Hlen) as H.
      set (r := set_timer timer_id wait s) in *. clearbody r.
      cbv zeta in H. destruct H as (_ & _ & Hs & _).
      rewrite (Hs j Hj). case_decide as Hd.
      * right. left. split; [apply Z.eqb_eq; lia|].
        unfold active, installed_slot. cbn [wait_us].
        destruct (decide (wait = 0)) as [->|Hnz]; [by left|by right].
      * destruct (decide (active (slot s j))) as [Hact|Hna].
        -- right. right. split; [apply Z.eqb_neq; lia|]. split; [done|].
           apply rebase_slot_wait_us.
        -- left. by apply rebase_slot_inactive.
    + left. by rewrite set_timer_invalid.
  - destruct (Z_lt_le_dec timer_id (Z.of_nat TMR_NUM)) as [Hlt|Hge].
    + assert (Hid : 0 <= timer_id < Z.of_nat TMR_NUM) by lia.
      destruct (decide (active (slot s (Z.to_nat timer_id)))) as [Hact|Hna].
      * rewrite remove_timer_active by done. cbn [fst].
        rewrite slot_store_slot by lia. case_decide as Hd; [|by left].
        right. left. split; [apply Z.eqb_eq; lia|by left].
      * left. by rewrite remove_timer_inactive.
    + left. by rewrite remove_timer_invalid.
  - pose proof (timer_interrupt_spec s Hlen) as H.
    set (r := timer_interrupt s) in *. clearbody r.
    cbv zeta in H. destruct H as (_ & Hs & _).
    rewrite (Hs j Hj).
    destruct (decide (active (slot s j))) as [Hact|Hna].
    + right. right. split; [done|]. split; [done|].
      apply advance_slot_wait_us.
    + left. by apply advance_slot_inactive.
  - left. apply slot_hw_tick.
Qed.

Lemma inactive_zeroed_step o s :
  op_ok o -> length (timer_data s) = TMR_NUM ->
  inactive_zeroed s -> inactive_zeroed (step o s).
Proof.
  intros Hok Hlen Hz j Hj Hna.
  destruct (step_slot o s j Hok Hlen Hj)
    as [Heq|[(_ & [Hzero|Hact])|(_ & Hact & Hw)]].
  - rewrite Heq in *. by apply Hz.
  - exact Hzero.
  - destruct (Hna Hact).
  - destruct Hna. unfold active in *. by rewrite Hw.
Qed.

Lemma reachable_run ops s :
  Forall op_ok ops -> reachable s -> reachable (run ops s).
Proof.
  intros Hops. revert s. induction Hops as [|o ops Ho _ IH]; intros s Hs.
  - exact Hs.
  - apply (IH (step o s)). by apply reachable_step.
Qed.

(** X14. The source's comment on the table, "For inactive timer entries:
    wait_us==0, remain==0", is an invariant of the program: in every state
    that well-typed calls, interrupts and ticks reach from program start,
    a slot whose [wait_us] is 0 has all three fields 0. *)
Theorem inactive_entries_zero (s : state) :
  reachable s -> inactive_zeroed s.
Proof.
  induction 1 as [|o s Hok Hreach IH].
  - intros j Hj _. unfold slot, initial_state. cbn [timer_data].
    apply list_lookup_total_correct, lookup_replicate_2. lia.
  - apply inactive_zeroed_step; [done| |done].
    by apply wf_state_length, reachable_wf.
Qed.

Lemma inactive_entries_zero_witness :
  reachable (run scenario_ops initial_state)
  /\ inactive_zeroed (run scenario_ops initial_state).
Proof.
  assert (Hr : reachable (run scenario_ops initial_state)).
  { apply reachable_run; [|apply reachable_initial].
    unfold scenario_ops. repeat first
      [ apply Forall_nil_2
      | apply Forall_cons_2; [cbn; unfold is_uint32, UINT32_MOD; try lia; exact I|]
      | apply Forall_app_2; [apply Forall_replicate; exact I|] ]. }
  split; [exact Hr|]. exact (inactive_entries_zero _ Hr).
Defined.

Lemma wf_run ops s : Forall op_ok ops -> wf_state s -> wf_state (run ops s).
Proof.
  intros Hops. revert s. induction Hops as [|o ops Ho _ IH]; intros s Hs.
  - exact Hs.
  - apply (IH (step o s)). by apply wf_step.
Qed.

(** X15. Only an operation that names a timer changes its period: across
    any run of well-typed operations in which no install and no removal
    names slot [j], [wait_us] of slot [j] is what it was, so the slot is
    active after the run exactly when it was before. *)
Theorem unnamed_timer_keeps_period (j : nat) (ops : list op) (s : state) :
  wf_state s -> (j < TMR_NUM)%nat ->
  Forall op_ok ops ->
  Forall (fun o => names j o = false) ops ->
  wait_us (slot (run ops s) j) = wait_us (slot s j)
  /\ (active (slot (run ops s) j) <-> active (slot s j)).
Proof.
  intros Hwf Hj Hops Hnames.
  assert (Hw : wait_us (slot (run ops s) j) = wait_us (slot s j)).
  { revert s Hwf Hnames.
    induction Hops as [|o ops Ho _ IH]; intros s Hwf Hnames; [done|].
    apply Forall_cons_1 in Hnames as [Hn Hnames].
    change (run (o :: ops) s) with (run ops (step o s)).
    rewrite IH by (try done; by apply wf_step).
    destruct (step_slot o s j Ho (wf_state_length s Hwf) Hj)
      as [Heq|[(Hnamed & _)|(_ & _ & Hw)]].
    - by rewrite Heq.
    - congruence.
    - exact Hw. }
  split; [exact Hw|]. unfold active. by rewrite Hw.
Qed.

Lemma unnamed_timer_keeps_period_witness :
  wait_us (slot (run other_ops sample_state) 0) = wait_us (slot sample_state 0)
  /\ (active (slot (run other_ops sample_state) 0)
      <-> active (slot sample_state 0)).
Proof.
  apply (unnamed_timer_keeps_period 0 other_ops sample_state).
  - reflexivity.
  - unfold TMR_NUM. lia.
  - unfold other_ops.
    repeat (apply Forall_cons_2;
            [cbn; unfold is_uint32, UINT32_MOD; try lia; exact I|]).
    apply Forall_nil_2.
  - unfold other_ops.
    repeat (apply Forall_cons_2; [reflexivity|]). apply Forall_nil_2.
Defined.

(** ** The installer of the theoretical variant *)

Lemma erase_store_wait_us out i v s :
  erase out (store_wait_us i v s)
  = Theoretical.store_wait_us i v (erase out s).
Proof. by apply erase_store_slot. Qed.

(** The two rebase loops are in step. *)
Lemma erase_rebase_loop timer_id d out s :
  for_loop TMR_NUM
    (fun i s =>
       if timer_id =? Z.of_nat i then s
       else if Theoretical.wait_us (Theoretical.slot s i) =? 0 then s
       else Theoretical.store_remain i
              (wrap32 (Theoretical.remain (Theoretical.slot s i) - d)) s)
    (erase out s)
  = erase out
      (for_loop TMR_NUM
         (fun i s =>
            if timer_id =? Z.of_nat i then s
            else if wait_us (slot s i) =? 0 then s
            else store_remain i (wrap32 (remain (slot s i) - d)) s)
         s).
Proof.
  apply (for_loop_rel (fun y x => y = erase out x)); [done|].
  intros i y x _ ->.
  destruct (timer_id =? Z.of_nat i); [done|].
  rewrite slot_erase. cbn [erase_slot Theoretical.wait_us Theoretical.remain].
  destruct (wait_us (slot x i) =? 0); [done|].
  by rewrite erase_store_remain.
Qed.

(** The two installers end in step: baseline and compare register. *)
Lemma erase_set_finish out v le :
  let y := Theoretical.store_last_update v (erase out le) in
  let x := store_last_update v le in
  Theoretical.store_cmp_reg
    (wrap32 (v + Theoretical.find_minimal_remain y)) y
  = erase out (store_cmp_reg (wrap32 (v + find_minimal_remain x)) x).
Proof.
  intros y x.
  assert (Hy : y = erase out x) by reflexivity.
  clearbody y. subst y.
  rewrite erase_find_minimal_remain. reflexivity.
Qed.

(** X16. On the ids of the table the installer of the theoretical variant
    and the one of the executable do the same to the table, the baseline
    and the compare register: [timer_set] returns, and returns the state
    [set_timer] returns with the firing counters forgotten. *)
Theorem timer_set_agrees (timer_id wait : Z) (out : list string) (s : state) :
  0 <= timer_id < Z.of_nat TMR_NUM ->
  Theoretical.timer_set timer_id wait (erase out s)
  = Theoretical.Returned (erase out (fst (set_timer timer_id wait s)))
  /\ snd (set_timer timer_id wait s) = [].
Proof.
  intros Hid. unfold Theoretical.timer_set, set_timer.
  destruct (Z.ltb_spec timer_id (Z.of_nat TMR_NUM)) as [_|Hge]; [|lia].
  destruct (Z.ltb_spec timer_id 0) as [Hneg|_]; [lia|].
  destruct (Z.geb_spec timer_id (Z.of_nat TMR_NUM)) as [Hge|_]; [lia|].
  cbn [negb fst snd]. cbv zeta. split; [|reflexivity].
  set (s1 := store_times_fired _ 0
               (store_remain _ wait (store_wait_us _ wait s))).
  assert (H1 : Theoretical.store_remain (Z.to_nat timer_id) wait
                 (Theoretical.store_wait_us (Z.to_nat timer_id) wait
                    (erase out s))
               = erase out s1).
  { subst s1.
    by rewrite erase_store_times_fired, erase_store_remain,
      erase_store_wait_us. }
  rewrite H1. clearbody s1. clear H1.
  change (Theoretical.tmr_val_reg (erase out s1)) with (tmr_val_reg s1).
  change (Theoretical.last_update_timer_value (erase out s1))
    with (last_update_timer_value s1).
  rewrite erase_rebase_loop.
  set (sl := for_loop TMR_NUM _ s1). clearbody sl.
  f_equal. apply erase_set_finish.
Qed.

Lemma timer_set_agrees_witness :
  0 <= 1 < Z.of_nat TMR_NUM
  /\ Theoretical.timer_set 1 30 (erase [] sample_state)
     = Theoretical.Returned (erase [] (fst (set_timer 1 30 sample_state)))
  /\ snd (set_timer 1 30 sample_state) = [].
Proof.
  assert (Hid : 0 <= 1 < Z.of_nat TMR_NUM) by (unfold TMR_NUM; lia).
  split; [exact Hid|]. exact (timer_set_agrees 1 30 [] sample_state Hid).
Defined.

(** ** What the theoretical handler prints *)

Lemma erase_printf_firing out i x :
  Theoretical.printf_firing i (erase out x) = erase (out ++ [msg_firing i]) x.
Proof. reflexivity. Qed.

(** One iteration of the two advance loops: the theoretical one prints the
    index when the slot fires. *)
Lemma erase_advance_body m out i x :
  (i < length (timer_data x))%nat ->
  (if Theoretical.wait_us (Theoretical.slot (erase out x) i) =? 0
   then erase out x
   else
     let s :=
       Theoretical.store_remain i
         (wrap32 (Theoretical.remain (Theoretical.slot (erase out x) i) - m))
         (erase out x) in
     if Theoretical.remain (Theoretical.slot s i) =? 0 then
       let s :=
         Theoretical.store_remain i
           (Theoretical.wait_us (Theoretical.slot s i)) s in
       Theoretical.printf_firing i s
     else s)
  = erase (out ++ (if fires m (slot x i) then [msg_firing i] else []))
      (if wait_us (slot x i) =? 0 then x
       else
         let s := store_remain i (wrap32 (remain (slot x i) - m)) x in
         if remain (slot s i) =? 0 then
           let s := store_remain i (wait_us (slot s i)) s in
           store_times_fired i (wrap32 (times_fired (slot s i) + 1)) s
         else s).
Proof.
  intros Hi. unfold fires.
  rewrite slot_erase. cbn [erase_slot Theoretical.wait_us Theoretical.remain].
  destruct (wait_us (slot x i) =? 0); [by rewrite app_nil_r|].
  cbv zeta. rewrite <- erase_store_remain, slot_erase.
  cbn [erase_slot Theoretical.wait_us Theoretical.remain negb andb].
  assert (Hr : remain (slot (store_remain i (wrap32 (remain (slot x i) - m)) x) i)
               = wrap32 (remain (slot x i) - m)).
  { unfold store_remain. rewrite slot_store_slot by done.
    by rewrite decide_True. }
  rewrite Hr.
  destruct (wrap32 (remain (slot x i) - m) =? 0); [|by rewrite app_nil_r].
  by rewrite erase_store_times_fired, <- erase_store_remain,
    erase_printf_firing.
Qed.

(** The two advance loops, with the lines of the theoretical one. *)
Lemma erase_advance_loop_lines m out s n :
  (n <= TMR_NUM)%nat ->
  length (timer_data s) = TMR_NUM ->
  for_loop n
    (fun i s =>
       if Theoretical.wait_us (Theoretical.slot s i) =? 0 then s
       else
         let s :=
           Theoretical.store_remain i
             (wrap32 (Theoretical.remain (Theoretical.slot s i) - m)) s in
         if Theoretical.remain (Theoretical.slot s i) =? 0 then
           let s :=
             Theoretical.store_remain i
               (Theoretical.wait_us (Theoretical.slot s i)) s in
           Theoretical.printf_firing i s
         else s)
    (erase out s)
  = erase (out ++ map msg_firing
                    (List.filter (fun i => fires m (slot s i)) (seq 0 n)))
      (for_loop n
         (fun i s =>
            if wait_us (slot s i) =? 0 then s
            else
              let s := store_remain i (wrap32 (remain (slot s i) - m)) s in
              if remain (slot s i) =? 0 then
                let s := store_remain i (wait_us (slot s i)) s in
                store_times_fired i (wrap32 (times_fired (slot s i) + 1)) s
              else s)
         s).
Proof.
  intros Hn Hlen. induction n as [|n IH].
  - cbn. by rewrite app_nil_r.
  - rewrite !for_loop_S, IH by lia. clear IH.
    epose proof (table_loop_spec n (fun _ => advance_slot m) _ s
                   (fun i x Hi => advance_body m i x Hi)
                   ltac:(lia)) as H.
    set (x := for_loop n _ s) in *. clearbody x. cbv zeta in H.
    destruct H as (Hl & Hs & _).
    rewrite (erase_advance_body m _ n x) by lia.
    rewrite (Hs n), decide_False by lia.
    rewrite seq_S, List.filter_app, map_app, <- app_assoc. cbn [List.filter].
    change (0 + n)%nat with n.
    by destruct (fires m (slot s n)).
Qed.

Lemma fires_spec m t :
  is_uint32 (remain t) -> 0 <= m <= remain t ->
  fires m t = true <-> active t /\ remain t = m.
Proof.
  unfold fires, active, is_uint32. intros Hr Hm.
  rewrite andb_true_iff, negb_true_iff, Z.eqb_neq, Z.eqb_eq.
  rewrite wrap32_small by (unfold is_uint32; lia).
  split; intros [? ?]; (split; [done|lia]).
Qed.

Lemma fires_advance_slot m t :
  times_fired (advance_slot m t)
  = if fires m t then wrap32 (times_fired t + 1) else times_fired t.
Proof.
  unfold fires, advance_slot.
  destruct (wait_us t =? 0); [done|]. cbn [negb andb].
  by destruct (wrap32 (remain t - m) =? 0).
Qed.

(** X17. The handler of the theoretical variant is the executable one with
    its counting replaced by printing: it leaves the same table, baseline
    and registers, and appends to the console one "Firing timer id" line
    per firing slot, in increasing order of the ids.  The slots that fire
    are the active slots whose [remain] is the minimum, there is one
    whenever a timer is active, and they are exactly the slots whose
    [times_fired] the executable handler increments. *)
Theorem theoretical_interrupt_prints (out : list string) (s : state) :
  wf_state s ->
  Theoretical.timer_interrupt (erase out s)
  = erase (out ++ map msg_firing (firing_ids s)) (timer_interrupt s)
  /\ StronglySorted lt (firing_ids s)
  /\ (forall i, i ∈ firing_ids s <->
        (i < TMR_NUM)%nat /\ active (slot s i)
        /\ remain (slot s i) = find_minimal_remain s)
  /\ ((exists j, (j < TMR_NUM)%nat /\ active (slot s j)) -> firing_ids s <> [])
  /\ (forall i, (i < TMR_NUM)%nat ->
        times_fired (slot (timer_interrupt s) i)
        = if decide (i ∈ firing_ids s)
          then wrap32 (times_fired (slot s i) + 1)
          else times_fired (slot s i)).
Proof.
  intros Hwf. pose proof (wf_state_length s Hwf) as Hlen.
  assert (Hin : forall i, i ∈ firing_ids s <->
            (i < TMR_NUM)%nat /\ active (slot s i)
            /\ remain (slot s i) = find_minimal_remain s).
  { intros i. rewrite list_elem_of_In. unfold firing_ids.
    rewrite filter_In, in_seq.
    split.
    - intros [Hi Hf]. assert (Hi' : (i < TMR_NUM)%nat) by lia.
      split; [done|].
      assert (Hact : active (slot s i)).
      { unfold fires, active in *. apply andb_true_iff in Hf as [Hf _].
        by apply negb_true_iff, Z.eqb_neq in Hf. }
      apply fires_spec in Hf; [done| |by apply find_minimal_remain_bounds].
      by destruct (wf_state_slot s i Hwf Hi') as (_ & ? & _).
    - intros (Hi & Hact & Hr). split; [lia|].
      apply fires_spec; [|by apply find_minimal_remain_bounds|done].
      by destruct (wf_state_slot s i Hwf Hi) as (_ & ? & _). }
  split; [|split; [|split; [exact Hin|split]]].
  - pose proof (erase_advance_loop_lines (find_minimal_remain s) out s TMR_NUM
                  (le_n _) Hlen) as H.
    unfold Theoretical.timer_interrupt, timer_interrupt, firing_ids.
    rewrite erase_find_minimal_remain.
    set (lt := for_loop TMR_NUM _ (erase out s)) in *.
    set (le := for_loop TMR_NUM _ s) in *.
    set (ids := List.filter _ (seq 0 TMR_NUM)) in *.
    clearbody lt le ids. cbv zeta in *. rewrite H.
    apply erase_finish.
  - apply filter_sorted, seq_sorted.
  - intros (j & Hj & Hact).
    destruct (find_minimal_remain_min s Hwf) as [(k & Hk & Hak & Hrk) _].
    { by exists j. }
    intros Hnil. assert (Hk' : k ∈ firing_ids s) by (by apply Hin).
    rewrite Hnil in Hk'. by apply not_elem_of_nil in Hk'.
  - intros i Hi.
    pose proof (timer_interrupt_spec s Hlen) as H.
    set (r := timer_interrupt s) in *. clearbody r.
    cbv zeta in H. destruct H as (_ & Hs & _).
    rewrite (Hs i Hi), fires_advance_slot.
    case_decide as Hd; rewrite list_elem_of_In in Hd; unfold firing_ids in Hd.
    + apply filter_In in Hd as [_ ->]. done.
    + destruct (fires (find_minimal_remain s) (slot s i)) eqn:Hf; [|done].
      destruct Hd. apply filter_In. split; [apply in_seq; lia|done].
Qed.

Lemma theoretical_interrupt_prints_witness :
  Theoretical.timer_interrupt (erase [] sample_state)
  = erase ([] ++ map msg_firing (firing_ids sample_state))
      (timer_interrupt sample_state)
  /\ firing_ids sample_state = [1%nat; 3%nat].
Proof.
  destruct (theoretical_interrupt_prints [] sample_state eq_refl) as [H _].
  split; [exact H|reflexivity].
Defined.

(** ** The handler at the wrong time *)

Lemma slot_mk_state l a b c d j :
  slot (mk_state l a b c d) j = l !!! j.
Proof. reflexivity. Qed.

(** X18. The handler never reads the counter to decide what fires: run on
    the same table at any counter value, with any baseline and registers,
    it leaves the same table, takes the counter as the new baseline and
    arms the compare register at the counter plus the new minimum. *)
Theorem timer_interrupt_any_time (s : state) (l v c r : Z) :
  length (timer_data s) = TMR_NUM ->
  timer_interrupt (mk_state (timer_data s) l v c r)
  = mk_state (timer_data (timer_interrupt s)) v v
      (wrap32 (v + find_minimal_remain (timer_interrupt s))) 1.
Proof.
  intros Hlen.
  set (s0 := mk_state (timer_data s) l v c r).
  assert (Hlen0 : length (timer_data s0) = TMR_NUM) by exact Hlen.
  assert (Hslot0 : forall j, slot s0 j = slot s j) by reflexivity.
  assert (Hv0 : tmr_val_reg s0 = v) by reflexivity.
  assert (Hm : find_minimal_remain s0 = find_minimal_remain s).
  { apply find_minimal_remain_ext. intros j _. apply Hslot0. }
  clearbody s0.
  pose proof (timer_interrupt_spec s0 Hlen0) as H0.
  pose proof (timer_interrupt_spec s Hlen) as H1.
  set (r0 := timer_interrupt s0) in *. set (r1 := timer_interrupt s) in *.
  clearbody r0 r1. cbv zeta in H0, H1.
  destruct H0 as (Hl0 & Hs0 & Hla0 & Hva0 & Hc0 & Hcl0).
  destruct H1 as (Hl1 & Hs1 & _).
  assert (Heq : forall j, (j < TMR_NUM)%nat -> slot r0 j = slot r1 j).
  { intros j Hj. by rewrite Hs0, Hs1, Hm, Hslot0. }
  apply state_ext; cbn [timer_data last_update_timer_value tmr_val_reg
                        tmr_cmp_reg tmr_clr_reg].
  - by rewrite Hl0, Hl1.
  - intros j Hj. rewrite Heq by (by rewrite <- Hl0).
    symmetry. apply slot_mk_state.
  - by rewrite Hla0, Hv0.
  - by rewrite Hva0, Hv0.
  - rewrite Hc0, Hv0. f_equal. f_equal. by apply find_minimal_remain_ext.
  - exact Hcl0.
Qed.

(** The handler run on the table of [sample_state] five ticks before the
    counter wraps. *)
Lemma timer_interrupt_any_time_witness :
  timer_interrupt (mk_state (timer_data sample_state) 7 4294967291 0 0)
  = mk_state (timer_data (timer_interrupt sample_state)) 4294967291 4294967291
      (wrap32 (4294967291 + find_minimal_remain (timer_interrupt sample_state)))
      1.
Proof.
  exact (timer_interrupt_any_time sample_state 7 4294967291 0 0 eq_refl).
Defined.

(** X19. A run of the handler while no timer is active (an interrupt left
    armed by the removal of the last timer) changes no slot: it takes the
    counter as baseline, writes the clear register and arms the compare
    register at the counter plus [0xffffffff], one tick behind the counter,
    so that the counter thread starts the next handler [2^32 - 1] passes
    later. *)
Theorem timer_interrupt_none_active (s : state) :
  wf_state s -> none_active s ->
  timer_interrupt s
  = mk_state (timer_data s) (tmr_val_reg s) (tmr_val_reg s)
      (wrap32 (tmr_val_reg s + UINT32_MAX)) 1
  /\ passes_to_interrupt (timer_interrupt s) = UINT32_MAX.
Proof.
  intros Hwf Hnone. pose proof (wf_state_length s Hwf) as Hlen.
  assert (Hval : is_uint32 (tmr_val_reg s)).
  { by apply wf_state_spec in Hwf as (_ & _ & _ & ? & _). }
  pose proof (timer_interrupt_spec s Hlen) as H.
  set (r := timer_interrupt s) in *. clearbody r. cbv zeta in H.
  destruct H as (Hl & Hs & Hla & Hva & Hc & Hcl).
  assert (Heq : forall j, (j < TMR_NUM)%nat -> slot r j = slot s j).
  { intros j Hj. rewrite Hs by done. apply advance_slot_inactive.
    by apply Hnone. }
  assert (Hm : find_minimal_remain r = UINT32_MAX).
  { rewrite (find_minimal_remain_ext r s Heq).
    by apply find_minimal_remain_none. }
  rewrite Hm in Hc.
  split.
  - apply state_ext; cbn [timer_data last_update_timer_value tmr_val_reg
                          tmr_cmp_reg tmr_clr_reg]; try done.
    + by rewrite Hl.
    + intros j Hj. rewrite Heq by (by rewrite <- Hl).
      symmetry. apply slot_mk_state.
  - unfold passes_to_interrupt. rewrite Hc, Hva.
    assert (Hd : wrap32 (wrap32 (tmr_val_reg s + UINT32_MAX) - tmr_val_reg s)
                 = UINT32_MAX).
    { unfold wrap32. rewrite Zminus_mod_idemp_l.
      replace (tmr_val_reg s + UINT32_MAX - tmr_val_reg s) with UINT32_MAX
        by lia.
      reflexivity. }
    rewrite Hd. reflexivity.
Qed.

Lemma timer_interrupt_none_active_witness :
  none_active late_clock_state
  /\ timer_interrupt late_clock_state
     = mk_state (timer_data late_clock_state) 4294967291 4294967291
         4294967290 1
  /\ passes_to_interrupt (timer_interrupt late_clock_state) = UINT32_MAX.
Proof.
  assert (Hnone : none_active late_clock_state).
  { intros j Hj Hact. apply Hact. unfold TMR_NUM in Hj.
    do 10 (destruct j as [|j]; [reflexivity|]). lia. }
  split; [exact Hnone|].
  exact (timer_interrupt_none_active late_clock_state eq_refl Hnone).
Defined.

(** ** A thread that cannot be created *)

(** X20. When the counter reaches the compare register and the operating
    system refuses the handler's thread, [hw_timer_thread] prints its own
    error line only (the routine it passes is not null, so
    [create_thread_simple] prints nothing), clears [g_no_errors], and runs
    no handler.  The table, the baseline and the compare register are as
    before, so the interrupt is lost: the counter thread next meets the
    compare register a full turn of [2^32] passes later. *)
Theorem lost_interrupt (CreateThread : (state -> state) -> Z) (p : process) :
  tmr_val_reg (hw_tick (globals p)) = tmr_cmp_reg (globals p) ->
  CreateThread timer_interrupt = NULL ->
  let r := hw_timer_thread_pass CreateThread p in
  pass_isr r = false
  /\ pass_out r = [msg_hw_thread_error]
  /\ g_no_errors (pass_process r) = false
  /\ h_isr (pass_process r) = NULL
  /\ globals (pass_process r) = hw_tick (globals p)
  /\ passes_to_interrupt (globals (pass_process r)) = UINT32_MOD.
Proof.
  intros Hmatch Hnull. unfold hw_timer_thread_pass, create_thread_simple.
  set (s := hw_tick (globals p)) in *.
  assert (Hcmp : tmr_cmp_reg s = tmr_cmp_reg (globals p)) by reflexivity.
  clearbody s. rewrite Hcmp, Hmatch, Z.eqb_refl, Hnull. cbn.
  repeat (split; [reflexivity|]).
  unfold passes_to_interrupt. by rewrite Hcmp, Hmatch, Z.sub_diag.
Qed.

(** [sample_state] one pass before its compare match, under an operating
    system that creates no thread. *)
Lemma lost_interrupt_witness :
  let p := mk_process (ticks 19 sample_state) NULL true in
  let r := hw_timer_thread_pass (fun _ => NULL) p in
  tmr_val_reg (hw_tick (globals p)) = tmr_cmp_reg (globals p)
  /\ pass_isr r = false
  /\ pass_out r = [msg_hw_thread_error]
  /\ g_no_errors (pass_process r) = false
  /\ passes_to_interrupt (globals (pass_process r)) = UINT32_MOD.
Proof.
  intros p r.
  assert (Hmatch : tmr_val_reg (hw_tick (globals p)) = tmr_cmp_reg (globals p))
    by reflexivity.
  destruct (lost_interrupt (fun _ => NULL) p Hmatch eq_refl)
    as (H1 & H2 & H3 & _ & _ & H6).
  split; [exact Hmatch|]. split; [exact H1|]. split; [exact H2|].
  split; [exact H3|exact H6].
Defined.

(** ** A removal leaves the interrupt armed *)

Lemma serviced_pass_ticks i s :
  serviced_pass (ticks i s)
  = if interrupt_at i s then timer_interrupt (ticks (S i) s)
    else ticks (S i) s.
Proof.
  rewrite ticks_S.
  unfold serviced_pass, interrupt_at, hw_timer_thread_pass,
    create_thread_simple.
  cbn [globals].
  set (x := ticks i s). clearbody x.
  destruct (tmr_val_reg (hw_tick x) =? tmr_cmp_reg (hw_tick x)); reflexivity.
Qed.

(** Before the compare match the passes only move the counter. *)
Lemma serviced_passes_silent s n :
  is_uint32 (tmr_cmp_reg s) ->
  Z.of_nat n < passes_to_interrupt s ->
  serviced_passes n s = ticks n s.
Proof.
  intros Hc. induction n as [|n IH]; intros Hn; [reflexivity|].
  change (serviced_passes (S n) s) with (serviced_pass (serviced_passes n s)).
  rewrite IH by lia. rewrite serviced_pass_ticks.
  destruct (first_interrupt_aux s n Hc) as [Hbefore _].
  rewrite Hbefore by lia. reflexivity.
Qed.

(** The pass of the compare match runs the handler. *)
Lemma serviced_passes_match s n :
  is_uint32 (tmr_cmp_reg s) ->
  Z.of_nat n = passes_to_interrupt s ->
  serviced_passes n s = timer_interrupt (ticks n s).
Proof.
  intros Hc Hn. destruct n as [|n].
  { pose proof (passes_to_interrupt_range s). lia. }
  change (serviced_passes (S n) s) with (serviced_pass (serviced_passes n s)).
  rewrite serviced_passes_silent by (done || lia).
  rewrite serviced_pass_ticks.
  destruct (first_interrupt_aux s n Hc) as [_ Hat].
  rewrite Hat by lia. reflexivity.
Qed.

Lemma wf_ticks k s : wf_state s -> wf_state (ticks k s).
Proof.
  intros Hwf. induction k as [|k IH]; [exact Hwf|].
  rewrite ticks_S. by apply wf_hw_tick.
Qed.

Lemma slot_ticks k s j : slot (ticks k s) j = slot s j.
Proof.
  unfold slot. by destruct (ticks_spec k s) as (-> & _).
Qed.

Lemma tmr_val_reg_ticks k s :
  wf_state s -> tmr_val_reg (ticks k s) = wrap32 (tmr_val_reg s + Z.of_nat k).
Proof.
  intros Hwf. destruct (ticks_spec k s) as (_ & _ & _ & _ & <-).
  symmetry. apply wrap32_small.
  pose proof (wf_ticks k s Hwf) as Hwfk.
  by apply wf_state_spec in Hwfk as (_ & _ & _ & ? & _).
Qed.

(** X21. [remove_timer] does not re-arm the compare register.  When the
    timer it removes is the one the register is armed for, and the earliest
    of the others, [b], is due later, the counter thread still starts the
    handler at the removed timer's deadline, and the handler, which takes
    the earliest deadline for reached, fires [b] there:
    [remain b - remain a] ticks before [b] is due. *)
Theorem remove_timer_leaves_interrupt_armed (s : state) (a b : nat) :
  wf_state s ->
  (a < TMR_NUM)%nat -> (b < TMR_NUM)%nat ->
  active (slot s a) -> active (slot s b) ->
  tmr_cmp_reg s = deadline s a ->
  elapsed s < remain (slot s a) ->
  remain (slot s a) < remain (slot s b) ->
  (forall j, (j < TMR_NUM)%nat -> j <> a -> active (slot s j) ->
     remain (slot s b) <= remain (slot s j)) ->
  let s1 := fst (remove_timer (Z.of_nat a) s) in
  let n := Z.to_nat (remain (slot s a) - elapsed s) in
  let s2 := serviced_passes n s1 in
  passes_to_interrupt s1 = remain (slot s a) - elapsed s
  /\ s2 = timer_interrupt (ticks n s1)
  /\ tmr_val_reg s2 = deadline s a
  /\ slot s2 b = mk_timer_data (wait_us (slot s b)) (wait_us (slot s b))
                   (wrap32 (times_fired (slot s b) + 1))
  /\ wrap32 (deadline s b - tmr_val_reg s2)
     = remain (slot s b) - remain (slot s a).
Proof.
  intros Hwf Ha Hb Hacta Hactb Hcmp Hel Hlt Hmin s1 n s2.
  pose proof (wf_state_length s Hwf) as Hlen.
  assert (Hida : 0 <= Z.of_nat a < Z.of_nat TMR_NUM) by lia.
  assert (Hab : a <> b) by (intros ->; lia).
  destruct (wf_state_slot s a Hwf Ha) as (_ & Hra & _).
  destruct (wf_state_slot s b Hwf Hb) as (_ & Hrb & _).
  pose proof (elapsed_range s) as He.
  (* the removal *)
  assert (Hs1 : s1 = store_slot a (fun _ => timer_zero) s).
  { subst s1. rewrite remove_timer_active by (rewrite ?Nat2Z.id; done).
    by rewrite Nat2Z.id. }
  assert (Hwf1 : wf_state s1).
  { subst s1. apply wf_remove_timer; [lia|done]. }
  assert (Hslot1 : forall j, slot s1 j = if decide (a = j) then timer_zero
                                         else slot s j).
  { intros j. rewrite Hs1. apply slot_store_slot. lia. }
  assert (Hc1 : tmr_cmp_reg s1 = tmr_cmp_reg s) by (by rewrite Hs1).
  assert (Hv1 : tmr_val_reg s1 = tmr_val_reg s) by (by rewrite Hs1).
  clearbody s1.
  (* the passes up to the compare match *)
  assert (Hpasses : passes_to_interrupt s1 = remain (slot s a) - elapsed s).
  { unfold passes_to_interrupt. rewrite Hc1, Hv1, Hcmp.
    assert (Hd : wrap32 (deadline s a - tmr_val_reg s)
                 = remain (slot s a) - elapsed s).
    { unfold deadline, elapsed. unfold is_uint32, elapsed in *.
      rewrite <- (wrap32_small (remain (slot s a) - wrap32 _))
        by (unfold is_uint32; lia).
      unfold wrap32. rewrite Zminus_mod_idemp_l, Zminus_mod_idemp_r.
      f_equal. lia. }
    rewrite Hd. destruct (Z.eqb_spec (remain (slot s a) - elapsed s) 0); lia. }
  assert (Hn : Z.of_nat n = passes_to_interrupt s1).
  { subst n. rewrite Hpasses. lia. }
  assert (Hcu : is_uint32 (tmr_cmp_reg s1)).
  { by apply wf_state_spec in Hwf1 as (_ & _ & _ & _ & ? & _). }
  assert (Hrun : s2 = timer_interrupt (ticks n s1)).
  { subst s2. by apply serviced_passes_match. }
  assert (Hvn : tmr_val_reg (ticks n s1) = deadline s a).
  { rewrite tmr_val_reg_ticks by done. rewrite Hv1, Hn, Hpasses.
    unfold deadline, elapsed, wrap32.
    rewrite Z.add_sub_assoc, Zminus_mod_idemp_r. f_equal. lia. }
  pose proof (wf_ticks n s1 Hwf1) as Hwfn.
  assert (Hslotn : forall j, slot (ticks n s1) j
                             = if decide (a = j) then timer_zero
                               else slot s j).
  { intros j. by rewrite slot_ticks. }
  clearbody n. set (x := ticks n s1) in *. clearbody x.
  (* the handler *)
  assert (Hactx : active (slot x b)).
  { rewrite Hslotn. by rewrite decide_False. }
  assert (Hm : find_minimal_remain x = remain (slot s b)).
  { destruct (find_minimal_remain_min x Hwfn) as [(k & Hk & Hak & Hrk) Hle].
    { by exists b. }
    specialize (Hle b Hb Hactx).
    rewrite Hslotn in Hak, Hrk. rewrite Hslotn, decide_False in Hle by done.
    case_decide as Hd; [by destruct Hak|].
    specialize (Hmin k Hk ltac:(congruence) Hak). lia. }
  pose proof (timer_interrupt_spec x (wf_state_length x Hwfn)) as H.
  rewrite <- Hrun in H. clearbody s2. cbv zeta in H.
  destruct H as (_ & Hs2 & _ & Hv2 & _).
  split; [exact Hpasses|]. split; [exact Hrun|].
  rewrite Hv2, Hvn. split; [reflexivity|]. split.
  - rewrite Hs2, Hm by done. rewrite Hslotn, decide_False by done.
    by apply advance_slot_fire.
  - unfold deadline. unfold is_uint32 in *.
    rewrite <- (wrap32_small (remain (slot s b) - remain (slot s a)))
      by (unfold is_uint32; lia).
    unfold wrap32. rewrite Zminus_mod_idemp_l, Zminus_mod_idemp_r.
    f_equal. lia.
Qed.

(** Timer 1 of [two_timer_state] is removed ten ticks before it is due:
    the handler runs at tick 1020 and fires timer 0, due at tick 1070. *)
Lemma remove_timer_leaves_interrupt_armed_witness :
  let s1 := fst (remove_timer 1 two_timer_state) in
  let s2 := serviced_passes 10 s1 in
  active (slot two_timer_state 1)
  /\ tmr_cmp_reg two_timer_state = deadline two_timer_state 1
  /\ passes_to_interrupt s1 = 10
  /\ tmr_val_reg s2 = 1020
  /\ slot s2 0 = mk_timer_data 100 100 3
  /\ wrap32 (deadline two_timer_state 0 - tmr_val_reg s2) = 50.
Proof.
  intros s1 s2.
  assert (Hact1 : active (slot two_timer_state 1)) by (by vm_compute).
  assert (Hact0 : active (slot two_timer_state 0)) by (by vm_compute).
  assert (Hcmp : tmr_cmp_reg two_timer_state = deadline two_timer_state 1)
    by reflexivity.
  assert (Hel : elapsed two_timer_state < remain (slot two_timer_state 1))
    by (by vm_compute).
  assert (Hlt : remain (slot two_timer_state 1)
                < remain (slot two_timer_state 0)) by (by vm_compute).
  assert (Hmin : forall j, (j < TMR_NUM)%nat -> j <> 1%nat ->
            active (slot two_timer_state j) ->
            remain (slot two_timer_state 0) <= remain (slot two_timer_state j)).
  { intros j Hj Hne Hact. unfold TMR_NUM in Hj.
    destruct j as [|[|j]]; [vm_compute; discriminate|done|].
    do 8 (destruct j as [|j]; [by destruct Hact|]). lia. }
  destruct (remove_timer_leaves_interrupt_armed two_timer_state 1 0 eq_refl
              ltac:(unfold TMR_NUM; lia) ltac:(unfold TMR_NUM; lia)
              Hact1 Hact0 Hcmp Hel Hlt Hmin)
    as (H1 & _ & H3 & H4 & H5).
  split; [exact Hact1|]. split; [exact Hcmp|].
  split; [exact H1|]. split; [exact H3|]. split; [exact H4|exact H5].
Defined.
